(** * Kent (Fisher-Bingham 5) distribution on the sphere: model and properties

    A shallow embedding of [kent_distribution.py].

    Numbers.  The program computes in IEEE binary64; this development follows
    it over the real numbers [R], the usual first model of numerical code.
    Over [R] a tolerance such as [1E-12] is met with an exact equality, and
    nothing overflows, underflows or cancels.  A property is therefore stated
    for the inputs on which the program's arithmetic is well conditioned, so
    that binary64 follows the real value up to rounding; the inputs left out
    are named by hypotheses ([clear_of_the_poles], [working_range],
    [nearly_unit]), and module [Float64] replays the program on primitive
    binary64 floats at inputs where rounding decides the outcome: an angle
    1E-9 from a pole, a norm that underflows, a quotient by a zero norm, a
    sample so concentrated that the moment formulas cancel.

    What the program can observe of arithmetic going wrong is kept where the
    real value decides it: numpy's [log] of a non-positive number and a
    division by zero issue a [RuntimeWarning], Python's [**] on a zero base
    raises [ZeroDivisionError].  The warnings are modelled as they act under
    [warnings.simplefilter('error')], the setting [log_normalize] installs
    around its whole body: they are raised.

    External collaborators.  The gamma function, the modified Bessel function,
    the symmetric eigen-solver and the SLSQP optimiser are library calls; they
    appear as section variables, with the part of their contract a proof
    needs stated as a hypothesis of that proof. *)

From Stdlib Require Import Reals Lra Lia Psatz RNsatz List Bool.
From Stdlib Require PrimFloat.
Import ListNotations.

Open Scope R_scope.

(* ================================================================== *)
(** * Arrays of shape (3,) and (3,3) *)

Definition vec3 : Type := (R * R * R)%type.

(** A matrix is the triple of its rows, as [array([[..],[..],[..]])]. *)
Definition mat3 : Type := (vec3 * vec3 * vec3)%type.

Definition vscale (c : R) (v : vec3) : vec3 :=
  let '(x, y, z) := v in (c * x, c * y, c * z).

(** [v / c] on an array.  numpy does not raise on [c = 0]: it warns and
    yields nan or inf, values [R] does not have; here [/ 0 = 0]. *)
Definition vdiv (v : vec3) (c : R) : vec3 :=
  let '(x, y, z) := v in (x / c, y / c, z / c).

(** [inner(a, b)] of two 1-d arrays; also [sum(a*b)]. *)
Definition inner (a b : vec3) : R :=
  let '(a0, a1, a2) := a in
  let '(b0, b1, b2) := b in
  a0 * b0 + a1 * b1 + a2 * b2.

(** [norm(x) = sqrt(sum(x*x))] *)
Definition norm (x : vec3) : R := sqrt (inner x x).

Definition cross (a b : vec3) : vec3 :=
  let '(a0, a1, a2) := a in
  let '(b0, b1, b2) := b in
  (a1 * b2 - a2 * b1, a2 * b0 - a0 * b2, a0 * b1 - a1 * b0).

Definition transpose (A : mat3) : mat3 :=
  let '((a00, a01, a02), (a10, a11, a12), (a20, a21, a22)) := A in
  ((a00, a10, a20), (a01, a11, a21), (a02, a12, a22)).

(** [inner(A, B)] of two 2-d arrays: entry (i, j) is row i of A times
    row j of B. *)
Definition inner2 (A B : mat3) : mat3 :=
  let '(r0, r1, r2) := A in
  let '(s0, s1, s2) := B in
  ((inner r0 s0, inner r0 s1, inner r0 s2),
   (inner r1 s0, inner r1 s1, inner r1 s2),
   (inner r2 s0, inner r2 s1, inner r2 s2)).

(** [MMul(A, B) = inner(A, transpose(B))] *)
Definition MMul (A B : mat3) : mat3 := inner2 A (transpose B).

(** [MMul(A, reshape(v, (3, 1)))]: the (3,1) result, read as a vector. *)
Definition MMul_col (A : mat3) (v : vec3) : vec3 :=
  let '(r0, r1, r2) := A in (inner r0 v, inner r1 v, inner r2 v).

(** [dot(A, v)] of a matrix and a vector. *)
Definition dot (A : mat3) (v : vec3) : vec3 :=
  let '(r0, r1, r2) := A in (inner r0 v, inner r1 v, inner r2 v).

(** [A[:,0]], [A[:,1]], [A[:,2]] *)
Definition col0 (A : mat3) : vec3 := let '(r0, _, _) := transpose A in r0.
Definition col1 (A : mat3) : vec3 := let '(_, r1, _) := transpose A in r1.
Definition col2 (A : mat3) : vec3 := let '(_, _, r2) := transpose A in r2.

(** [array([[g1[0], g2[0], g3[0]], ...])]: the matrix with given columns. *)
Definition of_columns (g1 g2 g3 : vec3) : mat3 := transpose (g1, g2, g3).

(* ================================================================== *)
(** * numpy's inverse trigonometric functions on finite arguments *)

(** [arccos]: on [-1, 1] the principal value in [0, PI]. *)
Definition arccos (x : R) : R := acos x.

(** [arctan2(y, x)], the angle of the point (x, y) in (-PI, PI]; at the
    origin the C library gives 0. *)
Definition arctan2 (y x : R) : R :=
  if Rlt_dec 0 x then atan (y / x)
  else if Rlt_dec x 0 then
    if Rle_dec 0 y then atan (y / x) + PI else atan (y / x) - PI
  else if Rlt_dec 0 y then PI / 2
  else if Rlt_dec y 0 then - (PI / 2)
  else 0.

(* ================================================================== *)
(** * Outcomes of Python calls *)

Inductive exn : Type :=
| AssertionError
| OverflowError
| RuntimeWarning
| ZeroDivisionError
| ValueError
| UnboundLocalError.

(** A call returns, raises, or (a [while True] loop followed with bounded
    fuel) has not returned yet. *)
Inductive outcome (A : Type) : Type :=
| Ok (a : A)
| Raise (e : exn)
| OutOfFuel.

Arguments Ok {A} a.
Arguments Raise {A} e.
Arguments OutOfFuel {A}.

Definition bind {A B : Type} (m : outcome A) (k : A -> outcome B) : outcome B :=
  match m with
  | Ok a => k a
  | Raise e => Raise e
  | OutOfFuel => OutOfFuel
  end.

Notation "x <- m ;; k" := (bind m (fun x => k))
  (at level 61, m at next level, right associativity).

(** [assert c] *)
Definition assert (c : bool) : outcome unit :=
  if c then Ok tt else Raise AssertionError.

Definition Rltb (x y : R) : bool := if Rlt_dec x y then true else false.
Definition Reqb (x y : R) : bool := if Req_dec_T x y then true else false.

(* ================================================================== *)
(** * The distribution object and its frame *)

Record KentDistribution : Type := mkKent {
  gamma1 : vec3;
  gamma2 : vec3;
  gamma3 : vec3;
  kappa : R;
  beta : R;
  theta : R;
  phi : R;
  psi : R;
  cached_rvs : list vec3;
  level_log_pdf : list R
}.

Definition minimum_value_for_kappa : R := 1e-6.

Definition create_matrix_H (theta phi : R) : mat3 :=
  ((cos theta,           - sin theta,         0),
   (sin theta * cos phi, cos theta * cos phi, - sin phi),
   (sin theta * sin phi, cos theta * sin phi, cos phi)).

Definition create_matrix_Ht (theta phi : R) : mat3 :=
  transpose (create_matrix_H theta phi).

Definition create_matrix_K (psi : R) : mat3 :=
  ((1, 0,       0),
   (0, cos psi, - sin psi),
   (0, sin psi, cos psi)).

Definition create_matrix_Gamma (theta phi psi : R) : mat3 :=
  MMul (create_matrix_H theta phi) (create_matrix_K psi).

Definition spherical_coordinates_to_gammas (theta phi psi : R)
  : vec3 * vec3 * vec3 :=
  let Gamma := create_matrix_Gamma theta phi psi in
  (col0 Gamma, col1 Gamma, col2 Gamma).

(** The angles of a first axis.  Over the reals the arccos of cos theta is
    theta on [0, pi].  In binary64 the cosine of an angle below 1.5E-8 has
    rounded to 1 and its arccos is 0, and next to a pole a rounding error of
    1E-16 in the cosine moves the angle by about 1E-16/theta: the
    properties that pass through these angles are stated for axes
    [clear_of_the_poles]. *)
Definition gamma1_to_spherical_coordinates (g1 : vec3) : R * R :=
  let '(g10, g11, g12) := g1 in
  (arccos g10, arctan2 g12 g11).

Definition gammas_to_spherical_coordinates (g1 g2 : vec3) : R * R * R :=
  let '(theta, phi) := gamma1_to_spherical_coordinates g1 in
  let Ht := create_matrix_Ht theta phi in
  let '(_, u1, u2) := MMul_col Ht g2 in
  (theta, phi, arctan2 u2 u1).

(** [KentDistribution.__init__].  Its only assertions are
    [len(gamma) == 3], which hold of every [vec3]; the two caches start
    empty. *)
Definition init (g1 g2 g3 : vec3) (k b : R) : outcome KentDistribution :=
  let '(th, ph, ps) := gammas_to_spherical_coordinates g1 g2 in
  Ok (mkKent g1 g2 g3 k b th ph ps [] []).

(** The [Gamma] property: rebuilt from the stored angles. *)
Definition Gamma (d : KentDistribution) : mat3 :=
  create_matrix_Gamma (theta d) (phi d) (psi d).

(* ================================================================== *)
(** * The four constructors *)

Definition kent (theta phi psi k b : R) : outcome KentDistribution :=
  let '(g1, g2, g3) := spherical_coordinates_to_gammas theta phi psi in
  init g1 g2 g3 k b.

Definition kent2 (g1 g2 g3 : vec3) (k b : R) : outcome KentDistribution :=
  _ <- assert (Rltb (Rabs (inner g1 g2)) 1e-10) ;;
  _ <- assert (Rltb (Rabs (inner g2 g3)) 1e-10) ;;
  _ <- assert (Rltb (Rabs (inner g3 g1)) 1e-10) ;;
  init g1 g2 g3 k b.

(** [argmax] of a three-element list: the first index of the maximum. *)
Definition argmax3 {A : Type} (n1 n2 n3 : R) (a1 a2 a3 : A) : A :=
  if Rlt_dec n1 n2
  then (if Rlt_dec n2 n3 then a3 else a2)
  else (if Rlt_dec n1 n3 then a3 else a1).

Definition generate_arbitrary_orthogonal_unit_vector (x : vec3) : vec3 :=
  let v1 := cross x (1, 0, 0) in
  let v2 := cross x (0, 1, 0) in
  let v3 := cross x (0, 0, 1) in
  let v := argmax3 (norm v1) (norm v2) (norm v3) v1 v2 v3 in
  vdiv v (norm v).

(** [kent3]: the axes stored are rebuilt from the angles of A/|A| and
    B/|B|.  Over the reals no norm underflows or overflows; in binary64 the
    norm of a vector shorter than about 1E-162 is 0 (module [Float64]), so
    the properties of [kent3] are stated for lengths in [working_range]. *)
Definition kent3 (A B : vec3) : outcome KentDistribution :=
  let k := norm A in
  let b := norm B in
  let g1 := vdiv A k in
  let g2 := if Req_dec_T b 0
            then generate_arbitrary_orthogonal_unit_vector g1
            else vdiv B b in
  let '(th, ph, ps) := gammas_to_spherical_coordinates g1 g2 in
  let '(g1', g2', g3') := spherical_coordinates_to_gammas th ph ps in
  init g1' g2' g3' k b.

Definition kent4 (G : mat3) (k b : R) : outcome KentDistribution :=
  kent2 (col0 G) (col1 G) (col2 G) k b.

(* ================================================================== *)
(** * Arrays of any batch shape *)

(** An array of [n] batch axes over items of type [A]; with [A := vec3]
    an array of shape (N, 3), (N, M, 3), ...  The type also holds nested
    lists whose rows differ in length, which are no numpy arrays: the
    statements about arrays of two or more batch axes ask for rows of one
    length ([shape_N_M]). *)
Fixpoint ndarray (A : Type) (n : nat) : Type :=
  match n with
  | O => A
  | S m => list (ndarray A m)
  end.

Fixpoint nd_map {A B : Type} (f : A -> B) (n : nat)
  : ndarray A n -> ndarray B n :=
  match n with
  | O => f
  | S m => List.map (nd_map f m)
  end.

(** Elementwise binary operation on two arrays of one shape. *)
Fixpoint nd_map2 {A B C : Type} (f : A -> B -> C) (n : nat)
  : ndarray A n -> ndarray B n -> ndarray C n :=
  match n with
  | O => f
  | S m => fun a b =>
      List.map (fun p => nd_map2 f m (fst p) (snd p)) (combine a b)
  end.

(** [sum(a, len(shape(a)) - 1)] on an array with at least one axis. *)
Fixpoint nd_sum_last (n : nat) : ndarray R (S n) -> ndarray R n :=
  match n with
  | O => fun l => fold_right Rplus 0 l
  | S m => List.map (nd_sum_last m)
  end.

Definition vmul (a b : vec3) : vec3 :=
  let '(a0, a1, a2) := a in
  let '(b0, b1, b2) := b in
  (a0 * b0, a1 * b1, a2 * b2).

Definition vsum (a : vec3) : R := let '(a0, a1, a2) := a in a0 + a1 + a2.

(** [sum(g*xs, axis)] with [axis] the last one. *)
Definition sum_last_axis (g : vec3) (n : nat) (xs : ndarray vec3 n)
  : ndarray R n :=
  nd_map vsum n (nd_map (vmul g) n xs).


(* ================================================================== *)
(** * Scalar operations that can warn or raise *)

(** numpy's [log]: a non-positive argument gives -inf or nan and a
    [RuntimeWarning] ("divide by zero" / "invalid value").  [log_normalize]
    runs its whole body, the call of [normalize] included, under
    [warnings.simplefilter('error')], which raises the warning: that is the
    reading modelled here.  Called outside that filter numpy only prints the
    warning and carries on with nan or -inf, values [R] does not have (the
    loop of a direct [normalize()] then never ends, every comparison with
    nan being false); for such a call the model describes positive
    arguments only. *)
Definition np_log (x : R) : outcome R :=
  if Rlt_dec 0 x then Ok (ln x) else Raise RuntimeWarning.

(** numpy's scalar division: a zero divisor warns in the same way, and
    is read in the same way. *)
Definition np_div (x y : R) : outcome R :=
  if Req_dec_T y 0 then Raise RuntimeWarning else Ok (x / y).

Definition is_integer (y : R) : bool := Reqb (IZR (Int_part y)) y.

(** Python's [x ** y] on two floats. *)
Definition py_pow (x y : R) : outcome R :=
  if Req_dec_T y 0 then Ok 1
  else if Rlt_dec 0 x then Ok (Rpower x y)
  else if Req_dec_T x 0 then
    (if Rlt_dec y 0 then Raise ZeroDivisionError else Ok 0)
  else if is_integer y then Ok (powerRZ x (Int_part y))
  else Raise ValueError.

(** The builtin [max(a, b)]: the first of the largest. *)
Definition py_max (a b : R) : R := if Rlt_dec a b then b else a.

(* ================================================================== *)
(** * The normalizing constant *)

(** The memo table [cache=dict()], shared by every call: keys [(k, b)],
    looked up by equality; an assignment shadows an older entry.  The keys
    are pairs of reals, which have no countable encoding, so the table is an
    association list read from the front. *)
Definition cache : Type := list ((R * R) * R).

Fixpoint cache_get (c : cache) (k b : R) : option R :=
  match c with
  | [] => None
  | ((k', b'), v) :: c' =>
      if Req_dec_T k k'
      then (if Req_dec_T b b' then Some v else cache_get c' k b)
      else cache_get c' k b
  end.

Definition cache_set (c : cache) (k b v : R) : cache := ((k, b), v) :: c.

Section Normalizer.

(** [scipy.special.gamma] and [scipy.special.iv] (order, argument). *)
Variable gamma_fun : R -> R.
Variable modified_bessel_2ndkind : R -> R -> R.

Let G := gamma_fun.
Let I := modified_bessel_2ndkind.

(** One pass of the loop body up to [a *= G(j+0.5)]. *)
Definition series_term (k b : R) (j : nat) : outcome R :=
  lb <- np_log b ;;
  lk <- np_log (0.5 * k) ;;
  let a := exp (lb * 2 * INR j + lk * (- 2 * INR j - 0.5))
           * I (2 * INR j + 0.5) k in
  a <- np_div a (G (INR j + 1)) ;;
  Ok (a * G (INR j + 0.5)).

(** [while True: ...; if abs(a) < abs(result)*1E-12 and j > 5: break] *)
Fixpoint series_loop (fuel : nat) (k b : R) (j : nat) (result : R)
  : outcome (R * nat) :=
  match fuel with
  | O => OutOfFuel
  | S fuel' =>
      a <- series_term k b j ;;
      let result := result + a in
      let j := S j in
      if Rltb (Rabs a) (Rabs result * 1e-12) && (5 <? j)%nat
      then Ok (result, j)
      else series_loop fuel' k b j result
  end.

(** The body of [if not (k, b) in cache]: [result] and [j]. *)
Definition normalize_compute (fuel : nat) (k b : R) : outcome (R * nat) :=
  let j := 0%nat in
  if Req_dec_T b 0 then
    p <- py_pow (0.5 * k) (- 2 * INR j - 0.5) ;;
    let result := p * I (2 * INR j + 0.5) k in
    result <- np_div result (G (INR j + 1)) ;;
    Ok (result * G (INR j + 0.5), j)
  else series_loop fuel k b j 0.

(** [normalize(self, cache, return_num_iterations)].  On a cache hit [j]
    was never assigned, so asking for it raises. *)
Definition normalize (return_num_iterations : bool) (d : KentDistribution)
    (fuel : nat) (c : cache) : outcome (R * option nat) * cache :=
  let k := kappa d in
  let b := beta d in
  match cache_get c k b with
  | Some v =>
      if return_num_iterations then (Raise UnboundLocalError, c)
      else (Ok (v, None), c)
  | None =>
      match normalize_compute fuel k b with
      | Ok (result, j) =>
          let v := 2 * PI * result in
          (Ok (v, if return_num_iterations then Some j else None),
           cache_set c k b v)
      | Raise e => (Raise e, c)
      | OutOfFuel => (OutOfFuel, c)
      end
  end.

(** The [except] clause of [log_normalize]. *)
Definition caught (e : exn) : bool :=
  match e with
  | OverflowError | RuntimeWarning => true
  | _ => false
  end.

Definition asymptotic_log_normalize (k b : R) : outcome R :=
  l1 <- np_log (2 * PI) ;;
  l2 <- np_log ((k - b) * (k + b)) ;;
  Ok (l1 + k - l2 / 2).

(** [log_normalize]: the whole body runs with warnings turned into
    errors, the handler included.  The value of [normalize] is a real number
    here; where a library function overflows to inf without raising (scipy's
    [iv] at a large kappa), the program takes the logarithm of inf and the
    handler is not entered: the model has no such value and makes no
    statement about that case. *)
Definition log_normalize (d : KentDistribution) (fuel : nat) (c : cache)
  : outcome R * cache :=
  let '(r, c1) := normalize false d fuel c in
  match (vj <- r ;; np_log (fst vj)) with
  | Ok lnormalize => (Ok lnormalize, c1)
  | Raise e =>
      if caught e
      then (asymptotic_log_normalize (kappa d) (beta d), c1)
      else (Raise e, c1)
  | OutOfFuel => (OutOfFuel, c1)
  end.

(* ---------------------------------------------------------------- *)
(** ** Density *)

Definition log_pdf (d : KentDistribution) (n : nat) (xs : ndarray vec3 n)
    (normalize : bool) (fuel : nat) (c : cache)
  : outcome (ndarray R n) * cache :=
  let g1x := sum_last_axis (gamma1 d) n xs in
  let g2x := sum_last_axis (gamma2 d) n xs in
  let g3x := sum_last_axis (gamma3 d) n xs in
  let k := kappa d in
  let b := beta d in
  let f :=
    nd_map2 Rplus n
      (nd_map (Rmult k) n g1x)
      (nd_map (Rmult b) n
         (nd_map2 Rminus n
            (nd_map (fun v => v ^ 2) n g2x)
            (nd_map (fun v => v ^ 2) n g3x))) in
  if normalize then
    let '(r, c1) := log_normalize d fuel c in
    (ln_ <- r ;; Ok (nd_map (fun v => v - ln_) n f), c1)
  else (Ok f, c).

Definition pdf (d : KentDistribution) (n : nat) (xs : ndarray vec3 n)
    (normalize : bool) (fuel : nat) (c : cache)
  : outcome (ndarray R n) * cache :=
  let '(r, c1) := log_pdf d n xs normalize fuel c in
  (v <- r ;; Ok (nd_map exp n v), c1).

Definition log_likelihood (d : KentDistribution) (n : nat)
    (xs : ndarray vec3 (S n)) (fuel : nat) (c : cache)
  : outcome (ndarray R n) * cache :=
  let '(r, c1) := log_pdf d (S n) xs true fuel c in
  (retval <- r ;; Ok (nd_sum_last n retval), c1).

Definition log_pdf_max (d : KentDistribution) (normalize : bool)
    (fuel : nat) (c : cache) : outcome R * cache :=
  let x := if Req_dec_T (beta d) 0 then 1
           else kappa d * 1 / (2 * beta d) in
  let x := if Rlt_dec 1 x then 1 else x in
  let fmax := kappa d * x + beta d * (1 - x ^ 2) in
  if normalize then
    let '(r, c1) := log_normalize d fuel c in
    (ln_ <- r ;; Ok (fmax - ln_), c1)
  else (Ok fmax, c).

Definition pdf_max (d : KentDistribution) (normalize : bool)
    (fuel : nat) (c : cache) : outcome R * cache :=
  let '(r, c1) := log_pdf_max d normalize fuel c in
  (v <- r ;; Ok (exp v), c1).

(** The point [x] of [max], before it is turned into angles. *)
Definition max_point (d : KentDistribution) : vec3 :=
  let x1 := if Req_dec_T (beta d) 0 then 1
            else kappa d / (2 * beta d) in
  let x1 := if Rlt_dec 1 x1 then 1 else x1 in
  let x2 := sqrt (1 - x1 ^ 2) in
  let x3 := 0 in
  dot (Gamma d) (x1, x2, x3).


End Normalizer.

(* ================================================================== *)
(** * Moment estimation *)

(** A (2,2) array, by rows. *)
Definition mat2 : Type := ((R * R) * (R * R))%type.

Definition vadd (a b : vec3) : vec3 :=
  let '(a0, a1, a2) := a in
  let '(b0, b1, b2) := b in
  (a0 + b0, a1 + b1, a2 + b2).

Definition madd (A B : mat3) : mat3 :=
  let '(r0, r1, r2) := A in
  let '(s0, s1, s2) := B in
  (vadd r0 s0, vadd r1 s1, vadd r2 s2).

Definition mdiv (A : mat3) (c : R) : mat3 :=
  let '(r0, r1, r2) := A in (vdiv r0 c, vdiv r1 c, vdiv r2 c).

(** [x.reshape((3, 1)) * x.reshape((1, 3))] *)
Definition outer (a b : vec3) : mat3 :=
  let '(a0, a1, a2) := a in (vscale a0 b, vscale a1 b, vscale a2 b).

Definition vzero : vec3 := (0, 0, 0).
Definition mzero : mat3 := (vzero, vzero, vzero).

(** [average(xs, 0)] over the first axis. *)
Definition average_vec (xs : list vec3) : vec3 :=
  vdiv (fold_right vadd vzero xs) (INR (length xs)).

Definition average_mat (ms : list mat3) : mat3 :=
  mdiv (fold_right madd mzero ms) (INR (length ms)).

(** [B[1:,1:]] *)
Definition lower_block (B : mat3) : mat2 :=
  let '(_, (_, b11, b12), (_, b21, b22)) := B in ((b11, b12), (b21, b22)).

(** [V[:,::-1]] *)
Definition reverse_columns (V : mat2) : mat2 :=
  let '((a, b), (c, d)) := V in ((b, a), (d, c)).

(** [K = diag([1,1,1]); K[1:,1:] = V] *)
Definition embed_block (V : mat2) : mat3 :=
  let '((a, b), (c, d)) := V in ((1, 0, 0), (0, a, b), (0, c, d)).

Section Estimation.

(** [scipy.linalg.eig] followed by [real]: the two eigenvalues and the
    matrix whose columns are the eigenvectors. *)
Variable eig : mat2 -> (R * R) * mat2.

(** [kent_me].  Two places where the reals part from binary64: a mean of
    length 0 makes [xbar/norm(xbar)] nan in the program, on which [eig]
    raises, while here [/ 0 = 0]; and on a sample so concentrated that r1
    rounds to 1 the difference 2 - 2 r1 - r2, positive over the reals, is
    negative in binary64 ([Float64.kent_me]).  The properties of [kent_me]
    are stated for a mean length between 0.001 and 1 - 1E-5. *)
Definition kent_me (xs : list vec3) : outcome KentDistribution :=
  let xbar := average_vec xs in
  let S := average_mat (map (fun x => outer x x) xs) in
  let gamma1 := vdiv xbar (norm xbar) in
  let '(theta, phi) := gamma1_to_spherical_coordinates gamma1 in
  let H := create_matrix_H theta phi in
  let Ht := create_matrix_Ht theta phi in
  let B := MMul Ht (MMul S H) in
  let '(eigvals, eigvects) := eig (lower_block B) in
  let '(eigvals, eigvects) :=
    if Rlt_dec (fst eigvals) (snd eigvals)
    then ((snd eigvals, fst eigvals), reverse_columns eigvects)
    else (eigvals, eigvects) in
  let K := embed_block eigvects in
  let G := MMul H K in
  let Gt := transpose G in
  let T := MMul Gt (MMul S G) in
  let r1 := norm xbar in
  let '(_, (_, t22, _), (_, _, t33)) := T in
  let r2 := t22 - t33 in
  let min_kappa := minimum_value_for_kappa in
  let kappa := py_max min_kappa
                 (1 / (2 - 2 * r1 - r2) + 1 / (2 - 2 * r1 + r2)) in
  let beta := 0.5 * (1 / (2 - 2 * r1 - r2) - 1 / (2 - 2 * r1 + r2)) in
  kent4 G kappa beta.

End Estimation.

(* ================================================================== *)
(** * Maximum-likelihood refinement *)

(** The optimiser variable [x]: an array of five numbers. *)
Definition params : Type := (R * R * R * R * R)%type.

(** An entry of [cons]: ["type"] and ["fun"]. *)
Inductive constraint_type : Type := ineq | eq_.

Record constraint : Type := mkConstraint {
  ctype : constraint_type;
  cfun : params -> R
}.

(** scipy's reading of a constraint: an inequality means [fun(x) >= 0]. *)
Definition satisfies (x : params) (c : constraint) : Prop :=
  match ctype c with
  | ineq => 0 <= cfun c x
  | eq_ => cfun c x = 0
  end.

Definition feasible (cs : list constraint) (x : params) : Prop :=
  Forall (satisfies x) cs.

Record slsqp_options : Type := mkOptions {
  disp : bool;
  eps : R;
  maxiter : nat;
  ftol : R
}.

Record OptimizeResult : Type := mkResult {
  res_x : params;
  res_success : bool
}.

Record minimize_call : Type := mkCall {
  call_fun : params -> cache -> outcome R * cache;
  call_x0 : params;
  call_constraints : list constraint;
  call_options : slsqp_options
}.

Section MLE.

Variable gamma_fun : R -> R.
Variable modified_bessel_2ndkind : R -> R -> R.
Variable eig : mat2 -> (R * R) * mat2.

(** [scipy.optimize.minimize(..., method="SLSQP")]; it evaluates the
    objective, which reads and fills the memo table. *)
Variable minimize : minimize_call -> cache -> OptimizeResult * cache.

Definition generate_k (x : params) : outcome KentDistribution :=
  let '(fudge_theta, fudge_phi, fudge_psi, fudge_kappa, fudge_beta) := x in
  kent fudge_theta fudge_phi fudge_psi
       (minimum_value_for_kappa + Rabs fudge_kappa) (Rabs fudge_beta).

Definition minus_log_likelihood (xs : list vec3) (fuel : nat)
    (x : params) (c : cache) : outcome R * cache :=
  match generate_k x with
  | Ok k =>
      let '(r, c1) :=
        log_likelihood gamma_fun modified_bessel_2ndkind k 0 xs fuel c in
      (l <- r ;; Ok (- l / INR (length xs)), c1)
  | Raise e => (Raise e, c)
  | OutOfFuel => (OutOfFuel, c)
  end.

(** [cons]: [x[-2]] and [x[-1]] are the last two optimiser variables. *)
Definition cons : list constraint :=
  [ mkConstraint ineq
      (fun x => let '(_, _, _, x_2, x_1) := x in Rabs x_2 - 2 * Rabs x_1);
    mkConstraint ineq (fun x => let '(_, _, _, x_2, _) := x in x_2);
    mkConstraint ineq (fun x => let '(_, _, _, _, x_1) := x in x_1) ].

(** The arguments [kent_mle] hands to [minimize]. *)
Definition mle_call (xs : list vec3) (fuel : nat) (k_me : KentDistribution)
  : minimize_call :=
  let x_start :=
    (theta k_me, phi k_me, psi k_me,
     kappa k_me - minimum_value_for_kappa, beta k_me) in
  mkCall (minus_log_likelihood xs fuel) x_start cons
         (mkOptions false 1e-08 100 1e-08).

(** [kent_mle] with its defaults; printing, the trace of iterates and
    the non-convergence warning do not change the returned object. *)
Definition kent_mle (xs : list vec3) (fuel : nat) (c : cache)
  : outcome KentDistribution * cache :=
  match kent_me eig xs with
  | Ok k_me =>
      let '(all_values, c1) := minimize (mle_call xs fuel k_me) c in
      (generate_k (res_x all_values), c1)
  | Raise e => (Raise e, c)
  | OutOfFuel => (OutOfFuel, c)
  end.

End MLE.

(* ================================================================== *)
(** * The program in binary64 *)

(** The constructors and the moment estimator once more, on primitive
    binary64 floats with the operations of IEEE 754 (round to nearest
    even), to replay the program at inputs where rounding decides the
    outcome.  The names are those of the program; the functions numpy takes
    from the C library and from LAPACK are parameters. *)
Module Float64.

Import PrimFloat.

Definition fvec3 : Type := (float * float * float)%type.

Definition f0 : float := 0%float.
Definition f1 : float := 1%float.

(** 2^-600, about 2.4E-181: its square is below the smallest subnormal. *)
Definition tiny : float := 0x1p-600%float.

(** [norm(x) = sqrt(sum(x*x))] *)
Definition fnorm (x : fvec3) : float :=
  let '(a, b, c) := x in sqrt (a * a + b * b + c * c)%float.

Definition fvdiv (x : fvec3) (c : float) : fvec3 :=
  let '(x0, x1, x2) := x in ((x0 / c)%float, (x1 / c)%float, (x2 / c)%float).

(** [kappa = norm(A); beta = norm(B); gamma1 = A/kappa] *)
Definition kent3_head (A B : fvec3) : float * float * fvec3 :=
  let kappa := fnorm A in
  let beta := fnorm B in
  (kappa, beta, fvdiv A kappa).

Definition all_nan (x : fvec3) : bool :=
  let '(x0, x1, x2) := x in is_nan x0 && is_nan x1 && is_nan x2.

(* ---------------------------------------------------------------- *)
(** ** Arrays *)

Open Scope float_scope.

Definition fmat3 : Type := (fvec3 * fvec3 * fvec3)%type.
Definition fmat2 : Type := ((float * float) * (float * float))%type.

(** [x * c] on an array. *)
Definition fvscale (x : fvec3) (c : float) : fvec3 :=
  let '(x0, x1, x2) := x in (x0 * c, x1 * c, x2 * c).

Definition fvadd (a b : fvec3) : fvec3 :=
  let '(a0, a1, a2) := a in
  let '(b0, b1, b2) := b in
  (a0 + b0, a1 + b1, a2 + b2).

(** [inner(a, b)]: the three products are added from the left.  (BLAS may
    add them in another order; at the inputs replayed below every such sum
    has at most one term that is not zero, or is exact.) *)
Definition finner (a b : fvec3) : float :=
  let '(a0, a1, a2) := a in
  let '(b0, b1, b2) := b in
  a0 * b0 + a1 * b1 + a2 * b2.

Definition fcross (a b : fvec3) : fvec3 :=
  let '(a0, a1, a2) := a in
  let '(b0, b1, b2) := b in
  (a1 * b2 - a2 * b1, a2 * b0 - a0 * b2, a0 * b1 - a1 * b0).

Definition ftranspose (A : fmat3) : fmat3 :=
  let '((a00, a01, a02), (a10, a11, a12), (a20, a21, a22)) := A in
  ((a00, a10, a20), (a01, a11, a21), (a02, a12, a22)).

Definition finner2 (A B : fmat3) : fmat3 :=
  let '(r0, r1, r2) := A in
  let '(s0, s1, s2) := B in
  ((finner r0 s0, finner r0 s1, finner r0 s2),
   (finner r1 s0, finner r1 s1, finner r1 s2),
   (finner r2 s0, finner r2 s1, finner r2 s2)).

(** [MMul(A, B) = inner(A, transpose(B))] *)
Definition MMul (A B : fmat3) : fmat3 := finner2 A (ftranspose B).

(** [MMul(A, reshape(v, (3, 1)))] *)
Definition MMul_col (A : fmat3) (v : fvec3) : fvec3 :=
  let '(r0, r1, r2) := A in (finner r0 v, finner r1 v, finner r2 v).

(** [(A[:,0], A[:,1], A[:,2])] *)
Definition fcolumns (A : fmat3) : fvec3 * fvec3 * fvec3 := ftranspose A.

Definition fmadd (A B : fmat3) : fmat3 :=
  let '(r0, r1, r2) := A in
  let '(s0, s1, s2) := B in
  (fvadd r0 s0, fvadd r1 s1, fvadd r2 s2).

Definition fmdiv (A : fmat3) (c : float) : fmat3 :=
  let '(r0, r1, r2) := A in (fvdiv r0 c, fvdiv r1 c, fvdiv r2 c).

(** [x.reshape((3, 1)) * x.reshape((1, 3))] *)
Definition fouter (a b : fvec3) : fmat3 :=
  let '(a0, a1, a2) := a in (fvscale b a0, fvscale b a1, fvscale b a2).

(** The number of rows, as a float. *)
Definition flen {A : Type} (xs : list A) : float :=
  fold_left (fun c _ => c + 1) xs 0.

Definition fnan3 : fvec3 := (nan, nan, nan).

(** [average(xs, 0)]: the rows are added from the first on and the sum is
    divided by their number; of no rows, nan. *)
Definition average_vec (xs : list fvec3) : fvec3 :=
  match xs with
  | [] => fnan3
  | x :: rest => fvdiv (fold_left fvadd rest x) (flen xs)
  end.

Definition average_mat (ms : list fmat3) : fmat3 :=
  match ms with
  | [] => (fnan3, fnan3, fnan3)
  | x :: rest => fmdiv (fold_left fmadd rest x) (flen ms)
  end.

(** [B[1:,1:]], [V[:,::-1]], and [K = diag([1,1,1]); K[1:,1:] = V] *)
Definition lower_block (B : fmat3) : fmat2 :=
  let '(_, (_, b11, b12), (_, b21, b22)) := B in ((b11, b12), (b21, b22)).

Definition reverse_columns (V : fmat2) : fmat2 :=
  let '((a, b), (c, d)) := V in ((b, a), (d, c)).

Definition embed_block (V : fmat2) : fmat3 :=
  let '((a, b), (c, d)) := V in ((1, 0, 0), (0, a, b), (0, c, d)).

(** [all(abs(u - v) < tol)] *)
Definition vec_close (tol : float) (u v : fvec3) : bool :=
  let '(u0, u1, u2) := u in
  let '(v0, v1, v2) := v in
  (abs (u0 - v0) <? tol) && (abs (u1 - v1) <? tol) && (abs (u2 - v2) <? tol).

(** numpy's [argmax] of three numbers: the first index of the maximum, a
    nan counting as the maximum. *)
Definition fargmax3 {A : Type} (n1 n2 n3 : float) (a1 a2 a3 : A) : A :=
  if is_nan n1 then a1
  else
    let '(mp, a) := if n2 <=? n1 then (n1, a1) else (n2, a2) in
    if is_nan mp then a
    else if n3 <=? mp then a else a3.

(* ---------------------------------------------------------------- *)
(** ** The object and the library *)

(** The attributes of the object that the replays read. *)
Record KentDistribution : Type := mkKent {
  gamma1 : fvec3;
  gamma2 : fvec3;
  gamma3 : fvec3;
  kappa : float;
  beta : float;
  theta : float;
  phi : float;
  psi : float
}.

(** The binary64 numbers nearest to 1E-6, 1E-9, 1E-10 and 1E-12, as Python
    reads these literals. *)
Definition minimum_value_for_kappa : float := 0x1.0c6f7a0b5ed8dp-20.
Definition one_billionth : float := 0x1.12e0be826d695p-30.
Definition assert_tolerance : float := 0x1.b7cdfd9d7bdbbp-34.

(** What numpy takes from the C library. *)
Record libm : Type := mkLibm {
  cos : float -> float;
  sin : float -> float;
  arccos : float -> float;
  arctan2 : float -> float -> float
}.

Section Replay.

Variable m : libm.

(** [scipy.linalg.eig] followed by [real]. *)
Variable eig : fmat2 -> (float * float) * fmat2.

Definition create_matrix_H (theta phi : float) : fmat3 :=
  ((cos m theta,             - sin m theta,           0),
   (sin m theta * cos m phi, cos m theta * cos m phi, - sin m phi),
   (sin m theta * sin m phi, cos m theta * sin m phi, cos m phi)).

Definition create_matrix_Ht (theta phi : float) : fmat3 :=
  ftranspose (create_matrix_H theta phi).

Definition create_matrix_K (psi : float) : fmat3 :=
  ((1, 0,         0),
   (0, cos m psi, - sin m psi),
   (0, sin m psi, cos m psi)).

Definition create_matrix_Gamma (theta phi psi : float) : fmat3 :=
  MMul (create_matrix_H theta phi) (create_matrix_K psi).

Definition spherical_coordinates_to_gammas (theta phi psi : float)
  : fvec3 * fvec3 * fvec3 :=
  fcolumns (create_matrix_Gamma theta phi psi).

Definition gamma1_to_spherical_coordinates (g1 : fvec3) : float * float :=
  let '(g10, g11, g12) := g1 in
  (arccos m g10, arctan2 m g12 g11).

Definition gammas_to_spherical_coordinates (g1 g2 : fvec3)
  : float * float * float :=
  let '(theta, phi) := gamma1_to_spherical_coordinates g1 in
  let Ht := create_matrix_Ht theta phi in
  let '(_, u1, u2) := MMul_col Ht g2 in
  (theta, phi, arctan2 m u2 u1).

Definition init (g1 g2 g3 : fvec3) (k b : float) : KentDistribution :=
  let '(th, ph, ps) := gammas_to_spherical_coordinates g1 g2 in
  mkKent g1 g2 g3 k b th ph ps.

Definition kent (theta phi psi k b : float) : KentDistribution :=
  let '(g1, g2, g3) := spherical_coordinates_to_gammas theta phi psi in
  init g1 g2 g3 k b.

(** [None]: one of the three assertions failed. *)
Definition kent2 (g1 g2 g3 : fvec3) (k b : float) : option KentDistribution :=
  if (abs (finner g1 g2) <? assert_tolerance)
     && (abs (finner g2 g3) <? assert_tolerance)
     && (abs (finner g3 g1) <? assert_tolerance)
  then Some (init g1 g2 g3 k b)
  else None.

Definition generate_arbitrary_orthogonal_unit_vector (x : fvec3) : fvec3 :=
  let v1 := fcross x (1, 0, 0) in
  let v2 := fcross x (0, 1, 0) in
  let v3 := fcross x (0, 0, 1) in
  let v := fargmax3 (fnorm v1) (fnorm v2) (fnorm v3) v1 v2 v3 in
  fvdiv v (fnorm v).

Definition kent3 (A B : fvec3) : KentDistribution :=
  let k := fnorm A in
  let b := fnorm B in
  let g1 := fvdiv A k in
  let g2 := if b =? 0
            then generate_arbitrary_orthogonal_unit_vector g1
            else fvdiv B b in
  let '(th, ph, ps) := gammas_to_spherical_coordinates g1 g2 in
  let '(g1', g2', g3') := spherical_coordinates_to_gammas th ph ps in
  init g1' g2' g3' k b.

Definition kent4 (G : fmat3) (k b : float) : option KentDistribution :=
  let '(g1, g2, g3) := fcolumns G in kent2 g1 g2 g3 k b.

(** [kent_me]; the builtin [max(a, b)] is [b] when [b > a] and [a]
    otherwise. *)
Definition kent_me (xs : list fvec3) : option KentDistribution :=
  let xbar := average_vec xs in
  let S := average_mat (map (fun x => fouter x x) xs) in
  let gamma1 := fvdiv xbar (fnorm xbar) in
  let '(theta, phi) := gamma1_to_spherical_coordinates gamma1 in
  let H := create_matrix_H theta phi in
  let Ht := create_matrix_Ht theta phi in
  let B := MMul Ht (MMul S H) in
  let '(eigvals, eigvects) := eig (lower_block B) in
  let '(eigvals, eigvects) :=
    if fst eigvals <? snd eigvals
    then ((snd eigvals, fst eigvals), reverse_columns eigvects)
    else (eigvals, eigvects) in
  let K := embed_block eigvects in
  let G := MMul H K in
  let Gt := ftranspose G in
  let T := MMul Gt (MMul S G) in
  let r1 := fnorm xbar in
  let '(_, (_, t22, _), (_, _, t33)) := T in
  let r2 := t22 - t33 in
  let min_kappa := minimum_value_for_kappa in
  let estimate := 1 / (2 - 2 * r1 - r2) + 1 / (2 - 2 * r1 + r2) in
  let kappa := if min_kappa <? estimate then estimate else min_kappa in
  let beta := 0.5 * (1 / (2 - 2 * r1 - r2) - 1 / (2 - 2 * r1 + r2)) in
  kent4 G kappa beta.

End Replay.

(* ---------------------------------------------------------------- *)
(** ** The library at the arguments of the replays *)

Definition positive_zero (x : float) : bool := (x =? 0) && (0 <? 1 / x).

(** The C library where its result is fixed by the format or by the
    standard.  For |x| < 2^-27 the values 1 - x^2/2 of the cosine and
    x - x^3/6 of the sine are within a quarter of an ulp of 1 and of x, so
    the correctly rounded results are 1 and x (glibc returns them without
    computing).  arccos(1) = 0, and arctan2 of a zero [y] and an [x] that
    is positive or +0 is that zero (C99, Annex F.9.1).  At other arguments
    the replays have no value: nan. *)
Definition small_angles : libm :=
  mkLibm
    (fun x => if abs x <? 0x1p-27 then 1 else nan)
    (fun x => if abs x <? 0x1p-27 then x else nan)
    (fun x => if x =? 1 then 0 else nan)
    (fun y x => if (y =? 0) && ((0 <? x) || positive_zero x) then y else nan).

(** LAPACK on a diagonal matrix: the eigenvalues are the diagonal entries
    in their order, the eigenvectors those of the identity.  At other
    matrices the replays have no value: nan. *)
Definition eig_of_diagonal (M : fmat2) : (float * float) * fmat2 :=
  let '((a, b), (c, d)) := M in
  if (b =? 0) && (c =? 0) then ((a, d), ((1, 0), (0, 1)))
  else ((nan, nan), ((nan, nan), (nan, nan))).

End Float64.

(* ================================================================== *)
(** * The remaining matrix builders *)

Definition create_matrix_Kt (psi : R) : mat3 :=
  transpose (create_matrix_K psi).

Definition create_matrix_Gammat (theta phi psi : R) : mat3 :=
  transpose (create_matrix_Gamma theta phi psi).

(* ================================================================== *)
(** * Random samples *)

(** Python's slice bound for an integer [i] of either sign: [l[i:]] drops
    and [l[:i]] keeps this many leading rows (a bound past the end is
    clipped by [skipn] and [firstn]). *)
Definition slice_index {A : Type} (l : list A) (i : Z) : nat :=
  if (i <? 0)%Z then Z.to_nat (Z.of_nat (length l) + i) else Z.to_nat i.

(** [l[i:]] and [l[:i]] *)
Definition slice_from {A : Type} (l : list A) (i : Z) : list A :=
  skipn (slice_index l i) l.

Definition slice_to {A : Type} (l : list A) (i : Z) : list A :=
  firstn (slice_index l i) l.

(** The assignments [self._cached_rvs = ...] and
    [self._level_log_pdf = ...]. *)
Definition set_cached_rvs (d : KentDistribution) (rvs : list vec3)
  : KentDistribution :=
  mkKent (gamma1 d) (gamma2 d) (gamma3 d) (kappa d) (beta d)
         (theta d) (phi d) (psi d) rvs (level_log_pdf d).

Definition set_level_log_pdf (d : KentDistribution) (l : list R)
  : KentDistribution :=
  mkKent (gamma1 d) (gamma2 d) (gamma3 d) (kappa d) (beta d)
         (theta d) (phi d) (psi d) (cached_rvs d) l.

(** What [rvs] returns: one row of shape (3,) for [n_samples=None], an
    array of shape (N, 3) for an integer. *)
Definition rvs_return (n_samples : option Z) : Type :=
  match n_samples with
  | None => vec3
  | Some _ => list vec3
  end.

Section Sampling.

Variable gamma_fun : R -> R.
Variable modified_bessel_2ndkind : R -> R -> R.

(** The random source.  [gauss(0, 1).rvs((n, 3))] and
    [uniform(0, 1).rvs(n)] read and advance the state of numpy's global
    generator; each returns [n] rows. *)
Variable rng : Type.
Variable gauss_rvs : rng -> nat -> list vec3 * rng.
Variable uniform_rvs : rng -> nat -> list R * rng.

(** [_rvs_helper]: one batch of the rejection sampler.  With
    [normalize=False] neither [log_pdf] nor [log_pdf_max] reads the memo
    table or runs the series, so they are called on an empty table with no
    fuel.  The boolean mask pairs the rows with the uniform draws. *)
Definition _rvs_helper (d : KentDistribution) (s : rng)
  : outcome (list vec3) * rng :=
  let num_samples := Z.to_nat 10000 in
  let '(xs, s) := gauss_rvs s num_samples in
  let xs := map (fun x => vdiv x (norm x)) xs in
  match fst (log_pdf gamma_fun modified_bessel_2ndkind d 1 xs false 0 []) with
  | Ok lpvalues =>
      match fst (log_pdf_max gamma_fun modified_bessel_2ndkind d false 0 []) with
      | Ok lfmax =>
          let shifted := map (fun v => v - lfmax) lpvalues in
          let '(us, s) := uniform_rvs s num_samples in
          let mask :=
            map (fun p => Rltb (fst p) (exp (snd p))) (combine us shifted) in
          (Ok (map fst (filter snd (combine xs mask))), s)
      | Raise e => (Raise e, s)
      | OutOfFuel => (OutOfFuel, s)
      end
  | Raise e => (Raise e, s)
  | OutOfFuel => (OutOfFuel, s)
  end.

(** [while len(rvs) < num_samples: rvs = concatenate([rvs, new_rvs])] *)
Fixpoint rvs_loop (fuel : nat) (d : KentDistribution) (num_samples : Z)
    (rvs : list vec3) (s : rng) : outcome (list vec3) * rng :=
  if (Z.of_nat (length rvs) <? num_samples)%Z then
    match fuel with
    | O => (OutOfFuel, s)
    | S fuel' =>
        let '(r, s1) := _rvs_helper d s in
        match r with
        | Ok new_rvs => rvs_loop fuel' d num_samples (rvs ++ new_rvs) s1
        | Raise e => (Raise e, s1)
        | OutOfFuel => (OutOfFuel, s1)
        end
    end
  else (Ok rvs, s).

(** [rvs(n_samples)]: the rows returned and the object with its cache of
    unused rows replaced.  For [n_samples=None] the loop leaves at least
    one row, so [rvs[0]] exists. *)
Definition rvs (n_samples : option Z) (d : KentDistribution) (fuel : nat)
    (s : rng) : outcome (rvs_return n_samples * KentDistribution) * rng :=
  let num_samples := match n_samples with None => 1%Z | Some n => n end in
  let '(r, s1) := rvs_loop fuel d num_samples (cached_rvs d) s in
  match r with
  | Ok rvs =>
      (match n_samples as o
             return outcome (rvs_return o * KentDistribution) with
       | None => Ok (hd vzero rvs, set_cached_rvs d (slice_from rvs 1))
       | Some n => Ok (slice_to rvs n, set_cached_rvs d (slice_from rvs n))
       end, s1)
  | Raise e => (Raise e, s1)
  | OutOfFuel => (OutOfFuel, s1)
  end.

(* ---------------------------------------------------------------- *)
(** ** Levels of the density *)

Definition Rleb (x y : R) : bool := if Rle_dec x y then true else false.

(** [int(x)] of a float: truncation towards zero. *)
Definition py_int (x : R) : Z :=
  if Rle_dec 0 x then Int_part x else (- Int_part (- x))%Z.

(** [a[i]] on a 1-d array: a negative index counts from the end, an index
    out of range raises [IndexError] (here [None]). *)
Definition np_getitem (a : list R) (i : Z) : option R :=
  let n := Z.of_nat (length a) in
  if ((0 <=? i) && (i <? n))%Z then nth_error a (Z.to_nat i)
  else if ((- n <=? i) && (i <? 0))%Z then nth_error a (Z.to_nat (n + i))
  else None.

(** [a.sort()]: ascending. *)
Fixpoint insert_sorted (x : R) (l : list R) : list R :=
  match l with
  | [] => [x]
  | y :: l' => if Rle_dec x y then x :: l else y :: insert_sorted x l'
  end.

Definition np_sort (l : list R) : list R := fold_right insert_sorted [] l.

(** How a call of [level] ends: with a number, with [nan] after the message
    "percentile out of bounds", with an [IndexError] from [log_pdf[idx]] or
    [log_pdf[idx+1]], with an error of the sampler or of the normalizer, or
    not within the fuel. *)
Inductive level_outcome : Type :=
| LevelValue (v : R)
| LevelNan
| LevelIndexError
| LevelRaise (e : exn)
| LevelOutOfFuel.

(** [level(percentile, n_samples)]: the outcome, the object as the call
    leaves it, the memo table and the random state. *)
Definition level (percentile : R) (n_samples : Z) (d : KentDistribution)
    (fuel : nat) (c : cache) (s : rng)
  : level_outcome * KentDistribution * cache * rng :=
  if Rleb 0 percentile && Rltb percentile 100 then
    let curr_len := Z.of_nat (length (level_log_pdf d)) in
    let refreshed : outcome unit * KentDistribution * cache * rng :=
      if (curr_len <? n_samples)%Z then
        let '(r, s1) := rvs (Some n_samples) d fuel s in
        match r with
        | Ok (new_rvs, d1) =>
            let '(lp, c1) :=
              log_pdf gamma_fun modified_bessel_2ndkind d1 1 new_rvs true
                      fuel c in
            match lp with
            | Ok v =>
                (Ok tt, set_level_log_pdf d1 (np_sort (map Ropp v)), c1, s1)
            | Raise e => (Raise e, d1, c1, s1)
            | OutOfFuel => (OutOfFuel, d1, c1, s1)
            end
        | Raise e => (Raise e, d, c, s1)
        | OutOfFuel => (OutOfFuel, d, c, s1)
        end
      else (Ok tt, d, c, s) in
    let '(r, d, c, s) := refreshed in
    match r with
    | Ok _ =>
        let log_pdf := level_log_pdf d in
        let loc := (INR (length log_pdf) - 1) * percentile / 100 in
        let idx := py_int loc in
        let frac := loc - IZR idx in
        match np_getitem log_pdf idx, np_getitem log_pdf (idx + 1) with
        | Some a, Some b => (LevelValue (a + frac * (b - a)), d, c, s)
        | _, _ => (LevelIndexError, d, c, s)
        end
    | Raise e => (LevelRaise e, d, c, s)
    | OutOfFuel => (LevelOutOfFuel, d, c, s)
    end
  else (LevelNan, d, c, s).

End Sampling.

(* ================================================================== *)
(** * Vocabulary of the properties *)

Definition unit_vector (x : vec3) : Prop := inner x x = 1.

Definition orthonormal2 (g1 g2 : vec3) : Prop :=
  unit_vector g1 /\ unit_vector g2 /\ inner g1 g2 = 0.

(** The frame invariant of the data model: three unit vectors, pairwise
    orthogonal. *)
Definition orthonormal_frame (d : KentDistribution) : Prop :=
  orthonormal2 (gamma1 d) (gamma2 d) /\ unit_vector (gamma3 d) /\
  inner (gamma2 d) (gamma3 d) = 0 /\ inner (gamma3 d) (gamma1 d) = 0.

(** An object that [__init__] built. *)
Definition constructed (d : KentDistribution) : Prop :=
  exists g1 g2 g3 k b, init g1 g2 g3 k b = Ok d.

(** [all(abs(u - v) < tol)] *)
Definition vec_close (tol : R) (u v : vec3) : Prop :=
  let '(u0, u1, u2) := u in
  let '(v0, v1, v2) := v in
  Rabs (u0 - v0) < tol /\ Rabs (u1 - v1) < tol /\ Rabs (u2 - v2) < tol.


Definition accepted (r : outcome KentDistribution) : Prop := exists d, r = Ok d.

Definition rejected (r : outcome KentDistribution) : Prop :=
  r = Raise AssertionError.

(** The unnormalized log-density at one point, as the specification
    writes it. *)
Definition log_density (d : KentDistribution) (x : vec3) : R :=
  kappa d * inner (gamma1 d) x
  + beta d * ((inner (gamma2 d) x) ^ 2 - (inner (gamma3 d) x) ^ 2).

Section SeriesVocabulary.

Variable G : R -> R.
Variable I : R -> R -> R.

(** The j-th term of the series, as the specification writes it. *)
Definition kent_series_term (k b : R) (j : nat) : R :=
  G (INR j + 0.5) / G (INR j + 1) * b ^ (2 * j)
  * Rpower (k / 2) (- 2 * INR j - 0.5) * I (2 * INR j + 0.5) k.

Fixpoint partial_sum (t : nat -> R) (n : nat) : R :=
  match n with
  | O => 0
  | S m => partial_sum t m + t m
  end.

(** After [n] terms: the newest one is below 1E-12 of the running sum,
    and at least six were summed. *)
Definition stops_at (t : nat -> R) (n : nat) : Prop :=
  (5 < n)%nat /\ Rabs (t (pred n)) < Rabs (partial_sum t n) * 1e-12.

Definition first_stop (t : nat -> R) (n : nat) : Prop :=
  stops_at t n /\ forall m, (m < n)%nat -> ~ stops_at t m.

(** Every entry of the memo table was stored by an earlier call. *)
Definition cache_valid (c : cache) : Prop :=
  forall k b v, cache_get c k b = Some v ->
    exists fuel result j,
      normalize_compute G I fuel k b = Ok (result, j) /\
      v = 2 * PI * result.

End SeriesVocabulary.

Definition symmetric2 (M : mat2) : Prop :=
  let '((_, m01), (m10, _)) := M in m01 = m10.

(** What the estimator needs of [eig] at a symmetric matrix: real
    eigenpairs with orthonormal eigenvectors. *)
Definition eig_contract (M : mat2) (res : (R * R) * mat2) : Prop :=
  let '((m00, m01), (m10, m11)) := M in
  let '((l0, l1), ((v00, v01), (v10, v11))) := res in
  m00 * v00 + m01 * v10 = l0 * v00 /\ m10 * v00 + m11 * v10 = l0 * v10 /\
  m00 * v01 + m01 * v11 = l1 * v01 /\ m10 * v01 + m11 * v11 = l1 * v11 /\
  v00 * v00 + v10 * v10 = 1 /\ v01 * v01 + v11 * v11 = 1 /\
  v00 * v01 + v10 * v11 = 0.

(** A solver that meets the contract on every symmetric matrix: the
    closed form of the eigenpairs of [[a, b], [b, d]]. *)
Definition eig_closed_form (M : mat2) : (R * R) * mat2 :=
  let '((a, b), (_, d)) := M in
  if Req_dec_T b 0 then ((a, d), ((1, 0), (0, 1)))
  else
    let m := (a + d) / 2 in
    let delta := sqrt (((a - d) / 2) ^ 2 + b ^ 2) in
    let l0 := m + delta in
    let l1 := m - delta in
    let n0 := sqrt (b ^ 2 + (l0 - a) ^ 2) in
    let n1 := sqrt (b ^ 2 + (l1 - a) ^ 2) in
    ((l0, l1), ((b / n0, b / n1), ((l0 - a) / n0, (l1 - a) / n1))).

(** [kent2] on the standard basis, the object of the doctests. *)
Definition standard_kent (k b : R) : KentDistribution :=
  let '(th, ph, ps) :=
    gammas_to_spherical_coordinates (1, 0, 0) (0, 1, 0) in
  mkKent (1, 0, 0) (0, 1, 0) (0, 0, 1) k b th ph ps [] [].

(** Stand-ins for the special functions, to run the normalizer on:
    Gamma replaced by 1 and a Bessel function cut off at order 10, so that
    the sixth term of the series is the first to vanish; and functions with
    the true values Gamma(1) = 1, Gamma(1/2) = sqrt(pi),
    I_(1/2)(x) = sqrt(2/(pi x)) sinh x. *)
Definition unit_gamma : R -> R := fun _ => 1.

Definition cutoff_bessel : R -> R -> R :=
  fun nu _ => if Rlt_dec nu 10 then 1 else 0.

Definition half_integer_gamma : R -> R :=
  fun x => if Req_dec_T x 1 then 1 else sqrt PI.

Definition half_order_bessel : R -> R -> R :=
  fun _ x => sqrt (2 / (PI * x)) * sinh x.

(** The constraints as the specification words them, on the parameters of
    the candidate distribution. *)
Definition spec_feasible (x : params) : Prop :=
  let '(_, _, _, fudge_kappa, fudge_beta) := x in
  let k := minimum_value_for_kappa + Rabs fudge_kappa in
  let b := Rabs fudge_beta in
  0 <= k - 2 * b /\ 0 <= k /\ 0 <= b.

Definition sum_over {A : Type} (f : A -> R) (xs : list A) : R :=
  fold_right Rplus 0 (map f xs).


(* ------------------------------------------------------------------ *)
(** ** Vocabulary of the further properties *)

(** The identity matrix. *)
Definition eye : mat3 := ((1, 0, 0), (0, 1, 0), (0, 0, 1)).

Definition vsub (a b : vec3) : vec3 :=
  let '(a0, a1, a2) := a in
  let '(b0, b1, b2) := b in
  (a0 - b0, a1 - b1, a2 - b2).

(** The part of [b] orthogonal to the unit vector [g]. *)
Definition rejection (b g : vec3) : vec3 := vsub b (vscale (inner b g) g).

(** Where the passage from an axis to its angles and back is well
    conditioned in binary64.  [s] is the sine of the polar angle theta of
    the first axis: the axis lies within [slack] of a pole, or at least 0.01
    (0.57 degrees) away from both.  In between, theta is recovered as the
    arccos of a number that rounding has moved by 1E-16 next to 1, an error
    of about 1E-16/theta. *)
Definition clear_of_the_poles (slack s : R) : Prop :=
  Rabs s <= slack \/ / 100 <= Rabs s.

(** The sine of the angle between [v] and the polar axis (1, 0, 0). *)
Definition polar_sine (v : vec3) : R :=
  let '(_, y, z) := v in sqrt (y * y + z * z) / norm v.

(** Lengths whose squares neither overflow nor underflow in binary64. *)
Definition working_range (x : R) : Prop := 1e-100 <= x <= 1e100.

(** A row that rounding has left within [e] of unit length. *)
Definition nearly_unit (e : R) (x : vec3) : Prop := Rabs (inner x x - 1) <= e.

(** A sample of two unit vectors, mirror images in the plane y = 0. *)
Definition sample_pair : list vec3 := [(3 / 5, 4 / 5, 0); (3 / 5, - (4 / 5), 0)].

(** A solver that gives up at once and hands back its start point. *)
Definition idle_solver (call : minimize_call) (c : cache)
  : OptimizeResult * cache :=
  (mkResult (call_x0 call) false, c).

(** The largest value of the unnormalized log-density on the sphere. *)
Definition mode_value (d : KentDistribution) : R :=
  let x1 := if Req_dec_T (beta d) 0 then 1
            else Rmin (kappa d / (2 * beta d)) 1 in
  kappa d * x1 + beta d * (1 - x1 ^ 2).

(** The test of the rejection sampler on a candidate row and its uniform
    draw. *)
Definition accepts (d : KentDistribution) (p : vec3 * R) : bool :=
  Rltb (snd p) (exp (log_density d (fst p) - mode_value d)).

Definition normalized (x : vec3) : vec3 := vdiv x (norm x).

Section SamplingVocabulary.

Variable G : R -> R.
Variable I : R -> R -> R.
Variable rng : Type.
Variable gauss_rvs : rng -> nat -> list vec3 * rng.
Variable uniform_rvs : rng -> nat -> list R * rng.

(** The contract of the two draws: [n] rows each, no Gaussian row at the
    origin. *)
Definition draws_n_rows : Prop :=
  (forall s n, length (fst (gauss_rvs s n)) = n) /\
  (forall s n, length (fst (uniform_rvs s n)) = n).

Definition draws_nonzero_rows : Prop :=
  forall s n, Forall (fun x => norm x <> 0) (fst (gauss_rvs s n)).

(** A batch of the sampler that keeps at least one row. *)
Definition batch_accepts (d : KentDistribution) (s : rng) : Prop :=
  exists x out s',
    _rvs_helper G I rng gauss_rvs uniform_rvs d s = (Ok (x :: out), s').

(** The candidates of the batch drawn at state [s]: the normalized
    Gaussian rows, each with its uniform draw. *)
Definition candidates (s : rng) : list (vec3 * R) :=
  let '(xs, s1) := gauss_rvs s (Z.to_nat 10000) in
  let '(us, _) := uniform_rvs s1 (Z.to_nat 10000) in
  combine (map normalized xs) us.

Definition state_after_batch (s : rng) : rng :=
  let '(_, s1) := gauss_rvs s (Z.to_nat 10000) in
  snd (uniform_rvs s1 (Z.to_nat 10000)).

(** The rows kept from the first [k] batches drawn from state [s], in the
    order in which they are drawn, and the state those batches leave. *)
Fixpoint drawn_rows (d : KentDistribution) (k : nat) (s : rng) : list vec3 :=
  match k with
  | O => []
  | S k' =>
      map fst (filter (accepts d) (candidates s))
      ++ drawn_rows d k' (state_after_batch s)
  end.

Fixpoint state_after_batches (k : nat) (s : rng) : rng :=
  match k with
  | O => s
  | S k' => state_after_batches k' (state_after_batch s)
  end.

End SamplingVocabulary.

(** A nested list holds an array of shape (N, M, 3) when each of its N
    rows has M points; numpy builds no float array from rows of different
    lengths. *)
Definition shape_N_M {A : Type} (m : nat) (xss : list (list A)) : Prop :=
  Forall (fun xs => length xs = m) xss.

(** A random source that always draws the same row: the state counts the
    draws. *)
Definition constant_gauss (x : vec3) (s : nat) (n : nat) : list vec3 * nat :=
  (repeat x n, S s).

Definition constant_uniform (u : R) (s : nat) (n : nat) : list R * nat :=
  (repeat u n, S s).

(** [level_log_pdf] in ascending order. *)
Definition ascending (l : list R) : Prop :=
  forall i j a b, (i <= j)%nat -> nth_error l i = Some a ->
                  nth_error l j = Some b -> a <= b.

(* ================================================================== *)
(** * Properties *)

(* ------------------------------------------------------------------ *)
(** ** Frames and angles *)


Lemma sqrt_sum_sq_factor (x y : R) :
  x <> 0 -> sqrt (x * x + y * y) = Rabs x * sqrt (1 + (y / x)²).
Proof.
  intro Hx.
  replace (x * x + y * y) with (x² * (1 + (y / x)²)).
  - rewrite sqrt_mult.
    + now rewrite sqrt_Rsqr_abs.
    + apply Rle_0_sqr.
    + pose proof (Rle_0_sqr (y / x)). lra.
  - unfold Rsqr. field. exact Hx.
Qed.

Lemma sqrt_1_plus_sq_pos (t : R) : 0 < sqrt (1 + t²).
Proof.
  apply sqrt_lt_R0. pose proof (Rle_0_sqr t). lra.
Qed.

(** [arctan2] returns the polar angle of (x, y). *)
Lemma arctan2_polar (x y : R) :
  sqrt (x * x + y * y) * cos (arctan2 y x) = x /\
  sqrt (x * x + y * y) * sin (arctan2 y x) = y.
Proof.
  unfold arctan2.
  destruct (Rlt_dec 0 x) as [Hpos | Hnpos].
  - rewrite sqrt_sum_sq_factor by lra.
    rewrite cos_atan, sin_atan, (Rabs_pos_eq x) by lra.
    pose proof (sqrt_1_plus_sq_pos (y / x)).
    split; field; lra.
  - destruct (Rlt_dec x 0) as [Hneg | Hnneg].
    + assert (Hc : forall a, cos (a + PI) = - cos a /\ cos (a - PI) = - cos a
                             /\ sin (a + PI) = - sin a /\ sin (a - PI) = - sin a).
      { intro a. rewrite cos_plus, cos_minus, sin_plus, sin_minus, cos_PI, sin_PI.
        repeat split; ring. }
      rewrite sqrt_sum_sq_factor by lra.
      rewrite (Rabs_left x) by lra.
      pose proof (sqrt_1_plus_sq_pos (y / x)).
      destruct (Hc (atan (y / x))) as (C1 & C2 & S1 & S2).
      destruct (Rle_dec 0 y); rewrite ?C1, ?C2, ?S1, ?S2, cos_atan, sin_atan;
        split; field; lra.
    + assert (x = 0) by lra. subst x.
      replace (0 * 0 + y * y) with (y²) by (unfold Rsqr; ring).
      rewrite sqrt_Rsqr_abs.
      destruct (Rlt_dec 0 y).
      * rewrite cos_PI2, sin_PI2, Rabs_pos_eq by lra. split; ring.
      * destruct (Rlt_dec y 0).
        -- rewrite cos_neg, sin_neg, cos_PI2, sin_PI2, Rabs_left by lra.
           split; ring.
        -- assert (y = 0) by lra. subst y. rewrite Rabs_R0. split; ring.
Qed.

Lemma arctan2_unit (x y : R) :
  x * x + y * y = 1 -> cos (arctan2 y x) = x /\ sin (arctan2 y x) = y.
Proof.
  intro H. pose proof (arctan2_polar x y) as P.
  rewrite H, sqrt_1 in P. lra.
Qed.


Lemma unit_component_bound (a b c : R) :
  a * a + b * b + c * c = 1 -> -1 <= a <= 1.
Proof. intro H. split; nra. Qed.

(** The angles read off a unit vector are its spherical coordinates. *)
Lemma gamma1_angles (a b c : R) :
  a * a + b * b + c * c = 1 ->
  let th := arccos a in
  let ph := arctan2 c b in
  cos th = a /\ sin th * cos ph = b /\ sin th * sin ph = c /\ 0 <= sin th.
Proof.
  intros Hu th ph. subst th ph. unfold arccos.
  pose proof (unit_component_bound a b c Hu) as Hb.
  rewrite cos_acos, sin_acos by exact Hb.
  replace (1 - a²) with (b * b + c * c) by (unfold Rsqr; lra).
  destruct (arctan2_polar b c) as [Hc Hs].
  repeat split; try assumption. apply sqrt_pos.
Qed.

Ltac abstract_trig :=
  repeat match goal with
  | |- context [cos ?t] => generalize dependent (cos t)
  | |- context [sin ?t] => generalize dependent (sin t)
  end; intros.

Lemma roundtrip (g1 g2 : vec3) :
  orthonormal2 g1 g2 ->
  let '(th, ph, ps) := gammas_to_spherical_coordinates g1 g2 in
  spherical_coordinates_to_gammas th ph ps = (g1, g2, cross g1 g2).
Proof.
  destruct g1 as [[a b] c], g2 as [[p q] r].
  unfold orthonormal2, unit_vector. simpl. intros (U1 & U2 & O).
  destruct (gamma1_angles a b c U1) as (Ha & Hb & Hc & _).
  set (th := arccos a) in *. set (ph := arctan2 c b) in *.
  pose proof (sin2_cos2 th) as Tth. pose proof (sin2_cos2 ph) as Tph.
  unfold Rsqr in Tth, Tph.
  match goal with
  | |- context [arctan2 ?y ?x] =>
      assert (Hu : x * x + y * y = 1);
      [ | destruct (arctan2_unit x y Hu) as [Cps Sps];
          set (u1 := x) in *; set (u2 := y) in *;
          set (ps := arctan2 u2 u1) in * ]
  end.
  { clearbody th ph. abstract_trig. nsatz. }
  unfold spherical_coordinates_to_gammas, create_matrix_Gamma, MMul, col0, col1, col2.
  simpl. rewrite Cps, Sps. subst u1 u2. clear Cps Sps Hu. clearbody th ph. clear ps.
  abstract_trig.
  repeat apply (f_equal2 pair); nsatz.
Qed.



Lemma angles_frame (th ph ps : R) :
  let '(g1, g2, g3) := spherical_coordinates_to_gammas th ph ps in
  orthonormal2 g1 g2 /\ g3 = cross g1 g2 /\
  unit_vector g3 /\ inner g2 g3 = 0 /\ inner g3 g1 = 0.
Proof.
  unfold spherical_coordinates_to_gammas, create_matrix_Gamma, MMul, col0, col1,
    col2, orthonormal2, unit_vector.
  simpl.
  pose proof (sin2_cos2 th) as Tth. pose proof (sin2_cos2 ph) as Tph.
  pose proof (sin2_cos2 ps) as Tps. unfold Rsqr in *.
  abstract_trig.
  repeat split; try (repeat apply (f_equal2 pair)); nsatz.
Qed.

Lemma norm_vscale (c : R) (g : vec3) :
  0 <= c -> unit_vector g -> norm (vscale c g) = c.
Proof.
  destruct g as [[x y] z]. unfold unit_vector, norm. simpl. intros Hc Hu.
  replace (c * x * (c * x) + c * y * (c * y) + c * z * (c * z))
    with (c * c * (x * x + y * y + z * z)) by ring.
  rewrite Hu, Rmult_1_r. now apply sqrt_square.
Qed.

Lemma vdiv_vscale (c : R) (g : vec3) : c <> 0 -> vdiv (vscale c g) c = g.
Proof.
  destruct g as [[x y] z]. intro Hc. simpl.
  repeat apply (f_equal2 pair); field; exact Hc.
Qed.

Lemma Rltb_true (x y : R) : x < y -> Rltb x y = true.
Proof. unfold Rltb. intro. destruct (Rlt_dec x y); [reflexivity | contradiction]. Qed.

Lemma Rltb_false (x y : R) : y <= x -> Rltb x y = false.
Proof. unfold Rltb. intro. destruct (Rlt_dec x y); [lra | reflexivity]. Qed.

Lemma init_Ok (g1 g2 g3 : vec3) (k b : R) :
  exists d, init g1 g2 g3 k b = Ok d /\
            gamma1 d = g1 /\ gamma2 d = g2 /\ gamma3 d = g3 /\
            kappa d = k /\ beta d = b /\
            (theta d, phi d, psi d) = gammas_to_spherical_coordinates g1 g2.
Proof.
  unfold init. destruct (gammas_to_spherical_coordinates g1 g2) as [[th ph] ps].
  eexists. split; [reflexivity | simpl; auto 10].
Qed.

Lemma kent2_orthogonal (g1 g2 g3 : vec3) (k b : R) :
  inner g1 g2 = 0 -> inner g2 g3 = 0 -> inner g3 g1 = 0 ->
  kent2 g1 g2 g3 k b = init g1 g2 g3 k b.
Proof.
  intros H1 H2 H3. unfold kent2. rewrite H1, H2, H3, Rabs_R0.
  rewrite Rltb_true by lra. reflexivity.
Qed.

Lemma col_of_columns (g1 g2 g3 : vec3) :
  col0 (of_columns g1 g2 g3) = g1 /\ col1 (of_columns g1 g2 g3) = g2 /\
  col2 (of_columns g1 g2 g3) = g3.
Proof. destruct g1 as [[? ?] ?], g2 as [[? ?] ?], g3 as [[? ?] ?]. auto. Qed.

Lemma sin_lower (a : R) : 0 <= a <= PI -> a - a ^ 3 / 6 <= sin a.
Proof.
  intros [H0 H1]. pose proof (sin_bound a 0 H0 H1) as [L _].
  unfold sin_approx, sin_term in L. simpl in L. lra.
Qed.

Lemma sin_abs_le (x : R) : 0 <= x -> - x <= sin x <= x.
Proof.
  intro H0. destruct (Req_dec x 0) as [-> | Hn].
  - rewrite sin_0. lra.
  - assert (Hp : 0 < x) by lra.
    pose proof (sin_lt_x x Hp) as Hlt. pose proof (SIN_bound x) as Hsb.
    destruct (Rle_dec x 1) as [Hx1 | Hx1]; [| lra].
    assert (0 <= sin x).
    { apply sin_ge_0; [lra |]. pose proof PI2_1. lra. }
    lra.
Qed.

Lemma cos_lower (a : R) : 0 <= a -> 1 - a ^ 2 / 2 <= cos a.
Proof.
  intro H0.
  replace (cos a) with (cos (2 * (a / 2))) by (f_equal; field).
  rewrite cos_2a_sin.
  assert (Hp : 0 <= a / 2) by lra.
  pose proof (sin_abs_le _ Hp). nra.
Qed.

(** The conditioning of the polar angle.  Clear of the poles
    (sin theta >= 0.01) a cosine known to within 1E-15, a few units in the
    last place, gives the angle to within 1E-12. *)
Lemma arccos_well_conditioned (th c : R) :
  0 < th < PI -> / 100 <= sin th -> -1 <= c <= 1 ->
  Rabs (c - cos th) <= 1e-15 ->
  Rabs (arccos c - th) <= 1e-12.
Proof.
  intros Hth Hs Hc Hd. unfold arccos.
  pose proof (acos_bound c) as Hb.
  pose proof (cos_acos c Hc) as Ec.
  set (t := acos c) in *.
  set (e := 2e-13).
  assert (He : 0 < e <= / 100) by (unfold e; lra).
  pose proof PI2_1 as P21. pose proof PI_RGT_0 as Ppos.
  assert (Hlo : / 100 < th).
  { pose proof (sin_lt_x th (proj1 Hth)). lra. }
  assert (Hhi : / 100 < PI - th).
  { assert (0 < PI - th) as Q by lra.
    pose proof (sin_lt_x _ Q) as U. rewrite sin_PI_x in U. lra. }
  assert (Se : e - e ^ 3 / 6 <= sin e) by (apply sin_lower; lra).
  assert (Ce : 1 - e ^ 2 / 2 <= cos e) by (apply cos_lower; lra).
  pose proof (COS_bound e) as Ce'.
  pose proof (COS_bound th) as Ck.
  assert (D : cos th - 1e-15 <= c <= cos th + 1e-15).
  { unfold Rabs in Hd. destruct (Rcase_abs (c - cos th)); lra. }
  assert (Num : 1e-15 + e ^ 2 / 2 <= / 100 * (e - e ^ 3 / 6))
    by (unfold e; lra).
  assert (A1 : - (e ^ 2 / 2) <= cos th * (1 - cos e)) by nra.
  assert (A1' : - (e ^ 2 / 2) <= - cos th * (1 - cos e)) by nra.
  assert (Spos : 0 <= e - e ^ 3 / 6) by (unfold e; lra).
  assert (A2 : / 100 * (e - e ^ 3 / 6) <= sin th * sin e) by nra.
  assert (U : t <= th + e).
  { apply cos_decr_0; try lra. rewrite cos_plus, Ec. lra. }
  assert (L : th - e <= t).
  { apply cos_decr_0; try lra. rewrite cos_minus, Ec. lra. }
  apply Rabs_le. unfold e in *. lra.
Qed.

(** Next to a pole it does not: 1 differs from the cosine of 1E-9 by less
    than 1E-18, far below the spacing 1E-16 of binary64 numbers at 1, and
    its arccos is 0, not 1E-9. *)
Remark arccos_ill_conditioned_next_to_a_pole :
  Rabs (1 - cos 1e-9) <= 1e-18 /\ arccos 1 = 0 /\
  Rabs (arccos 1 - 1e-9) = 1e-9.
Proof.
  split; [| split].
  - pose proof (cos_lower 1e-9). pose proof (COS_bound 1e-9).
    apply Rabs_le. lra.
  - apply acos_1.
  - unfold arccos. rewrite acos_1. rewrite Rabs_left; lra.
Qed.




Lemma Rltb_spec (x y : R) : Rltb x y = true <-> x < y.
Proof. unfold Rltb. destruct (Rlt_dec x y); split; intro; auto; discriminate. Qed.

Lemma kent2_cases (g1 g2 g3 : vec3) (k b : R) :
  (Rabs (inner g1 g2) < 1e-10 /\ Rabs (inner g2 g3) < 1e-10 /\
   Rabs (inner g3 g1) < 1e-10 /\ kent2 g1 g2 g3 k b = init g1 g2 g3 k b)
  \/
  ((1e-10 <= Rabs (inner g1 g2) \/ 1e-10 <= Rabs (inner g2 g3) \/
    1e-10 <= Rabs (inner g3 g1)) /\ kent2 g1 g2 g3 k b = Raise AssertionError).
Proof.
  unfold kent2, Rltb.
  destruct (Rlt_dec (Rabs (inner g1 g2)) 1e-10); simpl;
    [ | right; split; [left; lra | reflexivity] ].
  destruct (Rlt_dec (Rabs (inner g2 g3)) 1e-10); simpl;
    [ | right; split; [right; left; lra | reflexivity] ].
  destruct (Rlt_dec (Rabs (inner g3 g1)) 1e-10); simpl;
    [ | right; split; [right; right; lra | reflexivity] ].
  left. auto.
Qed.

Lemma inner_vscale (a b : R) (u v : vec3) :
  inner (vscale a u) (vscale b v) = a * b * inner u v.
Proof. destruct u as [[? ?] ?], v as [[? ?] ?]. simpl. ring. Qed.

Lemma kent2_scaled_accepted (g1 g2 g3 : vec3) (k b s1 s2 s3 : R) :
  inner g1 g2 = 0 -> inner g2 g3 = 0 -> inner g3 g1 = 0 ->
  exists d,
    kent2 (vscale s1 g1) (vscale s2 g2) (vscale s3 g3) k b = Ok d /\
    gamma1 d = vscale s1 g1 /\ gamma2 d = vscale s2 g2 /\
    gamma3 d = vscale s3 g3 /\ kappa d = k /\ beta d = b.
Proof.
  intros O1 O2 O3.
  destruct (init_Ok (vscale s1 g1) (vscale s2 g2) (vscale s3 g3) k b)
    as (d' & Hd' & F1 & F2 & F3 & F4 & F5 & _).
  exists d'. rewrite kent2_orthogonal; auto 10.
  all: rewrite inner_vscale; rewrite ?O1, ?O2, ?O3; ring.
Qed.

(** C10: [kent2] raises its assertion error exactly when one of the three
    pairwise inner products is at least 1E-10 in absolute value, and returns
    an object exactly when all three are below it; [kent4] on the matrix of
    the three columns is that same call.  Lengths are never examined:
    mutually orthogonal vectors, scaled by any factors, are accepted and
    stored as given. *)
Theorem kent2_rejects_only_non_orthogonal (g1 g2 g3 : vec3) (k b s1 s2 s3 : R) :
  (rejected (kent2 g1 g2 g3 k b) <->
     1e-10 <= Rabs (inner g1 g2) \/ 1e-10 <= Rabs (inner g2 g3) \/
     1e-10 <= Rabs (inner g3 g1)) /\
  (accepted (kent2 g1 g2 g3 k b) <->
     Rabs (inner g1 g2) < 1e-10 /\ Rabs (inner g2 g3) < 1e-10 /\
     Rabs (inner g3 g1) < 1e-10) /\
  kent4 (of_columns g1 g2 g3) k b = kent2 g1 g2 g3 k b /\
  (inner g1 g2 = 0 /\ inner g2 g3 = 0 /\ inner g3 g1 = 0 ->
   exists d,
     kent2 (vscale s1 g1) (vscale s2 g2) (vscale s3 g3) k b = Ok d /\
     gamma1 d = vscale s1 g1 /\ gamma2 d = vscale s2 g2 /\
     gamma3 d = vscale s3 g3 /\ kappa d = k /\ beta d = b).
Proof.
  unfold rejected, accepted.
  destruct (init_Ok g1 g2 g3 k b) as (d & Hd & _).
  split; [| split; [| split]].
  - destruct (kent2_cases g1 g2 g3 k b) as [(A & B & C & E) | (D & E)];
      rewrite E, ?Hd; split; intro; auto; try discriminate; lra.
  - destruct (kent2_cases g1 g2 g3 k b) as [(A & B & C & E) | (D & E)];
      rewrite E; split.
    + auto.
    + eauto.
    + intros (d' & Hd'); discriminate.
    + lra.
  - unfold kent4. now destruct (col_of_columns g1 g2 g3) as (-> & -> & ->).
  - intros (O1 & O2 & O3). now apply kent2_scaled_accepted.
Qed.

Lemma kent3_total (A B : vec3) :
  exists d, kent3 A B = Ok d /\ kappa d = norm A /\ beta d = norm B.
Proof.
  unfold kent3.
  destruct (gammas_to_spherical_coordinates _ _) as [[th ph] ps].
  destruct (spherical_coordinates_to_gammas th ph ps) as [[g1 g2] g3].
  destruct (init_Ok g1 g2 g3 (norm A) (norm B))
    as (d & Hd & _ & _ & _ & Hk & Hb & _).
  exists d. auto.
Qed.

Lemma norm_vzero : norm vzero = 0.
Proof.
  unfold norm, vzero. simpl.
  replace (0 * 0 + 0 * 0 + 0 * 0) with 0 by ring. apply sqrt_0.
Qed.

(** C9 (as amended): [kent3] validates nothing.  For every A and B it
    returns an object, with kappa = norm(A) and beta = norm(B); a zero-length
    A is accepted with kappa = 0, and in binary64 the quotient A/kappa that
    becomes gamma1 then consists of NaNs. *)
Theorem kent3_never_rejects (A B : vec3) (B' : Float64.fvec3) :
  (exists d, kent3 A B = Ok d /\ kappa d = norm A /\ beta d = norm B) /\
  (exists d, kent3 vzero B = Ok d /\ kappa d = 0) /\
  (let '(kappa, _, gamma1) :=
     Float64.kent3_head (Float64.f0, Float64.f0, Float64.f0) B' in
   kappa = Float64.f0 /\ Float64.all_nan gamma1 = true).
Proof.
  split; [apply kent3_total | split].
  - destruct (kent3_total vzero B) as (d & Hd & Hk & _). exists d.
    split; [exact Hd |]. now rewrite Hk, norm_vzero.
  - destruct B' as [[x y] z]. split; reflexivity.
Qed.

(** A zero-length A: no error, an object with kappa = 0. *)
Lemma kent3_zero_length_A_is_accepted :
  (exists d, kent3 (0, 0, 0) (0, 1, 0) = Ok d /\ kappa d = 0 /\ beta d = 1) /\
  Float64.kent3_head (Float64.f0, Float64.f0, Float64.f0)
                     (Float64.f0, Float64.f1, Float64.f0)
  = (Float64.f0, Float64.f1, (PrimFloat.nan, PrimFloat.nan, PrimFloat.nan)).
Proof.
  split; [| reflexivity].
  destruct (kent3_total (0, 0, 0) (0, 1, 0)) as (d & Hd & Hk & Hb).
  exists d. split; [exact Hd |].
  rewrite Hk, Hb. split; [apply norm_vzero |].
  unfold norm. simpl.
  replace (0 * 0 + 1 * 1 + 0 * 0) with 1 by ring. apply sqrt_1.
Qed.

(** In binary64 a non-zero A can already have norm 0: the squares
    underflow, and the axis A/kappa is infinite or NaN. *)
Remark kent3_head_underflows :
  Float64.kent3_head (Float64.tiny, Float64.f0, Float64.f0)
                     (Float64.f0, Float64.f1, Float64.f0)
  = (Float64.f0, Float64.f1,
     (PrimFloat.infinity, PrimFloat.nan, PrimFloat.nan)).
Proof. reflexivity. Qed.

(* ------------------------------------------------------------------ *)
(** ** The series of the normalizing constant *)

Section NormalizerProofs.
Variable G : R -> R.
Variable I : R -> R -> R.
Hypothesis G_nonzero : forall j : nat, G (INR j + 1) <> 0.

Local Abbreviation term := (kent_series_term G I).

Lemma np_log_pos (x : R) : 0 < x -> np_log x = Ok (ln x).
Proof. unfold np_log. intro. destruct (Rlt_dec 0 x); [reflexivity | contradiction]. Qed.


Lemma np_div_nonzero (x y : R) : y <> 0 -> np_div x y = Ok (x / y).
Proof. unfold np_div. intro. destruct (Req_dec_T y 0); [contradiction | reflexivity]. Qed.

Lemma exp_log_power (b : R) (j : nat) :
  0 < b -> exp (ln b * 2 * INR j) = b ^ (2 * j).
Proof.
  intro Hb. rewrite <- Rpower_pow by exact Hb. unfold Rpower.
  f_equal. rewrite mult_INR. simpl. ring.
Qed.

Lemma series_term_value (k b : R) (j : nat) :
  0 < k -> 0 < b -> series_term G I k b j = Ok (term k b j).
Proof.
  intros Hk Hb. unfold series_term.
  rewrite (np_log_pos b Hb). simpl.
  rewrite np_log_pos by lra. simpl.
  rewrite np_div_nonzero by apply G_nonzero. simpl.
  f_equal. unfold kent_series_term.
  rewrite exp_plus, exp_log_power by exact Hb.
  replace (0.5 * k) with (k / 2) by lra.
  unfold Rpower, Rdiv.
  replace (ln (k * / 2) * (-2 * INR j - 0.5))
    with ((-2 * INR j - 0.5) * ln (k * / 2)) by ring.
  ring.
Qed.

Lemma stop_test (t : nat -> R) (j : nat) :
  Rltb (Rabs (t j)) (Rabs (partial_sum t (S j)) * 1e-12) && (5 <? S j)%nat = true
  <-> stops_at t (S j).
Proof.
  unfold stops_at. rewrite andb_true_iff, Rltb_spec, Nat.ltb_lt. simpl. tauto.
Qed.

Lemma series_loop_reaches (k b : R) (Hk : 0 < k) (Hb : 0 < b) (n fuel : nat) :
  forall j, (j < n)%nat -> (n - j <= fuel)%nat ->
    stops_at (term k b) n ->
    (forall m, (j < m < n)%nat -> ~ stops_at (term k b) m) ->
    series_loop G I fuel k b j (partial_sum (term k b) j)
    = Ok (partial_sum (term k b) n, n).
Proof.
  induction fuel as [| fuel IH]; intros j Hj Hf Hs Hn; [lia |].
  simpl. rewrite series_term_value by assumption. simpl.
  change (partial_sum (term k b) j + term k b j)
    with (partial_sum (term k b) (S j)).
  destruct (Nat.eq_dec (S j) n) as [<- | Hne].
  - apply stop_test in Hs. simpl in Hs. simpl. rewrite Hs. reflexivity.
  - destruct (Rltb _ _ && _) eqn:E.
    + apply (stop_test (term k b) j) in E. exfalso. apply (Hn (S j)); [lia | exact E].
    + apply IH; try lia; try assumption. intros m Hm. apply Hn. lia.
Qed.

Lemma series_loop_sound (k b : R) (Hk : 0 < k) (Hb : 0 < b) (fuel : nat) :
  forall j v n,
    series_loop G I fuel k b j (partial_sum (term k b) j) = Ok (v, n) ->
    (j < n)%nat /\ (n - j <= fuel)%nat /\ v = partial_sum (term k b) n /\
    stops_at (term k b) n /\
    (forall m, (j < m < n)%nat -> ~ stops_at (term k b) m).
Proof.
  induction fuel as [| fuel IH]; intros j v n; simpl; [discriminate |].
  rewrite series_term_value by assumption. simpl.
  change (partial_sum (term k b) j + term k b j)
    with (partial_sum (term k b) (S j)).
  destruct (Rltb _ _ && _) eqn:E.
  - intro H. inversion H; subst. apply (stop_test (term k b) j) in E.
    repeat split; try lia; try apply E. 
  - intro H. apply IH in H. destruct H as (H1 & H2 & H3 & H4 & H5).
    repeat split; try lia; try assumption; try apply H4.
    intros m Hm St. destruct (Nat.eq_dec m (S j)) as [-> | Hne].
    + apply (stop_test (term k b) j) in St. congruence.
    + apply (H5 m); [lia | exact St].
Qed.

Lemma series_loop_never_raises (k b : R) (Hk : 0 < k) (Hb : 0 < b) (fuel : nat) :
  forall j r e, series_loop G I fuel k b j r <> Raise e.
Proof.
  induction fuel as [| fuel IH]; intros j r e; simpl; [discriminate |].
  rewrite series_term_value by assumption. simpl.
  destruct (Rltb _ _ && _); [discriminate | apply IH].
Qed.

Lemma first_stop_unique (t : nat -> R) (n m : nat) :
  first_stop t n -> first_stop t m -> n = m.
Proof.
  intros [Sn Fn] [Sm Fm].
  destruct (Nat.lt_trichotomy n m) as [H | [H | H]]; [| exact H |].
  - exfalso. apply (Fm n H Sn).
  - exfalso. apply (Fn m H Sm).
Qed.

Lemma normalize_compute_series (k b : R) (fuel n : nat) :
  0 < k -> 0 < b -> first_stop (term k b) n -> (n <= fuel)%nat ->
  normalize_compute G I fuel k b = Ok (partial_sum (term k b) n, n).
Proof.
  intros Hk Hb [Hs Hf] Hn. unfold normalize_compute.
  destruct (Req_dec_T b 0); [lra |].
  apply (series_loop_reaches k b Hk Hb n fuel 0%nat).
  - destruct Hs; lia.
  - lia.
  - exact Hs.
  - intros m Hm. apply Hf. lia.
Qed.

Lemma normalize_compute_stops (k b : R) (fuel n : nat) (v : R) :
  0 < k -> 0 < b ->
  normalize_compute G I fuel k b = Ok (v, n) ->
  first_stop (term k b) n /\ v = partial_sum (term k b) n /\ (n <= fuel)%nat.
Proof.
  intros Hk Hb. unfold normalize_compute.
  destruct (Req_dec_T b 0); [lra |]. intro H.
  apply (series_loop_sound k b Hk Hb fuel 0%nat) in H.
  destruct H as (H1 & H2 & H3 & H4 & H5).
  repeat split; try assumption; try apply H4; try lia.
  intros m Hm St. apply (H5 m); [| exact St]. destruct St. lia.
Qed.

(** *** The memo table *)

Lemma cache_get_set (c : cache) (k b v k' b' : R) :
  cache_get (cache_set c k b v) k' b'
  = if Req_dec_T k' k
    then (if Req_dec_T b' b then Some v else cache_get c k' b')
    else cache_get c k' b'.
Proof. reflexivity. Qed.

Lemma cache_get_set_same (c : cache) (k b v : R) :
  cache_get (cache_set c k b v) k b = Some v.
Proof.
  rewrite cache_get_set.
  destruct (Req_dec_T k k); [| contradiction].
  destruct (Req_dec_T b b); [reflexivity | contradiction].
Qed.

Lemma cache_valid_nil : cache_valid G I [].
Proof. intros k b v H. discriminate. Qed.

Lemma cache_valid_set (c : cache) (k b result : R) (fuel j : nat) :
  cache_valid G I c ->
  normalize_compute G I fuel k b = Ok (result, j) ->
  cache_valid G I (cache_set c k b (2 * PI * result)).
Proof.
  intros Hc Hn k' b' v. rewrite cache_get_set.
  destruct (Req_dec_T k' k) as [-> |]; [| apply Hc].
  destruct (Req_dec_T b' b) as [-> |]; [| apply Hc].
  intro E. inversion E; subst. eauto.
Qed.

Lemma normalize_hit (d : KentDistribution) (c : cache) (fuel : nat) (v : R) :
  cache_get c (kappa d) (beta d) = Some v ->
  normalize G I false d fuel c = (Ok (v, None), c).
Proof. intro H. unfold normalize. now rewrite H. Qed.

Lemma normalize_miss (rni : bool) (d : KentDistribution) (c : cache)
    (fuel : nat) :
  cache_get c (kappa d) (beta d) = None ->
  normalize G I rni d fuel c
  = match normalize_compute G I fuel (kappa d) (beta d) with
    | Ok (result, j) =>
        (Ok (2 * PI * result, if rni then Some j else None),
         cache_set c (kappa d) (beta d) (2 * PI * result))
    | Raise e => (Raise e, c)
    | OutOfFuel => (OutOfFuel, c)
    end.
Proof. intro H. unfold normalize. now rewrite H. Qed.

Lemma normalize_compute_out_of_fuel (k b : R) (fuel n : nat) :
  0 < k -> 0 < b -> first_stop (term k b) n -> (fuel < n)%nat ->
  normalize_compute G I fuel k b = OutOfFuel.
Proof.
  intros Hk Hb Hn Hf.
  destruct (normalize_compute G I fuel k b) as [[v m] | e |] eqn:E.
  - apply normalize_compute_stops in E; try assumption.
    destruct E as (Hm & _ & Hle).
    pose proof (first_stop_unique _ _ _ Hn Hm). lia.
  - exfalso. revert E. unfold normalize_compute.
    destruct (Req_dec_T b 0); [lra |].
    now apply series_loop_never_raises.
  - reflexivity.
Qed.

(** C2: for positive kappa and beta, [normalize] adds the terms
    Gamma(j+0.5)/Gamma(j+1) * beta^(2j) * (kappa/2)^(-2j-0.5) *
    I_(2j+0.5)(kappa), j = 0, 1, ..., and leaves the loop at the first
    count n >= 6 at which the last term added is below 1E-12 times the
    running sum in absolute value; it returns 2*pi times that sum (from
    the memo table when an earlier call stored it), after n passes, and
    not before. *)
Theorem normalize_series_sum (d : KentDistribution) (c : cache)
    (fuel n : nat) :
  0 < kappa d -> 0 < beta d ->
  cache_valid G I c ->
  first_stop (term (kappa d) (beta d)) n -> (n <= fuel)%nat ->
  let Z := 2 * PI * partial_sum (term (kappa d) (beta d)) n in
  (exists c',
      normalize G I false d fuel c = (Ok (Z, None), c') /\
      cache_valid G I c') /\
  (cache_get c (kappa d) (beta d) = None ->
   normalize G I true d fuel c
   = (Ok (Z, Some n), cache_set c (kappa d) (beta d) Z) /\
   forall fuel', (fuel' < n)%nat ->
     normalize G I true d fuel' c = (OutOfFuel, c)).
Proof.
  intros Hk Hb Hc Hn Hf Z.
  pose proof (normalize_compute_series _ _ fuel n Hk Hb Hn Hf) as Hrun.
  split.
  - destruct (cache_get c (kappa d) (beta d)) as [v |] eqn:E.
    + exists c. split; [| exact Hc].
      rewrite (normalize_hit d c fuel v E).
      destruct (Hc _ _ _ E) as (fuel0 & r & j & Hr & ->).
      apply normalize_compute_stops in Hr; try assumption.
      destruct Hr as (Hj & -> & _).
      now rewrite (first_stop_unique _ _ _ Hj Hn).
    + exists (cache_set c (kappa d) (beta d) Z). split.
      * now rewrite (normalize_miss false d c fuel E), Hrun.
      * now apply (cache_valid_set c _ _ _ fuel n).
  - intro E. split.
    + now rewrite (normalize_miss true d c fuel E), Hrun.
    + intros fuel' Hlt. rewrite (normalize_miss true d c fuel' E).
      now rewrite (normalize_compute_out_of_fuel _ _ fuel' n).
Qed.

End NormalizerProofs.

(* ------------------------------------------------------------------ *)
(** ** The closed form at beta = 0, and the logarithm *)

Section ClosedForm.

Variable G : R -> R.
Variable I : R -> R -> R.

Lemma py_pow_pos (x y : R) : 0 < x -> y <> 0 -> py_pow x y = Ok (Rpower x y).
Proof.
  intros Hx Hy. unfold py_pow.
  destruct (Req_dec_T y 0); [contradiction |].
  destruct (Rlt_dec 0 x); [reflexivity | contradiction].
Qed.

Lemma normalize_compute_beta_zero (k : R) (fuel : nat) :
  0 < k -> G 1 <> 0 ->
  normalize_compute G I fuel k 0
  = Ok (Rpower (k / 2) (- 0.5) * I 0.5 k * G 0.5 / G 1, 0%nat).
Proof.
  intros Hk HG. unfold normalize_compute.
  destruct (Req_dec_T 0 0) as [_ | N]; [| contradiction].
  simpl INR.
  replace (-2 * 0 - 0.5) with (- 0.5) by lra.
  replace (2 * 0 + 0.5) with 0.5 by lra.
  replace (0 + 1) with 1 by lra.
  replace (0 + 0.5) with 0.5 by lra.
  replace (0.5 * k) with (k / 2) by lra.
  rewrite py_pow_pos by lra. simpl.
  rewrite np_div_nonzero by exact HG. simpl.
  do 2 f_equal. unfold Rdiv. ring.
Qed.

Lemma Rpower_neg_half (x : R) : 0 < x -> Rpower x (- 0.5) = / sqrt x.
Proof.
  intro Hx. replace (- 0.5) with (- / 2) by lra.
  now rewrite Rpower_Ropp, Rpower_sqrt.
Qed.

(** With Gamma(1/2) = sqrt(pi), Gamma(1) = 1 and
    I_(1/2)(k) = sqrt(2/(pi k)) sinh k, the single term is 2 sinh(k)/k. *)
Lemma closed_form_value (k : R) :
  0 < k ->
  G 1 = 1 -> G 0.5 = sqrt PI ->
  I 0.5 k = sqrt (2 / (PI * k)) * sinh k ->
  2 * PI * (Rpower (k / 2) (- 0.5) * I 0.5 k * G 0.5 / G 1)
  = 4 * PI * sinh k / k.
Proof.
  intros Hk G1 Gh Ih. pose proof PI_RGT_0 as Hpi.
  rewrite G1, Gh, Ih, Rpower_neg_half by lra.
  assert (E1 : sqrt (2 / (PI * k)) * sqrt PI = sqrt (2 / k)).
  { rewrite <- sqrt_mult.
    - f_equal. field. lra.
    - apply Rlt_le, Rdiv_lt_0_compat; [lra | nra].
    - lra. }
  assert (E2 : / sqrt (k / 2) = sqrt (2 / k)).
  { rewrite <- sqrt_inv. f_equal. field. lra. }
  assert (E3 : sqrt (2 / k) * sqrt (2 / k) = 2 / k).
  { apply sqrt_sqrt. apply Rlt_le, Rdiv_lt_0_compat; lra. }
  rewrite E2.
  replace (2 * PI * (sqrt (2 / k) * (sqrt (2 / (PI * k)) * sinh k) * sqrt PI / 1))
    with (2 * PI * sinh k * (sqrt (2 / k) * (sqrt (2 / (PI * k)) * sqrt PI)))
    by (field).
  rewrite E1, E3. field. lra.
Qed.

(** C4: at beta = 0 [normalize] evaluates the single term
    2*pi * (kappa/2)^(-0.5) * I_0.5(kappa) * Gamma(0.5)/Gamma(1), whatever
    the fuel (the loop is not entered, the count stays 0); with the
    values of Gamma and I at half-integer order this is
    4*pi*sinh(kappa)/kappa, so the relative error is within 1E-12 for
    every positive kappa. *)
Theorem normalize_beta_zero_closed_form (d : KentDistribution) (c : cache)
    (fuel : nat) :
  0 < kappa d -> beta d = 0 ->
  G 1 = 1 -> G 0.5 = sqrt PI ->
  I 0.5 (kappa d) = sqrt (2 / (PI * kappa d)) * sinh (kappa d) ->
  cache_valid G I c ->
  let single_term :=
    2 * PI * (Rpower (kappa d / 2) (- 0.5) * I 0.5 (kappa d) * G 0.5 / G 1) in
  let exact := 4 * PI * sinh (kappa d) / kappa d in
  (exists c',
      normalize G I false d fuel c = (Ok (single_term, None), c') /\
      cache_valid G I c') /\
  (cache_get c (kappa d) (beta d) = None ->
   normalize G I true d fuel c
   = (Ok (single_term, Some 0%nat),
      cache_set c (kappa d) (beta d) single_term)) /\
  single_term = exact /\
  Rabs (single_term - exact) <= 1e-12 * exact.
Proof.
  intros Hk Hb G1 Gh Ih Hc single_term exact.
  assert (HG : G 1 <> 0) by (rewrite G1; lra).
  pose proof (normalize_compute_beta_zero (kappa d) fuel Hk HG) as Hrun.
  assert (Hval : single_term = exact) by now apply closed_form_value.
  split; [| split; [| split]].
  - destruct (cache_get c (kappa d) (beta d)) as [v |] eqn:E.
    + exists c. split; [| exact Hc].
      rewrite (normalize_hit G I d c fuel v E).
      destruct (Hc _ _ _ E) as (fuel0 & r & j & Hr & ->).
      rewrite Hb, (normalize_compute_beta_zero (kappa d) fuel0 Hk HG) in Hr.
      now inversion Hr.
    + exists (cache_set c (kappa d) (beta d) single_term). split.
      * now rewrite (normalize_miss G I false d c fuel E), Hb, Hrun.
      * rewrite Hb. apply (cache_valid_set G I c _ _ _ fuel 0%nat Hc Hrun).
  - intro E. now rewrite (normalize_miss G I true d c fuel E), Hb, Hrun.
  - exact Hval.
  - rewrite Hval, Rminus_diag, Rabs_R0.
    assert (0 < exact); [| lra].
    unfold exact. pose proof PI_RGT_0.
    assert (0 < sinh (kappa d)) by (rewrite <- sinh_0; now apply sinh_lt).
    apply Rdiv_lt_0_compat; [nra | lra].
Qed.

End ClosedForm.

Section LogNormalize.

Variable G : R -> R.
Variable I : R -> R -> R.



Lemma log_normalize_value (d : KentDistribution) (fuel : nat) (c c1 : cache)
    (v : R) (o : option nat) :
  normalize G I false d fuel c = (Ok (v, o), c1) -> 0 < v ->
  log_normalize G I d fuel c = (Ok (ln v), c1).
Proof.
  intros H Hv. unfold log_normalize. rewrite H. simpl. now rewrite np_log_pos.
Qed.




End LogNormalize.


(* ------------------------------------------------------------------ *)
(** ** Density *)

Lemma nd_map_map {A B C : Type} (f : A -> B) (g : B -> C) (n : nat)
    (xs : ndarray A n) :
  nd_map g n (nd_map f n xs) = nd_map (fun x => g (f x)) n xs.
Proof.
  induction n as [| n IH]; simpl in *; [reflexivity |].
  rewrite map_map. apply map_ext. exact IH.
Qed.

Lemma combine_map_same {A B C : Type} (f : A -> B) (g : A -> C) (l : list A) :
  combine (map f l) (map g l) = map (fun x => (f x, g x)) l.
Proof. induction l as [| x l IH]; simpl; [reflexivity | now rewrite IH]. Qed.

(** An elementwise operation on two arrays derived from one array is a
    map over that array. *)
Lemma nd_map2_map {A B C D : Type} (h : B -> C -> D) (f : A -> B) (g : A -> C)
    (n : nat) (xs : ndarray A n) :
  nd_map2 h n (nd_map f n xs) (nd_map g n xs)
  = nd_map (fun x => h (f x) (g x)) n xs.
Proof.
  induction n as [| n IH]; simpl in *; [reflexivity |].
  rewrite combine_map_same, map_map. apply map_ext. intro a. simpl. apply IH.
Qed.

Lemma nd_map_ext {A B : Type} (f g : A -> B) (n : nat) (xs : ndarray A n) :
  (forall x, f x = g x) -> nd_map f n xs = nd_map g n xs.
Proof.
  intro H. induction n as [| n IH]; simpl in *; [apply H |].
  apply map_ext. intro a. apply IH.
Qed.

Lemma sum_last_axis_inner (g : vec3) (n : nat) (xs : ndarray vec3 n) :
  sum_last_axis g n xs = nd_map (inner g) n xs.
Proof.
  unfold sum_last_axis. rewrite nd_map_map. apply nd_map_ext.
  intros [[x0 x1] x2]. destruct g as [[g0 g1] g2]. reflexivity.
Qed.

Section Density.

Variable G : R -> R.
Variable I : R -> R -> R.

Lemma log_pdf_unnormalized (d : KentDistribution) (n : nat)
    (xs : ndarray vec3 n) (fuel : nat) (c : cache) :
  log_pdf G I d n xs false fuel c = (Ok (nd_map (log_density d) n xs), c).
Proof.
  unfold log_pdf. rewrite !sum_last_axis_inner, !nd_map_map.
  rewrite nd_map2_map, nd_map_map, nd_map2_map. reflexivity.
Qed.

Lemma log_pdf_normalized (d : KentDistribution) (n : nat)
    (xs : ndarray vec3 n) (fuel : nat) (c : cache) :
  log_pdf G I d n xs true fuel c
  = (ln_ <- fst (log_normalize G I d fuel c) ;;
     Ok (nd_map (fun x => log_density d x - ln_) n xs),
     snd (log_normalize G I d fuel c)).
Proof.
  unfold log_pdf. rewrite !sum_last_axis_inner, !nd_map_map.
  rewrite nd_map2_map, nd_map_map, nd_map2_map.
  destruct (log_normalize G I d fuel c) as [[l | e |] c1]; simpl;
    try reflexivity.
  now rewrite nd_map_map.
Qed.

(** C5: on a batch of any shape, [log_pdf] is, point by point,
    kappa*(gamma1.x) + beta*((gamma2.x)^2 - (gamma3.x)^2), less the
    result of [log_normalize] when [normalize] is set (whose failure it
    passes on), that is less log(normalize()) whenever [normalize]
    returns a positive value; and [pdf] is the exponential of that
    value. *)
Theorem log_pdf_pointwise (d : KentDistribution) (n : nat)
    (xs : ndarray vec3 n) (fuel : nat) (c : cache) :
  let f := fun x =>
    kappa d * inner (gamma1 d) x
    + beta d * ((inner (gamma2 d) x) ^ 2 - (inner (gamma3 d) x) ^ 2) in
  let '(lnorm, c1) := log_normalize G I d fuel c in
  log_pdf G I d n xs false fuel c = (Ok (nd_map f n xs), c) /\
  pdf G I d n xs false fuel c = (Ok (nd_map (fun x => exp (f x)) n xs), c) /\
  log_pdf G I d n xs true fuel c
  = (ln_ <- lnorm ;; Ok (nd_map (fun x => f x - ln_) n xs), c1) /\
  pdf G I d n xs true fuel c
  = (ln_ <- lnorm ;; Ok (nd_map (fun x => exp (f x - ln_)) n xs), c1) /\
  (forall v o, normalize G I false d fuel c = (Ok (v, o), c1) -> 0 < v ->
     log_pdf G I d n xs true fuel c
     = (Ok (nd_map (fun x => f x - ln v) n xs), c1) /\
     pdf G I d n xs true fuel c
     = (Ok (nd_map (fun x => exp (f x - ln v)) n xs), c1)).
Proof.
  intro f. change f with (log_density d).
  unfold pdf.
  rewrite log_pdf_unnormalized, log_pdf_normalized.
  destruct (log_normalize G I d fuel c) as [lnorm c1] eqn:E.
  cbn [fst snd].
  split; [reflexivity | split; [| split; [reflexivity | split]]].
  - simpl. now rewrite nd_map_map.
  - destruct lnorm; simpl; rewrite ?nd_map_map; reflexivity.
  - intros v o H Hv.
    rewrite (log_normalize_value G I d fuel c c1 v o H Hv) in E.
    injection E as <-. simpl. now rewrite nd_map_map.
Qed.

End Density.

(* ------------------------------------------------------------------ *)
(** ** The maximum of the density *)

(** Bessel's inequality for two orthonormal directions. *)
Lemma bessel2 (g1 g2 x : vec3) :
  orthonormal2 g1 g2 -> unit_vector x ->
  (inner g1 x) ^ 2 + (inner g2 x) ^ 2 <= 1.
Proof.
  destruct g1 as [[a0 a1] a2], g2 as [[b0 b1] b2], x as [[x0 x1] x2].
  unfold orthonormal2, unit_vector. simpl. intros (U1 & U2 & O) Ux.
  set (y1 := a0 * x0 + a1 * x1 + a2 * x2).
  set (y2 := b0 * x0 + b1 * x1 + b2 * x2).
  assert (E : (x0 - y1 * a0 - y2 * b0) ^ 2 + (x1 - y1 * a1 - y2 * b1) ^ 2
              + (x2 - y1 * a2 - y2 * b2) ^ 2
              = (x0 * x0 + x1 * x1 + x2 * x2) - 2 * y1 ^ 2 - 2 * y2 ^ 2
                + y1 ^ 2 * (a0 * a0 + a1 * a1 + a2 * a2)
                + y2 ^ 2 * (b0 * b0 + b1 * b1 + b2 * b2)
                + 2 * y1 * y2 * (a0 * b0 + a1 * b1 + a2 * b2)).
  { unfold y1, y2. ring. }
  rewrite U1, U2, O, Ux in E.
  pose proof (pow2_ge_0 (x0 - y1 * a0 - y2 * b0)).
  pose proof (pow2_ge_0 (x1 - y1 * a1 - y2 * b1)).
  pose proof (pow2_ge_0 (x2 - y1 * a2 - y2 * b2)).
  replace (y1 * (y1 * 1)) with (y1 ^ 2) by ring.
  replace (y2 * (y2 * 1)) with (y2 ^ 2) by ring.
  lra.
Qed.

(** The concave parabola k t + b (1 - t^2) on [-1, 1]. *)
Lemma parabola_max (k b t : R) :
  0 <= k -> 0 <= b -> t ^ 2 <= 1 ->
  let x1 := if Req_dec_T b 0 then 1 else Rmin (k / (2 * b)) 1 in
  k * t + b * (1 - t ^ 2) <= k * x1 + b * (1 - x1 ^ 2).
Proof.
  intros Hk Hb Ht x1. subst x1.
  assert (Ht1 : -1 <= t <= 1) by (split; nra).
  destruct (Req_dec_T b 0) as [-> | Hb0]; [nra |].
  unfold Rmin. destruct (Rle_dec (k / (2 * b)) 1) as [Hle | Hgt].
  - set (x1 := k / (2 * b)).
    assert (Ek : k = 2 * b * x1) by (unfold x1; field; lra).
    rewrite Ek. pose proof (pow2_ge_0 (x1 - t)). nra.
  - assert (Hk2 : 2 * b < k).
    { apply Rnot_le_lt in Hgt.
      apply (Rmult_lt_compat_r (2 * b)) in Hgt; [| lra].
      unfold Rdiv in Hgt. rewrite Rmult_assoc, Rinv_l in Hgt by lra. lra. }
    assert (0 <= (1 - t) * (k - b * (1 + t))) by (apply Rmult_le_pos; nra).
    nra.
Qed.

Lemma clamp_is_Rmin (x : R) : (if Rlt_dec 1 x then 1 else x) = Rmin x 1.
Proof.
  unfold Rmin. destruct (Rlt_dec 1 x), (Rle_dec x 1); lra.
Qed.

Lemma constructed_angles (d : KentDistribution) :
  constructed d ->
  (theta d, phi d, psi d)
  = gammas_to_spherical_coordinates (gamma1 d) (gamma2 d).
Proof.
  intros (g1 & g2 & g3 & k & b & H).
  destruct (init_Ok g1 g2 g3 k b) as (d' & Hd' & E1 & E2 & _ & _ & _ & Ea).
  rewrite Hd' in H. injection H as <-. rewrite E1, E2. exact Ea.
Qed.

(** For an object built on orthonormal axes, [Gamma] has gamma1 and
    gamma2 as its first two columns. *)
Lemma Gamma_columns (d : KentDistribution) :
  constructed d -> orthonormal2 (gamma1 d) (gamma2 d) ->
  col0 (Gamma d) = gamma1 d /\ col1 (Gamma d) = gamma2 d.
Proof.
  intros Hc Ho. pose proof (roundtrip (gamma1 d) (gamma2 d) Ho) as RT.
  rewrite <- (constructed_angles d Hc) in RT.
  unfold spherical_coordinates_to_gammas in RT. unfold Gamma.
  now inversion RT.
Qed.

Lemma dot_columns (A : mat3) (x1 x2 x3 : R) :
  dot A (x1, x2, x3)
  = vadd (vadd (vscale x1 (col0 A)) (vscale x2 (col1 A))) (vscale x3 (col2 A)).
Proof.
  destruct A as [[[[a00 a01] a02] [[a10 a11] a12]] [[a20 a21] a22]].
  simpl. repeat apply (f_equal2 pair); ring.
Qed.

Lemma inner_combination (g u v w : vec3) (a b c : R) :
  inner g (vadd (vadd (vscale a u) (vscale b v)) (vscale c w))
  = a * inner g u + b * inner g v + c * inner g w.
Proof.
  destruct g as [[? ?] ?], u as [[? ?] ?], v as [[? ?] ?], w as [[? ?] ?].
  simpl. ring.
Qed.

Lemma inner_sym (u v : vec3) : inner u v = inner v u.
Proof. destruct u as [[? ?] ?], v as [[? ?] ?]. simpl. ring. Qed.

(** Every object built from angles stands on an orthonormal frame. *)
Lemma kent_orthonormal_frame (th ph ps k b : R) (d : KentDistribution) :
  kent th ph ps k b = Ok d -> constructed d /\ orthonormal_frame d.
Proof.
  unfold kent. pose proof (angles_frame th ph ps) as F.
  destruct (spherical_coordinates_to_gammas th ph ps) as [[g1 g2] g3].
  destruct F as (O & _ & U3 & O23 & O31).
  intro H. split; [now exists g1, g2, g3, k, b |].
  destruct (init_Ok g1 g2 g3 k b) as (d' & Hd' & E1 & E2 & E3 & _).
  rewrite Hd' in H. injection H as <-.
  unfold orthonormal_frame. rewrite E1, E2, E3. auto.
Qed.

Section Maximum.

Variable G : R -> R.
Variable I : R -> R -> R.

Lemma log_pdf_max_unnormalized (d : KentDistribution) (fuel : nat)
    (c : cache) :
  let x1 := if Req_dec_T (beta d) 0 then 1
            else Rmin (kappa d / (2 * beta d)) 1 in
  log_pdf_max G I d false fuel c
  = (Ok (kappa d * x1 + beta d * (1 - x1 ^ 2)), c).
Proof.
  unfold log_pdf_max.
  destruct (Req_dec_T (beta d) 0) as [E | N]; simpl.
  - destruct (Rlt_dec 1 1); [lra | reflexivity].
  - rewrite clamp_is_Rmin.
    replace (kappa d * 1 / (2 * beta d)) with (kappa d / (2 * beta d))
      by (field; exact N).
    reflexivity.
Qed.

Lemma max_point_value (d : KentDistribution) :
  let x1 := if Req_dec_T (beta d) 0 then 1
            else Rmin (kappa d / (2 * beta d)) 1 in
  max_point d = dot (Gamma d) (x1, sqrt (1 - x1 ^ 2), 0).
Proof.
  unfold max_point.
  destruct (Req_dec_T (beta d) 0) as [E | N]; simpl.
  - destruct (Rlt_dec 1 1); [lra | reflexivity].
  - now rewrite clamp_is_Rmin.
Qed.

(** C6 (as amended): for an object built on an orthonormal frame, with
    kappa >= 0 and beta >= 0, the unnormalized log-density at every unit
    vector is at most [log_pdf_max(normalize=False)], which is
    kappa*x1 + beta*(1 - x1^2) with x1 = 1 at beta = 0 and
    x1 = min(kappa/(2 beta), 1) otherwise; the point
    Gamma.(x1, sqrt(1 - x1^2), 0) of [max] is a unit vector and the
    density takes that value there. *)
Theorem log_pdf_max_is_maximum (d : KentDistribution) (fuel : nat)
    (c : cache) :
  constructed d -> orthonormal_frame d ->
  0 <= kappa d -> 0 <= beta d ->
  let x1 := if Req_dec_T (beta d) 0 then 1
            else Rmin (kappa d / (2 * beta d)) 1 in
  let fmax := kappa d * x1 + beta d * (1 - x1 ^ 2) in
  log_pdf_max G I d false fuel c = (Ok fmax, c) /\
  (forall x : vec3, unit_vector x ->
     log_pdf G I d 0 x false fuel c = (Ok (log_density d x), c) /\
     log_density d x <= fmax) /\
  max_point d = dot (Gamma d) (x1, sqrt (1 - x1 ^ 2), 0) /\
  unit_vector (max_point d) /\
  log_pdf G I d 0 (max_point d) false fuel c = (Ok fmax, c).
Proof.
  intros Hc (Ho & U3 & O23 & O31) Hk Hb x1 fmax.
  pose proof (log_pdf_max_unnormalized d fuel c) as Hmax.
  pose proof (max_point_value d) as Hpt.
  fold x1 in Hmax, Hpt. fold fmax in Hmax.
  assert (Hx1 : 0 <= x1 <= 1).
  { subst x1. destruct (Req_dec_T (beta d) 0); [lra |].
    split; [| apply Rmin_r].
    apply Rmin_glb; [| lra]. unfold Rdiv.
    apply Rmult_le_pos; [lra |]. apply Rlt_le, Rinv_0_lt_compat. lra. }
  assert (Hsq : sqrt (1 - x1 ^ 2) * sqrt (1 - x1 ^ 2) = 1 - x1 ^ 2)
    by (apply sqrt_sqrt; nra).
  destruct (Gamma_columns d Hc Ho) as [C0 C1].
  destruct Ho as (U1 & U2 & O12).
  assert (Hg1 : inner (gamma1 d) (max_point d) = x1).
  { rewrite Hpt, dot_columns, inner_combination, C0, C1.
    unfold unit_vector in U1. rewrite U1, O12. ring. }
  assert (Hg2 : inner (gamma2 d) (max_point d) = sqrt (1 - x1 ^ 2)).
  { rewrite Hpt, dot_columns, inner_combination, C0, C1.
    unfold unit_vector in U2. rewrite U2, (inner_sym (gamma2 d)), O12. ring. }
  assert (Hg3 : inner (gamma3 d) (max_point d) = 0).
  { rewrite Hpt, dot_columns, inner_combination, C0, C1.
    rewrite O31, (inner_sym (gamma3 d)), O23. ring. }
  split; [exact Hmax | split; [| split; [exact Hpt | split]]].
  - intros x Ux. split; [apply (log_pdf_unnormalized G I d 0 x) |].
    pose proof (bessel2 _ _ x (conj U1 (conj U2 O12)) Ux) as Hbes.
    unfold log_density.
    pose proof (pow2_ge_0 (inner (gamma2 d) x)).
    pose proof (pow2_ge_0 (inner (gamma3 d) x)).
    pose proof (pow2_ge_0 (inner (gamma1 d) x)).
    apply Rle_trans with
      (kappa d * inner (gamma1 d) x + beta d * (1 - inner (gamma1 d) x ^ 2)).
    + apply Rplus_le_compat_l, Rmult_le_compat_l; [exact Hb | lra].
    + apply parabola_max; try assumption. lra.
  - unfold unit_vector.
    transitivity
      (inner (dot (Gamma d) (x1, sqrt (1 - x1 ^ 2), 0)) (max_point d));
      [now rewrite <- Hpt |].
    rewrite dot_columns, inner_sym, inner_combination, C0, C1.
    rewrite !(inner_sym (max_point d)), Hg1, Hg2.
    replace (x1 * x1 + sqrt (1 - x1 ^ 2) * sqrt (1 - x1 ^ 2)
             + 0 * inner (col2 (Gamma d)) (max_point d))
      with (x1 ^ 2 + sqrt (1 - x1 ^ 2) * sqrt (1 - x1 ^ 2)) by ring.
    rewrite Hsq. ring.
  - rewrite (log_pdf_unnormalized G I d 0 (max_point d)).
    unfold nd_map, log_density. rewrite Hg1, Hg2, Hg3. do 2 f_equal.
    unfold fmax.
    replace (sqrt (1 - x1 ^ 2) ^ 2) with (1 - x1 ^ 2)
      by (rewrite <- Hsq at 1; ring).
    ring.
Qed.

End Maximum.

(* ------------------------------------------------------------------ *)
(** ** The optimisation problem of [kent_mle] *)

Lemma kent_Ok (th ph ps k b : R) :
  exists d, kent th ph ps k b = Ok d /\ kappa d = k /\ beta d = b /\
            (gamma1 d, gamma2 d, gamma3 d)
            = spherical_coordinates_to_gammas th ph ps.
Proof.
  unfold kent.
  destruct (spherical_coordinates_to_gammas th ph ps) as [[g1 g2] g3].
  destruct (init_Ok g1 g2 g3 k b) as (d & Hd & E1 & E2 & E3 & Ek & Eb & _).
  exists d. rewrite E1, E2, E3. auto.
Qed.

Lemma feasible_cons (x : params) :
  feasible cons x <->
  let '(_, _, _, fudge_kappa, fudge_beta) := x in
  0 <= Rabs fudge_kappa - 2 * Rabs fudge_beta /\
  0 <= fudge_kappa /\ 0 <= fudge_beta.
Proof.
  destruct x as [[[[th ph] ps] fk] fb]. unfold feasible, cons. split.
  - intro H. inversion_clear H as [| ? ? H1 H']. inversion_clear H' as [| ? ? H2 H''].
    inversion_clear H'' as [| ? ? H3 _]. auto.
  - intros (H1 & H2 & H3).
    repeat (apply Forall_cons; [assumption |]). apply Forall_nil.
Qed.

Lemma nd_sum_last_map {A : Type} (f : A -> R) (xs : list A) :
  nd_sum_last 0 (nd_map f 1 xs) = fold_right Rplus 0 (map f xs).
Proof. reflexivity. Qed.

Section MLEProofs.

Variable G : R -> R.
Variable I : R -> R -> R.
Variable eig : mat2 -> (R * R) * mat2.
Variable minimize : minimize_call -> cache -> OptimizeResult * cache.

Lemma log_likelihood_sum (d : KentDistribution) (xs : list vec3)
    (fuel : nat) (c c1 : cache) (lnZ : R) :
  log_normalize G I d fuel c = (Ok lnZ, c1) ->
  log_likelihood G I d 0 xs fuel c
  = (Ok (fold_right Rplus 0 (map (fun x => log_density d x - lnZ) xs)), c1).
Proof.
  intro H. unfold log_likelihood.
  rewrite (log_pdf_normalized G I d 1 xs fuel c), H. reflexivity.
Qed.

(** C7 (as amended): at an iterate x = (theta, phi, psi, free_kappa,
    free_beta) the candidate is [kent] at kappa = floor + |free_kappa| and
    beta = |free_beta|; the objective handed to the solver is minus the
    log-likelihood of xs under that candidate divided by len(xs); and the
    three inequality constraints are, on the optimiser variables,
    |free_kappa| - 2|free_beta| >= 0, free_kappa >= 0 and free_beta >= 0.
    An iterate that meets them has kappa - 2 beta >= floor, kappa >= floor
    and beta >= 0. *)
Theorem kent_mle_problem (xs : list vec3) (fuel : nat)
    (k_me : KentDistribution) (x : params) (c : cache) :
  let '(fudge_theta, fudge_phi, fudge_psi, fudge_kappa, fudge_beta) := x in
  let k := minimum_value_for_kappa + Rabs fudge_kappa in
  let b := Rabs fudge_beta in
  let call := mle_call G I xs fuel k_me in
  (kent_me eig xs = Ok k_me ->
   kent_mle G I eig minimize xs fuel c
   = (generate_k (res_x (fst (minimize call c))), snd (minimize call c))) /\
  (exists d,
      generate_k x = Ok d /\ kappa d = k /\ beta d = b /\
      generate_k x = kent fudge_theta fudge_phi fudge_psi k b /\
      call_fun call x c
      = (l <- fst (log_likelihood G I d 0 xs fuel c) ;;
         Ok (- l / INR (length xs)),
         snd (log_likelihood G I d 0 xs fuel c)) /\
      (forall lnZ c1, log_normalize G I d fuel c = (Ok lnZ, c1) ->
         call_fun call x c
         = (Ok (- fold_right Rplus 0
                    (map (fun p => log_density d p - lnZ) xs)
                  / INR (length xs)), c1))) /\
  call_constraints call = cons /\
  (feasible (call_constraints call) x <->
     0 <= Rabs fudge_kappa - 2 * Rabs fudge_beta /\
     0 <= fudge_kappa /\ 0 <= fudge_beta) /\
  (feasible (call_constraints call) x ->
     minimum_value_for_kappa <= k - 2 * b /\
     minimum_value_for_kappa <= k /\ 0 <= b /\ spec_feasible x).
Proof.
  destruct x as [[[[th ph] ps] fk] fb]. intros k b call.
  assert (Hfloor : 0 < minimum_value_for_kappa)
    by (unfold minimum_value_for_kappa; lra).
  split; [| split; [| split; [| split]]].
  - intro Hme. unfold kent_mle. rewrite Hme. fold call.
    now destruct (minimize call c).
  - destruct (kent_Ok th ph ps k b) as (d & Hd & Ek & Eb & _).
    exists d. unfold generate_k. fold k b.
    repeat split; try assumption.
    + simpl. unfold minus_log_likelihood, generate_k. fold k b. rewrite Hd.
      now destruct (log_likelihood G I d 0 xs fuel c).
    + intros lnZ c1 Hln. simpl.
      unfold minus_log_likelihood, generate_k. fold k b. rewrite Hd.
      now rewrite (log_likelihood_sum d xs fuel c c1 lnZ Hln).
  - reflexivity.
  - apply (feasible_cons (th, ph, ps, fk, fb)).
  - intro F. apply (feasible_cons (th, ph, ps, fk, fb)) in F.
    destruct F as (F1 & F2 & F3).
    pose proof (Rabs_pos fk). pose proof (Rabs_pos fb).
    unfold spec_feasible. fold k b. unfold k, b. repeat split; lra.
Qed.

End MLEProofs.

(** The sets differ: a negative free_kappa, and a pair within the floor
    of the line kappa = 2 beta, meet the constraints worded on kappa and
    beta but not those handed to the solver. *)
Lemma spec_feasible_not_feasible :
  spec_feasible (0, 0, 0, -1, 0) /\
  (feasible cons (0, 0, 0, -1, 0) -> False) /\
  spec_feasible (0, 0, 0, 0, 4e-7) /\
  (feasible cons (0, 0, 0, 0, 4e-7) -> False).
Proof.
  unfold spec_feasible, minimum_value_for_kappa.
  repeat split.
  - rewrite Rabs_R0, Rabs_left by lra. lra.
  - rewrite Rabs_left by lra. lra.
  - rewrite Rabs_R0. lra.
  - intro F. apply feasible_cons in F. lra.
  - rewrite Rabs_R0, Rabs_pos_eq by lra. lra.
  - rewrite Rabs_R0. lra.
  - rewrite Rabs_pos_eq by lra. lra.
  - intro F. apply feasible_cons in F. rewrite Rabs_R0, Rabs_pos_eq in F by lra.
    lra.
Qed.

(* ------------------------------------------------------------------ *)
(** ** The moment estimator *)

(** *** Matrix algebra on explicit entries *)

Lemma col_MMul (A B : mat3) :
  col0 (MMul A B) = dot A (col0 B) /\
  col1 (MMul A B) = dot A (col1 B) /\
  col2 (MMul A B) = dot A (col2 B).
Proof.
  destruct A as [[[[a00 a01] a02] [[a10 a11] a12]] [[a20 a21] a22]].
  destruct B as [[[[b00 b01] b02] [[b10 b11] b12]] [[b20 b21] b22]].
  repeat split.
Qed.

(** The entries of [MMul(Gt, MMul(S, G))] are the values of the bilinear
    form of S on the columns of G. *)
Lemma congruence_entries (S G : mat3) :
  MMul (transpose G) (MMul S G)
  = ((inner (col0 G) (dot S (col0 G)), inner (col0 G) (dot S (col1 G)),
      inner (col0 G) (dot S (col2 G))),
     (inner (col1 G) (dot S (col0 G)), inner (col1 G) (dot S (col1 G)),
      inner (col1 G) (dot S (col2 G))),
     (inner (col2 G) (dot S (col0 G)), inner (col2 G) (dot S (col1 G)),
      inner (col2 G) (dot S (col2 G)))).
Proof.
  destruct S as [[[[s00 s01] s02] [[s10 s11] s12]] [[s20 s21] s22]].
  destruct G as [[[[g00 g01] g02] [[g10 g11] g12]] [[g20 g21] g22]].
  reflexivity.
Qed.

Lemma bilinear_change_of_basis (S H : mat3) (u w : vec3) :
  inner (dot H u) (dot S (dot H w))
  = inner u (dot (MMul (transpose H) (MMul S H)) w).
Proof.
  destruct S as [[[[s00 s01] s02] [[s10 s11] s12]] [[s20 s21] s22]].
  destruct H as [[[[h00 h01] h02] [[h10 h11] h12]] [[h20 h21] h22]].
  destruct u as [[u0 u1] u2], w as [[w0 w1] w2].
  simpl. ring.
Qed.

(** *** Sums over the sample *)

Lemma inner_vadd_r (g u v : vec3) : inner g (vadd u v) = inner g u + inner g v.
Proof.
  destruct g as [[? ?] ?], u as [[? ?] ?], v as [[? ?] ?]. simpl. ring.
Qed.

Lemma inner_vdiv_r (g v : vec3) (c : R) : inner g (vdiv v c) = inner g v / c.
Proof.
  destruct g as [[? ?] ?], v as [[? ?] ?]. simpl. unfold Rdiv. ring.
Qed.

Lemma inner_vdiv_l (g v : vec3) (c : R) : inner (vdiv v c) g = inner v g / c.
Proof.
  destruct g as [[? ?] ?], v as [[? ?] ?]. simpl. unfold Rdiv. ring.
Qed.

Lemma dot_mdiv (M : mat3) (g : vec3) (c : R) :
  dot (mdiv M c) g = vdiv (dot M g) c.
Proof.
  destruct M as [[r0 r1] r2]. simpl.
  now rewrite !inner_vdiv_l.
Qed.

Lemma inner_sum (g : vec3) (xs : list vec3) :
  inner g (fold_right vadd vzero xs) = sum_over (inner g) xs.
Proof.
  unfold sum_over. induction xs as [| x xs IH]; simpl.
  - destruct g as [[? ?] ?]. simpl. ring.
  - now rewrite inner_vadd_r, IH.
Qed.

Lemma bilinear_outer (g h x : vec3) :
  inner g (dot (outer x x) h) = inner g x * inner h x.
Proof.
  destruct g as [[? ?] ?], h as [[? ?] ?], x as [[? ?] ?]. simpl. ring.
Qed.

Lemma dot_madd (A B : mat3) (h : vec3) :
  dot (madd A B) h = vadd (dot A h) (dot B h).
Proof.
  destruct A as [[[[a00 a01] a02] [[a10 a11] a12]] [[a20 a21] a22]].
  destruct B as [[[[b00 b01] b02] [[b10 b11] b12]] [[b20 b21] b22]].
  destruct h as [[? ?] ?]. simpl. repeat apply (f_equal2 pair); ring.
Qed.

Lemma bilinear_sum_outer (g h : vec3) (xs : list vec3) :
  inner g (dot (fold_right madd mzero (map (fun x => outer x x) xs)) h)
  = sum_over (fun x => inner g x * inner h x) xs.
Proof.
  unfold sum_over. induction xs as [| x xs IH]; simpl.
  - destruct g as [[? ?] ?], h as [[? ?] ?]. simpl. ring.
  - now rewrite dot_madd, inner_vadd_r, bilinear_outer, IH.
Qed.

(** The bilinear form of the second-moment matrix. *)
Lemma bilinear_second_moment (g h : vec3) (xs : list vec3) :
  inner g (dot (average_mat (map (fun x => outer x x) xs)) h)
  = sum_over (fun x => inner g x * inner h x) xs / INR (length xs).
Proof.
  unfold average_mat.
  now rewrite dot_mdiv, inner_vdiv_r, bilinear_sum_outer, length_map.
Qed.

Lemma sum_over_nonneg {A : Type} (f : A -> R) (xs : list A) :
  (forall x, 0 <= f x) -> 0 <= sum_over f xs.
Proof.
  intro H. unfold sum_over. induction xs as [| x xs IH]; simpl; [lra |].
  specialize (H x). lra.
Qed.

Lemma sum_over_le_length {A : Type} (f : A -> R) (P : A -> Prop)
    (xs : list A) :
  (forall x, P x -> f x <= 1) -> Forall P xs ->
  sum_over f xs <= INR (length xs).
Proof.
  intros H F. unfold sum_over.
  induction F as [| x xs Hx F IH]; [simpl; lra |].
  cbn [map fold_right length]. rewrite S_INR. specialize (H x Hx). lra.
Qed.

Lemma sum_over_plus {A : Type} (f g : A -> R) (xs : list A) :
  sum_over (fun x => f x + g x) xs = sum_over f xs + sum_over g xs.
Proof.
  unfold sum_over. induction xs as [| x xs IH]; simpl; [ring |].
  rewrite IH. ring.
Qed.

(** Sum of squared deviations from any [m]. *)
Lemma sum_over_deviation {A : Type} (f : A -> R) (m : R) (xs : list A) :
  sum_over (fun x => (f x - m) ^ 2) xs
  = sum_over (fun x => f x * f x) xs - 2 * m * sum_over f xs
    + INR (length xs) * m ^ 2.
Proof.
  unfold sum_over. induction xs as [| x xs IH].
  - simpl. ring.
  - cbn [map fold_right length]. rewrite S_INR, IH. ring.
Qed.

(** Cauchy-Schwarz against the constant sequence. *)
Lemma sum_over_square_le {A : Type} (f : A -> R) (xs : list A) :
  xs <> [] ->
  (sum_over f xs) ^ 2 / INR (length xs) <= sum_over (fun x => f x * f x) xs.
Proof.
  intro Hne.
  assert (HN : 0 < INR (length xs)).
  { destruct xs; [contradiction |]. apply lt_0_INR. simpl. lia. }
  pose proof (sum_over_deviation f (sum_over f xs / INR (length xs)) xs) as E.
  assert (0 <= sum_over (fun x => (f x - sum_over f xs / INR (length xs)) ^ 2) xs)
    by (apply sum_over_nonneg; intro; apply pow2_ge_0).
  replace (sum_over f xs ^ 2 / INR (length xs))
    with (2 * (sum_over f xs / INR (length xs)) * sum_over f xs
          - INR (length xs) * (sum_over f xs / INR (length xs)) ^ 2)
    by (field; lra).
  lra.
Qed.

Lemma sum_over_ext {A : Type} (f g : A -> R) (xs : list A) :
  (forall x, f x = g x) -> sum_over f xs = sum_over g xs.
Proof.
  intro H. unfold sum_over. induction xs as [| x xs IH]; simpl; [reflexivity |].
  now rewrite H, IH.
Qed.

Lemma second_moment_symmetric (g h : vec3) (xs : list vec3) :
  inner g (dot (average_mat (map (fun x => outer x x) xs)) h)
  = inner h (dot (average_mat (map (fun x => outer x x) xs)) g).
Proof.
  rewrite !bilinear_second_moment. f_equal.
  apply sum_over_ext. intro. ring.
Qed.

(** *** Eigenvectors and the frame they complete *)

Lemma lower_block_form (B : mat3) (u0 u1 w0 w1 : R) :
  inner (0, u0, u1) (dot B (0, w0, w1))
  = let '((b11, b12), (b21, b22)) := lower_block B in
    u0 * (b11 * w0 + b12 * w1) + u1 * (b21 * w0 + b22 * w1).
Proof.
  destruct B as [[[[b00 b01] b02] [[b10 b11] b12]] [[b20 b21] b22]].
  simpl. ring.
Qed.

Lemma lower_block_entries (B : mat3) :
  lower_block B
  = ((inner (0, 1, 0) (dot B (0, 1, 0)), inner (0, 1, 0) (dot B (0, 0, 1))),
     (inner (0, 0, 1) (dot B (0, 1, 0)), inner (0, 0, 1) (dot B (0, 0, 1)))).
Proof.
  destruct B as [[[[b00 b01] b02] [[b10 b11] b12]] [[b20 b21] b22]].
  simpl. repeat apply (f_equal2 pair); ring.
Qed.

(** The swap that puts the larger eigenvalue first keeps the contract. *)
Lemma descending_contract (M : mat2) (res : (R * R) * mat2) :
  eig_contract M res ->
  exists l0 l1 V,
    (if Rlt_dec (fst (fst res)) (snd (fst res))
     then ((snd (fst res), fst (fst res)), reverse_columns (snd res))
     else (fst res, snd res)) = ((l0, l1), V) /\
    eig_contract M ((l0, l1), V) /\ l1 <= l0.
Proof.
  destruct M as [[m00 m01] [m10 m11]].
  destruct res as [[l0 l1] [[v00 v01] [v10 v11]]]. simpl.
  intros (E1 & E2 & E3 & E4 & N0 & N1 & O).
  destruct (Rlt_dec l0 l1) as [Hlt | Hge].
  - exists l1, l0, ((v01, v00), (v11, v10)). simpl.
    repeat split; try assumption; lra.
  - exists l0, l1, ((v00, v01), (v10, v11)). simpl.
    repeat split; try assumption; lra.
Qed.

Lemma eigen_forms (B : mat3) (l0 l1 : R) (V : mat2) :
  eig_contract (lower_block B) ((l0, l1), V) ->
  inner (col1 (embed_block V)) (dot B (col1 (embed_block V))) = l0 /\
  inner (col2 (embed_block V)) (dot B (col2 (embed_block V))) = l1.
Proof.
  destruct V as [[v00 v01] [v10 v11]].
  unfold col1, col2, embed_block. cbn [transpose].
  rewrite !lower_block_form.
  destruct (lower_block B) as [[b11 b12] [b21 b22]]. simpl.
  intros (E1 & E2 & E3 & E4 & N0 & N1 & O).
  rewrite E1, E2, E3, E4. split.
  - replace (v00 * (l0 * v00) + v10 * (l0 * v10))
      with (l0 * (v00 * v00 + v10 * v10)) by ring.
    rewrite N0. ring.
  - replace (v01 * (l1 * v01) + v11 * (l1 * v11))
      with (l1 * (v01 * v01 + v11 * v11)) by ring.
    rewrite N1. ring.
Qed.

(** [MMul(H, K)] is a frame whose first axis is the first column of H. *)
Lemma estimator_frame (th ph : R) (M : mat2) (l0 l1 : R) (V : mat2) :
  eig_contract M ((l0, l1), V) ->
  let G := MMul (create_matrix_H th ph) (embed_block V) in
  col0 G = (cos th, sin th * cos ph, sin th * sin ph) /\
  orthonormal2 (col0 G) (col1 G) /\
  inner (col1 G) (col2 G) = 0 /\ inner (col2 G) (col0 G) = 0.
Proof.
  destruct M as [[m00 m01] [m10 m11]], V as [[v00 v01] [v10 v11]]. simpl.
  intros (_ & _ & _ & _ & N0 & N1 & O).
  unfold orthonormal2, unit_vector, MMul, col0, col1, col2. simpl.
  pose proof (sin2_cos2 th) as Tth. pose proof (sin2_cos2 ph) as Tph.
  unfold Rsqr in *.
  abstract_trig.
  repeat split; try (repeat apply (f_equal2 pair)); nsatz.
Qed.

Lemma norm_sqr (v : vec3) : norm v * norm v = inner v v.
Proof.
  unfold norm. apply sqrt_sqrt.
  destruct v as [[x y] z]. simpl. nra.
Qed.

Lemma unit_vdiv_norm (v : vec3) : norm v <> 0 -> unit_vector (vdiv v (norm v)).
Proof.
  intro H. unfold unit_vector.
  rewrite inner_vdiv_l, inner_vdiv_r, <- norm_sqr. field. exact H.
Qed.

Lemma average_vec_sum (xs : list vec3) :
  xs <> [] ->
  fold_right vadd vzero xs = vscale (INR (length xs)) (average_vec xs).
Proof.
  intro Hne.
  assert (HN : INR (length xs) <> 0).
  { destruct xs; [contradiction |]. apply not_0_INR. simpl. lia. }
  unfold average_vec. destruct (fold_right vadd vzero xs) as [[x y] z].
  simpl. repeat apply (f_equal2 pair); field; exact HN.
Qed.

Lemma inner_vscale_r (g v : vec3) (c : R) :
  inner g (vscale c v) = c * inner g v.
Proof. destruct g as [[? ?] ?], v as [[? ?] ?]. simpl. ring. Qed.

(* ------------------------------------------------------------------ *)
(** ** Instances *)

Lemma standard_kent_init (k b : R) :
  init (1, 0, 0) (0, 1, 0) (0, 0, 1) k b = Ok (standard_kent k b).
Proof.
  unfold init, standard_kent.
  now destruct (gammas_to_spherical_coordinates (1, 0, 0) (0, 1, 0))
    as [[th ph] ps].
Qed.

Lemma standard_kent_fields (k b : R) :
  kappa (standard_kent k b) = k /\ beta (standard_kent k b) = b /\
  gamma1 (standard_kent k b) = (1, 0, 0) /\
  gamma2 (standard_kent k b) = (0, 1, 0) /\
  gamma3 (standard_kent k b) = (0, 0, 1).
Proof.
  unfold standard_kent.
  now destruct (gammas_to_spherical_coordinates (1, 0, 0) (0, 1, 0))
    as [[th ph] ps].
Qed.

Lemma standard_kent_frame (k b : R) :
  constructed (standard_kent k b) /\ orthonormal_frame (standard_kent k b).
Proof.
  split.
  - exists (1, 0, 0), (0, 1, 0), (0, 0, 1), k, b. apply standard_kent_init.
  - unfold orthonormal_frame, orthonormal2, unit_vector.
    destruct (standard_kent_fields k b) as (_ & _ & -> & -> & ->). simpl.
    repeat split; ring.
Qed.

(** *** The closed-form solver meets the contract *)

Lemma eig_closed_form_contract (M : mat2) :
  symmetric2 M -> eig_contract M (eig_closed_form M).
Proof.
  destruct M as [[a b] [b' d]]. unfold symmetric2. intros <-.
  unfold eig_closed_form.
  destruct (Req_dec_T b 0) as [-> | Hb]; [simpl; repeat split; ring |].
  set (m := (a + d) / 2).
  set (delta := sqrt (((a - d) / 2) ^ 2 + b ^ 2)).
  assert (Hd : delta * delta = ((a - d) / 2) ^ 2 + b ^ 2).
  { apply sqrt_sqrt. pose proof (pow2_ge_0 ((a - d) / 2)).
    pose proof (pow2_ge_0 b). lra. }
  assert (Hb2 : 0 < b ^ 2) by (apply pow2_gt_0 || nra).
  set (l0 := m + delta). set (l1 := m - delta).
  set (n0 := sqrt (b ^ 2 + (l0 - a) ^ 2)).
  set (n1 := sqrt (b ^ 2 + (l1 - a) ^ 2)).
  assert (Hn0 : n0 * n0 = b ^ 2 + (l0 - a) ^ 2).
  { apply sqrt_sqrt. pose proof (pow2_ge_0 (l0 - a)). lra. }
  assert (Hn1 : n1 * n1 = b ^ 2 + (l1 - a) ^ 2).
  { apply sqrt_sqrt. pose proof (pow2_ge_0 (l1 - a)). lra. }
  assert (N0 : n0 <> 0).
  { intro Z. rewrite Z in Hn0. pose proof (pow2_ge_0 (l0 - a)). lra. }
  assert (N1 : n1 <> 0).
  { intro Z. rewrite Z in Hn1. pose proof (pow2_ge_0 (l1 - a)). lra. }
  assert (C0 : b ^ 2 + d * (l0 - a) = l0 * (l0 - a)).
  { unfold l0, m. nra. }
  assert (C1 : b ^ 2 + d * (l1 - a) = l1 * (l1 - a)).
  { unfold l1, m. nra. }
  assert (Co : b ^ 2 + (l0 - a) * (l1 - a) = 0).
  { unfold l0, l1, m. nra. }
  simpl. repeat split.
  - field. exact N0.
  - replace (b * (b / n0) + d * ((l0 - a) / n0))
      with ((b ^ 2 + d * (l0 - a)) / n0) by (field; exact N0).
    rewrite C0. field. exact N0.
  - field. exact N1.
  - replace (b * (b / n1) + d * ((l1 - a) / n1))
      with ((b ^ 2 + d * (l1 - a)) / n1) by (field; exact N1).
    rewrite C1. field. exact N1.
  - replace (b / n0 * (b / n0) + (l0 - a) / n0 * ((l0 - a) / n0))
      with ((b ^ 2 + (l0 - a) ^ 2) / (n0 * n0)) by (field; exact N0).
    rewrite Hn0. field. rewrite <- Hn0. now apply Rmult_integral_contrapositive.
  - replace (b / n1 * (b / n1) + (l1 - a) / n1 * ((l1 - a) / n1))
      with ((b ^ 2 + (l1 - a) ^ 2) / (n1 * n1)) by (field; exact N1).
    rewrite Hn1. field. rewrite <- Hn1. now apply Rmult_integral_contrapositive.
  - replace (b / n0 * (b / n1) + (l0 - a) / n0 * ((l1 - a) / n1))
      with ((b ^ 2 + (l0 - a) * (l1 - a)) / (n0 * n1)) by (field; auto).
    rewrite Co. field. auto.
Qed.

(** *** The series on a terminating example *)


Lemma Rpower_one (y : R) : Rpower 1 y = 1.
Proof. unfold Rpower. now rewrite ln_1, Rmult_0_r, exp_0. Qed.

Lemma cutoff_term (j : nat) :
  kent_series_term unit_gamma cutoff_bessel 2 1 j
  = if Rlt_dec (2 * INR j + 0.5) 10 then 1 else 0.
Proof.
  unfold kent_series_term, unit_gamma, cutoff_bessel.
  replace (2 / 2) with 1 by lra.
  rewrite pow1, Rpower_one.
  destruct (Rlt_dec (2 * INR j + 0.5) 10); lra.
Qed.

Lemma cutoff_partial_sum :
  partial_sum (kent_series_term unit_gamma cutoff_bessel 2 1) 6 = 5
  /\ kent_series_term unit_gamma cutoff_bessel 2 1 5 = 0.
Proof.
  simpl partial_sum. rewrite !cutoff_term. simpl INR.
  repeat match goal with
         | |- context [Rlt_dec ?x ?y] => destruct (Rlt_dec x y); try lra
         end.
Qed.

Lemma cutoff_first_stop :
  first_stop (kent_series_term unit_gamma cutoff_bessel 2 1) 6.
Proof.
  destruct cutoff_partial_sum as [S6 T5].
  split.
  - split; [lia |]. simpl pred. rewrite S6, T5, Rabs_R0, Rabs_pos_eq; lra.
  - intros m Hm [H5 _]. lia.
Qed.

Lemma normalize_series_sum_witness :
  let d := standard_kent 2 1 in
  let t := kent_series_term unit_gamma cutoff_bessel (kappa d) (beta d) in
  (forall j : nat, unit_gamma (INR j + 1) <> 0) /\
  0 < kappa d /\ 0 < beta d /\
  cache_valid unit_gamma cutoff_bessel [] /\
  first_stop t 6 /\ (6 <= 6)%nat /\
  normalize unit_gamma cutoff_bessel true d 6 []
  = (Ok (2 * PI * 5, Some 6%nat), cache_set [] (kappa d) (beta d) (2 * PI * 5)) /\
  normalize unit_gamma cutoff_bessel true d 5 [] = (OutOfFuel, []).
Proof.
  intros d t.
  destruct (standard_kent_fields 2 1) as (Hk & Hb & _). fold d in Hk, Hb.
  assert (HG : forall j : nat, unit_gamma (INR j + 1) <> 0)
    by (intro; exact R1_neq_R0).
  assert (Hkp : 0 < kappa d) by (rewrite Hk; lra).
  assert (Hbp : 0 < beta d) by (rewrite Hb; lra).
  assert (Hfs : first_stop t 6)
    by (unfold t; rewrite Hk, Hb; exact cutoff_first_stop).
  assert (Hsum : partial_sum t 6 = 5)
    by (unfold t; rewrite Hk, Hb; apply cutoff_partial_sum).
  pose proof (normalize_series_sum unit_gamma cutoff_bessel HG d [] 6 6
                Hkp Hbp (cache_valid_nil unit_gamma cutoff_bessel) Hfs
                (le_n 6)) as H.
  cbv zeta in H. fold t in H. rewrite Hsum in H.
  destruct H as (_ & H). destruct (H eq_refl) as [Hrun Hless].
  split; [exact HG | split; [exact Hkp | split; [exact Hbp |]]].
  split; [apply cache_valid_nil | split; [exact Hfs | split; [lia |]]].
  split; [exact Hrun | apply Hless; lia].
Defined.

(** *** The closed form with the half-integer values *)


Lemma normalize_beta_zero_closed_form_witness :
  let d := standard_kent 3 0 in
  0 < kappa d /\ beta d = 0 /\
  half_integer_gamma 1 = 1 /\ half_integer_gamma 0.5 = sqrt PI /\
  half_order_bessel 0.5 (kappa d)
  = sqrt (2 / (PI * kappa d)) * sinh (kappa d) /\
  cache_valid half_integer_gamma half_order_bessel [] /\
  exists c',
    normalize half_integer_gamma half_order_bessel false d 0 []
    = (Ok (4 * PI * sinh 3 / 3, None), c').
Proof.
  intro d.
  destruct (standard_kent_fields 3 0) as (Hk & Hb & _). fold d in Hk, Hb.
  assert (G1 : half_integer_gamma 1 = 1).
  { unfold half_integer_gamma. destruct (Req_dec_T 1 1); [reflexivity | lra]. }
  assert (Gh : half_integer_gamma 0.5 = sqrt PI).
  { unfold half_integer_gamma. destruct (Req_dec_T 0.5 1); [lra | reflexivity]. }
  assert (Hkp : 0 < kappa d) by (rewrite Hk; lra).
  destruct (normalize_beta_zero_closed_form half_integer_gamma
              half_order_bessel d [] 0 Hkp Hb G1 Gh eq_refl
              (cache_valid_nil half_integer_gamma half_order_bessel))
    as ((c' & Hrun & _) & _ & Hval & _).
  split; [exact Hkp | split; [exact Hb | split; [exact G1 |]]].
  split; [exact Gh | split; [reflexivity |]].
  split; [apply cache_valid_nil |].
  exists c'. rewrite Hrun, Hval, Hk. reflexivity.
Defined.

(** *** The maximum on the standard frame, and off an orthonormal frame *)

Lemma log_pdf_max_is_maximum_witness :
  let d := standard_kent 2 2 in
  constructed d /\ orthonormal_frame d /\ 0 <= kappa d /\ 0 <= beta d /\
  log_pdf_max unit_gamma cutoff_bessel d false 0 [] = (Ok (5 / 2), []) /\
  forall x : vec3, unit_vector x -> log_density d x <= 5 / 2.
Proof.
  intro d.
  destruct (standard_kent_fields 2 2) as (Hk & Hb & _). fold d in Hk, Hb.
  destruct (standard_kent_frame 2 2) as [Hc Ho]. fold d in Hc, Ho.
  assert (Hkp : 0 <= kappa d) by (rewrite Hk; lra).
  assert (Hbp : 0 <= beta d) by (rewrite Hb; lra).
  pose proof (log_pdf_max_is_maximum unit_gamma cutoff_bessel d 0 [] Hc Ho
                Hkp Hbp) as H.
  cbv zeta in H. rewrite Hk, Hb in H.
  destruct (Req_dec_T 2 0) as [E | _]; [lra |].
  replace (Rmin (2 / (2 * 2)) 1) with (1 / 2) in H
    by (unfold Rmin; destruct (Rle_dec (2 / (2 * 2)) 1); lra).
  replace (2 * (1 / 2) + 2 * (1 - (1 / 2) ^ 2)) with (5 / 2) in H by lra.
  destruct H as (Hmax & Hle & _).
  split; [exact Hc | split; [exact Ho | split; [exact Hkp |]]].
  split; [exact Hbp | split; [exact Hmax |]].
  intros x Ux. apply (Hle x Ux).
Defined.

(** With gamma1 of length 2 the density at (1, 0, 0) is twice the value
    [log_pdf_max] reports. *)
Lemma log_pdf_exceeds_max_on_non_unit_axes :
  exists d,
    kent2 (2, 0, 0) (0, 1, 0) (0, 0, 1) 1 0 = Ok d /\
    0 <= kappa d /\ 0 <= beta d /\ unit_vector (1, 0, 0) /\
    log_pdf_max unit_gamma cutoff_bessel d false 0 [] = (Ok 1, []) /\
    log_pdf unit_gamma cutoff_bessel d 0 (1, 0, 0) false 0 [] = (Ok 2, []).
Proof.
  destruct (init_Ok (2, 0, 0) (0, 1, 0) (0, 0, 1) 1 0)
    as (d & Hd & E1 & E2 & E3 & Ek & Eb & _).
  exists d. split.
  { rewrite kent2_orthogonal; [exact Hd | simpl; ring ..]. }
  rewrite Ek, Eb. split; [lra | split; [lra | split]].
  { unfold unit_vector. simpl. ring. }
  split.
  - pose proof (log_pdf_max_unnormalized unit_gamma cutoff_bessel d 0 []) as H.
    cbv zeta in H. rewrite Ek, Eb in H.
    destruct (Req_dec_T 0 0) as [_ | N]; [| contradiction].
    rewrite H. do 2 f_equal. ring.
  - rewrite (log_pdf_unnormalized unit_gamma cutoff_bessel d 0 (1, 0, 0)).
    unfold nd_map, log_density. rewrite E1, E2, E3, Ek, Eb. simpl.
    do 2 f_equal. ring.
Qed.

(** *** The model on small inputs *)

Example kent2_rejects_parallel_axes :
  kent2 (1, 0, 0) (1, 0, 0) (0, 0, 1) 1 0 = Raise AssertionError.
Proof.
  unfold kent2. simpl inner.
  replace (1 * 1 + 0 * 0 + 0 * 0) with 1 by ring.
  rewrite Rabs_R1, Rltb_false by lra. reflexivity.
Qed.

Example log_pdf_on_a_batch_of_shape_2_2_3 :
  log_pdf unit_gamma cutoff_bessel (standard_kent 2 1) 2
    [[(1, 0, 0); (0, 1, 0)]; [(0, 0, 1); (1, 0, 0)]] false 0 []
  = (Ok [[2; 1]; [-1; 2]], []).
Proof.
  rewrite log_pdf_unnormalized. unfold log_density.
  destruct (standard_kent_fields 2 1) as (-> & -> & -> & -> & ->).
  simpl. repeat (f_equal; try ring).
Qed.

(** The doctest value 3.18309886184 is the exponential of this number:
    20 exp(20) / (4 pi sinh 20). *)
Example log_pdf_at_the_mode :
  fst (log_pdf half_integer_gamma half_order_bessel (standard_kent 20 0) 0
         (1, 0, 0) true 0 [])
  = Ok (20 - ln (4 * PI * sinh 20 / 20)).
Proof.
  destruct (standard_kent_fields 20 0) as (Hk & Hb & Hg1 & Hg2 & Hg3).
  assert (G1 : half_integer_gamma 1 = 1).
  { unfold half_integer_gamma. destruct (Req_dec_T 1 1); [reflexivity | lra]. }
  assert (Gh : half_integer_gamma 0.5 = sqrt PI).
  { unfold half_integer_gamma. destruct (Req_dec_T 0.5 1); [lra | reflexivity]. }
  assert (HG : half_integer_gamma 1 <> 0) by (rewrite G1; lra).
  assert (Hpos : 0 < 4 * PI * sinh 20 / 20).
  { pose proof PI_RGT_0.
    assert (0 < sinh 20) by (rewrite <- sinh_0; apply sinh_lt; lra).
    apply Rdiv_lt_0_compat; [nra | lra]. }
  rewrite log_pdf_normalized. unfold log_normalize.
  rewrite normalize_miss by reflexivity.
  rewrite Hk, Hb.
  rewrite (normalize_compute_beta_zero half_integer_gamma half_order_bessel
             20 0) by (lra || exact HG).
  rewrite (closed_form_value half_integer_gamma half_order_bessel 20)
    by (lra || assumption || reflexivity).
  cbn [bind fst snd]. rewrite np_log_pos by exact Hpos.
  cbn [bind fst snd nd_map]. unfold log_density.
  rewrite Hk, Hb, Hg1, Hg2, Hg3. simpl inner. f_equal. ring.
Qed.

(* ------------------------------------------------------------------ *)
(** ** The program in binary64 *)

Module Replay.

Import PrimFloat.

Local Open Scope float_scope.


(** C8: [kent_me] on the two rows (1, 0, 0) and (1, 1E-9, 0), both of norm
    1 in binary64.  The mean resultant length r1 rounds to 1 and r2 is
    5E-19, so 2 - 2 r1 - r2 cancels to -5E-19: the estimate of kappa is 0
    and is replaced by the floor 1E-6, while beta, which has no guard, is
    returned as -2E18.  The object violates beta >= 0. *)
Theorem kent_me_leaves_the_domain :
  let xs := [(1, 0, 0); (1, Float64.one_billionth, 0)] in
  Forall (fun x => Float64.fnorm x = 1) xs /\
  exists d,
    Float64.kent_me Float64.small_angles Float64.eig_of_diagonal xs = Some d /\
    Float64.kappa d = Float64.minimum_value_for_kappa /\
    Float64.beta d = -0x1.bc16d674ec7ffp+60 /\
    (0 <=? Float64.beta d) = false.
Proof.
  split.
  - repeat constructor.
  - eexists. split; [vm_compute; reflexivity |]. vm_compute. repeat split.
Qed.

End Replay.

(* ================================================================== *)
(** * Further properties: frames and angles *)

(** [arctan2] lies in (-PI, PI]. *)
Lemma arctan2_range (y x : R) : - PI < arctan2 y x <= PI.
Proof.
  unfold arctan2. pose proof PI_RGT_0 as Hpi.
  pose proof (atan_bound (y / x)) as Hb.
  destruct (Rlt_dec 0 x) as [Hx | Hx]; [lra |].
  destruct (Rlt_dec x 0) as [Hx' | Hx'].
  - destruct (Rle_dec 0 y) as [Hy | Hy].
    + assert (atan (y / x) <= 0); [| lra].
      destruct (Req_dec_T y 0) as [-> | Hy0].
      * unfold Rdiv. rewrite Rmult_0_l, atan_0. lra.
      * replace (y / x) with (- (y * / (- x))) by (field; lra).
        rewrite atan_opp.
        assert (0 < atan (y * / (- x))); [| lra].
        rewrite <- atan_0. apply atan_increasing.
        apply Rmult_lt_0_compat; [lra |]. apply Rinv_0_lt_compat. lra.
    + assert (0 < atan (y / x)); [| lra].
      rewrite <- atan_0. apply atan_increasing.
      replace (y / x) with ((- y) * / (- x)) by (field; lra).
      apply Rmult_lt_0_compat; [lra |]. apply Rinv_0_lt_compat. lra.
  - destruct (Rlt_dec 0 y); [lra |]. destruct (Rlt_dec y 0); lra.
Qed.

(** An angle of (-PI, PI] is determined by its cosine and sine. *)
Lemma angle_unique (a b : R) :
  - PI < a <= PI -> - PI < b <= PI ->
  cos a = cos b -> sin a = sin b -> a = b.
Proof.
  intros Ha Hb Hc Hs.
  destruct (Rle_dec 0 a) as [Pa | Na], (Rle_dec 0 b) as [Pb | Nb].
  - apply cos_inj; lra.
  - exfalso. pose proof (sin_ge_0 a Pa (proj2 Ha)).
    pose proof (sin_lt_0_var b (proj1 Hb)). lra.
  - exfalso. pose proof (sin_ge_0 b Pb (proj2 Hb)).
    pose proof (sin_lt_0_var a (proj1 Ha)). lra.
  - apply Ropp_eq_reg. apply cos_inj; try lra. now rewrite !cos_neg.
Qed.

(** [arctan2] inverts polar coordinates. *)
Lemma arctan2_of_polar (r t : R) :
  0 < r -> - PI < t <= PI -> arctan2 (r * sin t) (r * cos t) = t.
Proof.
  intros Hr Ht.
  destruct (arctan2_polar (r * cos t) (r * sin t)) as [Hc Hs].
  assert (E : sqrt (r * cos t * (r * cos t) + r * sin t * (r * sin t)) = r).
  { replace (r * cos t * (r * cos t) + r * sin t * (r * sin t))
      with (r * r * ((sin t)² + (cos t)²)) by (unfold Rsqr; ring).
    rewrite sin2_cos2, Rmult_1_r. apply sqrt_square. lra. }
  rewrite E in Hc, Hs.
  apply angle_unique; [apply arctan2_range | exact Ht | |].
  - apply Rmult_eq_reg_l with r; lra.
  - apply Rmult_eq_reg_l with r; lra.
Qed.

Lemma H_orthogonal (th ph : R) :
  MMul (create_matrix_H th ph) (create_matrix_Ht th ph) = eye /\
  MMul (create_matrix_Ht th ph) (create_matrix_H th ph) = eye.
Proof.
  unfold create_matrix_Ht, create_matrix_H, MMul, eye. simpl.
  pose proof (sin2_cos2 th) as Tth. pose proof (sin2_cos2 ph) as Tph.
  unfold Rsqr in *. abstract_trig.
  split; repeat apply (f_equal2 pair); nsatz.
Qed.

Lemma K_orthogonal (ps : R) :
  MMul (create_matrix_K ps) (create_matrix_Kt ps) = eye /\
  MMul (create_matrix_Kt ps) (create_matrix_K ps) = eye.
Proof.
  unfold create_matrix_Kt, create_matrix_K, MMul, eye. simpl.
  pose proof (sin2_cos2 ps) as Tps. unfold Rsqr in *. abstract_trig.
  split; repeat apply (f_equal2 pair); nsatz.
Qed.

Lemma Gamma_orthogonal (th ph ps : R) :
  MMul (create_matrix_Gamma th ph ps) (create_matrix_Gammat th ph ps) = eye /\
  MMul (create_matrix_Gammat th ph ps) (create_matrix_Gamma th ph ps) = eye.
Proof.
  unfold create_matrix_Gammat, create_matrix_Gamma, create_matrix_H,
    create_matrix_K, MMul, eye. simpl.
  pose proof (sin2_cos2 th) as Tth. pose proof (sin2_cos2 ph) as Tph.
  pose proof (sin2_cos2 ps) as Tps. unfold Rsqr in *. abstract_trig.
  split; repeat apply (f_equal2 pair); nsatz.
Qed.

(** The frame built from angles, in closed form. *)
Lemma gammas_closed_form (th ph ps : R) :
  spherical_coordinates_to_gammas th ph ps
  = ((cos th, sin th * cos ph, sin th * sin ph),
     (- sin th * cos ps, cos th * cos ph * cos ps - sin ph * sin ps,
      cos th * sin ph * cos ps + cos ph * sin ps),
     (sin th * sin ps, - cos th * cos ph * sin ps - sin ph * cos ps,
      - cos th * sin ph * sin ps + cos ph * cos ps)).
Proof.
  unfold spherical_coordinates_to_gammas, create_matrix_Gamma, MMul, col0, col1,
    col2, create_matrix_H, create_matrix_K.
  simpl. repeat apply (f_equal2 pair); ring.
Qed.

(** X1: for all angles and parameters [kent] returns an object; its first
    axis is (cos theta, sin theta cos phi, sin theta sin phi), its three
    axes are the columns of [create_matrix_Gamma], they are of unit length
    and pairwise orthogonal, and the third is the cross product of the
    first two. *)
Theorem kent_frame_is_orthonormal (th ph ps k b : R) :
  exists d,
    kent th ph ps k b = Ok d /\ kappa d = k /\ beta d = b /\
    of_columns (gamma1 d) (gamma2 d) (gamma3 d) = create_matrix_Gamma th ph ps /\
    gamma1 d = (cos th, sin th * cos ph, sin th * sin ph) /\
    orthonormal_frame d /\
    gamma3 d = cross (gamma1 d) (gamma2 d).
Proof.
  destruct (kent_Ok th ph ps k b) as (d & Hd & Hk & Hb & Hg).
  exists d. split; [exact Hd |]. split; [exact Hk |]. split; [exact Hb |].
  pose proof (angles_frame th ph ps) as F. rewrite <- Hg in F.
  destruct F as (O12 & E3 & U3 & O23 & O31).
  split; [| split; [| split]].
  - pose proof (f_equal (fun t => of_columns (fst (fst t)) (snd (fst t)) (snd t)) Hg)
      as E.
    cbn [fst snd] in E. rewrite E.
    unfold spherical_coordinates_to_gammas, create_matrix_Gamma, MMul, col0,
      col1, col2, of_columns, create_matrix_H, create_matrix_K.
    reflexivity.
  - rewrite gammas_closed_form in Hg. now inversion Hg.
  - unfold orthonormal_frame. auto.
  - exact E3.
Qed.

(** X2: the transposed builders give the inverse matrices: H Ht = Ht H = 1,
    K Kt = Kt K = 1 and Gamma Gammat = Gammat Gamma = 1, for all angles. *)
Theorem transposed_builders_are_inverses (th ph ps : R) :
  (MMul (create_matrix_H th ph) (create_matrix_Ht th ph) = eye /\
   MMul (create_matrix_Ht th ph) (create_matrix_H th ph) = eye) /\
  (MMul (create_matrix_K ps) (create_matrix_Kt ps) = eye /\
   MMul (create_matrix_Kt ps) (create_matrix_K ps) = eye) /\
  (MMul (create_matrix_Gamma th ph ps) (create_matrix_Gammat th ph ps) = eye /\
   MMul (create_matrix_Gammat th ph ps) (create_matrix_Gamma th ph ps) = eye).
Proof.
  split; [apply H_orthogonal | split; [apply K_orthogonal | apply Gamma_orthogonal]].
Qed.

(** The angles read back from the frame of the angles, away from the
    poles. *)
Lemma angles_roundtrip (th ph ps : R) :
  0 < th < PI -> - PI < ph <= PI -> - PI < ps <= PI ->
  let '(g1, g2, _) := spherical_coordinates_to_gammas th ph ps in
  gammas_to_spherical_coordinates g1 g2 = (th, ph, ps).
Proof.
  intros Hth Hph Hps. rewrite gammas_closed_form.
  unfold gammas_to_spherical_coordinates, gamma1_to_spherical_coordinates.
  assert (Eth : arccos (cos th) = th) by (apply acos_cos; lra).
  assert (Eph : arctan2 (sin th * sin ph) (sin th * cos ph) = ph).
  { apply arctan2_of_polar; [apply sin_gt_0; lra | exact Hph]. }
  rewrite Eth, Eph.
  unfold create_matrix_Ht, create_matrix_H, MMul_col. simpl.
  assert (Eps : arctan2 (1 * sin ps) (1 * cos ps) = ps)
    by (apply arctan2_of_polar; lra).
  match goal with
  | |- (_, _, arctan2 ?y ?x) = _ =>
      replace y with (1 * sin ps); [replace x with (1 * cos ps) |]
  end.
  - now rewrite Eps.
  - pose proof (sin2_cos2 th) as Tth. pose proof (sin2_cos2 ph) as Tph.
    unfold Rsqr in *. clear Eth Eph Eps. abstract_trig. nsatz.
  - pose proof (sin2_cos2 th) as Tth. pose proof (sin2_cos2 ph) as Tph.
    unfold Rsqr in *. clear Eth Eph Eps. abstract_trig. nsatz.
Qed.

(** X3: clear of the poles [kent] reports its angles.  Built from angles
    with 0 < theta < pi and sin theta >= 0.01 (theta at least 0.57 degrees
    from both poles, where the arccos of the cosine returns theta up to
    rounding), phi in (-pi, pi] and |psi| <= pi - 1E-6 (off the cut of
    arctan2, across which rounding moves psi by 2 pi), the object stores
    these angles, and its [Gamma] property is the matrix of these angles. *)
Theorem kent_reports_its_angles (th ph ps k b : R) :
  0 < th < PI -> / 100 <= sin th ->
  - PI < ph <= PI -> Rabs ps <= PI - / 1000000 ->
  exists d,
    kent th ph ps k b = Ok d /\
    theta d = th /\ phi d = ph /\ psi d = ps /\
    Gamma d = create_matrix_Gamma th ph ps.
Proof.
  intros Hth _ Hph Hps.
  assert (Hps' : - PI < ps <= PI).
  { pose proof PI_RGT_0. unfold Rabs in Hps.
    destruct (Rcase_abs ps); lra. }
  pose proof (angles_roundtrip th ph ps Hth Hph Hps') as RT.
  unfold kent.
  destruct (spherical_coordinates_to_gammas th ph ps) as [[g1 g2] g3].
  destruct (init_Ok g1 g2 g3 k b) as (d & Hd & _ & _ & _ & _ & _ & Ea).
  exists d. split; [exact Hd |].
  rewrite RT in Ea. inversion Ea as [[E1 E2 E3]].
  unfold Gamma. rewrite E1, E2, E3. auto.
Qed.

Lemma kent_reports_its_angles_witness :
  0 < PI / 2 < PI /\ / 100 <= sin (PI / 2) /\
  - PI < 1 <= PI /\ Rabs 1 <= PI - / 1000000 /\
  exists d,
    kent (PI / 2) 1 1 4 2 = Ok d /\
    theta d = PI / 2 /\ phi d = 1 /\ psi d = 1 /\
    Gamma d = create_matrix_Gamma (PI / 2) 1 1.
Proof.
  pose proof PI2_1 as H.
  assert (H1 : 0 < PI / 2 < PI) by lra.
  assert (Hs : / 100 <= sin (PI / 2)) by (rewrite sin_PI2; lra).
  assert (H2 : - PI < 1 <= PI) by lra.
  assert (H3 : Rabs 1 <= PI - / 1000000) by (rewrite Rabs_R1; lra).
  split; [exact H1 |]. split; [exact Hs |].
  split; [exact H2 |]. split; [exact H3 |].
  exact (kent_reports_its_angles (PI / 2) 1 1 4 2 H1 Hs H2 H3).
Defined.

(** X4: at the pole theta = 0 the first axis is (1, 0, 0) whatever phi is,
    and phi is not read back: the object stores theta = 0, phi = 0 and
    psi = phi + psi (for phi + psi in (-pi, pi]); the axes rebuilt from the
    stored angles are still those of the object. *)
Theorem kent_at_the_pole (ph ps k b : R) :
  - PI < ph + ps <= PI ->
  exists d,
    kent 0 ph ps k b = Ok d /\
    gamma1 d = (1, 0, 0) /\
    theta d = 0 /\ phi d = 0 /\ psi d = ph + ps /\
    spherical_coordinates_to_gammas (theta d) (phi d) (psi d)
    = (gamma1 d, gamma2 d, gamma3 d).
Proof.
  intro Hs.
  destruct (kent_Ok 0 ph ps k b) as (d & Hd & _ & _ & Hg).
  exists d. split; [exact Hd |].
  assert (Ea : (theta d, phi d, psi d)
               = gammas_to_spherical_coordinates (gamma1 d) (gamma2 d)).
  { apply constructed_angles. unfold kent in Hd.
    destruct (spherical_coordinates_to_gammas 0 ph ps) as [[g1 g2] g3].
    now exists g1, g2, g3, k, b. }
  assert (G0 : spherical_coordinates_to_gammas 0 ph ps
               = ((1, 0, 0), (0, cos (ph + ps), sin (ph + ps)),
                  (0, - sin (ph + ps), cos (ph + ps)))).
  { rewrite gammas_closed_form, cos_plus, sin_plus, sin_0, cos_0.
    repeat apply (f_equal2 pair); ring. }
  rewrite G0 in Hg. injection Hg as E1 E2 E3.
  rewrite E1, E2 in Ea.
  unfold gammas_to_spherical_coordinates, gamma1_to_spherical_coordinates in Ea.
  assert (A0 : arccos 1 = 0) by apply acos_1.
  assert (P0 : arctan2 0 0 = 0).
  { unfold arctan2. repeat (destruct (Rlt_dec _ _); try lra). }
  rewrite A0, P0 in Ea.
  unfold create_matrix_Ht, create_matrix_H, MMul_col in Ea. simpl in Ea.
  rewrite sin_0, cos_0 in Ea.
  assert (Eps : arctan2 (1 * sin (ph + ps)) (1 * cos (ph + ps)) = ph + ps)
    by (apply arctan2_of_polar; lra).
  match type of Ea with
  | _ = (_, _, arctan2 ?y ?x) =>
      replace y with (1 * sin (ph + ps)) in Ea by ring;
      replace x with (1 * cos (ph + ps)) in Ea by ring
  end.
  rewrite Eps in Ea. injection Ea as T1 T2 T3.
  split; [exact E1 |]. split; [exact T1 |]. split; [exact T2 |].
  split; [exact T3 |].
  rewrite T1, T2, T3, E1, E2, E3, gammas_closed_form, sin_0, cos_0.
  repeat apply (f_equal2 pair); ring.
Qed.

Lemma kent_at_the_pole_witness :
  - PI < 1 + 1 <= PI /\
  exists d,
    kent 0 1 1 4 2 = Ok d /\
    gamma1 d = (1, 0, 0) /\
    theta d = 0 /\ phi d = 0 /\ psi d = 1 + 1 /\
    spherical_coordinates_to_gammas (theta d) (phi d) (psi d)
    = (gamma1 d, gamma2 d, gamma3 d).
Proof.
  pose proof PI2_1 as H.
  assert (H1 : - PI < 1 + 1 <= PI) by lra.
  split; [exact H1 |].
  exact (kent_at_the_pole 1 1 4 2 H1).
Defined.

(* ------------------------------------------------------------------ *)
(** ** Further properties: the third axis, the generator and [kent3] *)

(** The third axis of an orthonormal frame is the cross product of the
    first two, up to its sign. *)
Lemma third_axis_sign (g1 g2 g3 : vec3) :
  orthonormal2 g1 g2 -> unit_vector g3 ->
  inner g2 g3 = 0 -> inner g3 g1 = 0 ->
  g3 = cross g1 g2 \/ g3 = vscale (-1) (cross g1 g2).
Proof.
  destruct g1 as [[a1 a2] a3], g2 as [[b1 b2] b3], g3 as [[c1 c2] c3].
  unfold orthonormal2, unit_vector. simpl. intros (U1 & U2 & O12) U3 O23 O31.
  set (l := c1 * (a2 * b3 - a3 * b2) + c2 * (a3 * b1 - a1 * b3)
            + c3 * (a1 * b2 - a2 * b1)).
  assert (L : l * l = 1) by (unfold l; nsatz).
  assert (C1 : c1 = l * (a2 * b3 - a3 * b2)) by (unfold l; nsatz).
  assert (C2 : c2 = l * (a3 * b1 - a1 * b3)) by (unfold l; nsatz).
  assert (C3 : c3 = l * (a1 * b2 - a2 * b1)) by (unfold l; nsatz).
  assert (D : l = 1 \/ l = -1).
  { assert (E : (l - 1) * (l + 1) = 0) by lra.
    apply Rmult_integral in E. destruct E; [left | right]; lra. }
  clearbody l.
  destruct D as [-> | ->]; [left | right]; rewrite C1, C2, C3;
    repeat apply (f_equal2 pair); ring.
Qed.



Lemma norm_nonneg (v : vec3) : 0 <= norm v.
Proof. apply sqrt_pos. Qed.

Lemma norm_zero_vzero (v : vec3) : norm v = 0 -> v = vzero.
Proof.
  destruct v as [[x y] z]. unfold norm. simpl. intro H.
  apply sqrt_eq_0 in H; [| nra].
  assert (x = 0) by nra. assert (y = 0) by nra. assert (z = 0) by nra.
  subst. reflexivity.
Qed.

Lemma inner_cross_l (x e : vec3) : inner x (cross x e) = 0.
Proof. destruct x as [[? ?] ?], e as [[? ?] ?]. simpl. ring. Qed.

(** The vector [argmax3] picks is of the largest norm. *)
Lemma argmax3_largest (v1 v2 v3 : vec3) :
  let v := argmax3 (norm v1) (norm v2) (norm v3) v1 v2 v3 in
  (v = v1 \/ v = v2 \/ v = v3) /\
  norm v1 <= norm v /\ norm v2 <= norm v /\ norm v3 <= norm v.
Proof.
  unfold argmax3.
  destruct (Rlt_dec (norm v1) (norm v2)), (Rlt_dec (norm v2) (norm v3)),
    (Rlt_dec (norm v1) (norm v3)); (split; [tauto | lra]).
Qed.

Lemma generated_vector (x : vec3) :
  x <> vzero ->
  unit_vector (generate_arbitrary_orthogonal_unit_vector x) /\
  inner x (generate_arbitrary_orthogonal_unit_vector x) = 0.
Proof.
  intro Hx. unfold generate_arbitrary_orthogonal_unit_vector.
  set (v1 := cross x (1, 0, 0)). set (v2 := cross x (0, 1, 0)).
  set (v3 := cross x (0, 0, 1)).
  destruct (argmax3_largest v1 v2 v3) as (Hv & L1 & L2 & L3).
  set (v := argmax3 (norm v1) (norm v2) (norm v3) v1 v2 v3) in *.
  assert (Hn : norm v <> 0).
  { intro H0. rewrite H0 in L1, L2, L3.
    pose proof (norm_nonneg v1). pose proof (norm_nonneg v2).
    pose proof (norm_nonneg v3).
    assert (Z1 : v1 = vzero) by (apply norm_zero_vzero; lra).
    assert (Z2 : v2 = vzero) by (apply norm_zero_vzero; lra).
    apply Hx. destruct x as [[a b] c]. unfold v1, v2, vzero in Z1, Z2.
    simpl in Z1, Z2. injection Z1 as _ Hc Hb. injection Z2 as _ _ Ha.
    unfold vzero. repeat apply (f_equal2 pair); lra. }
  split.
  - apply unit_vdiv_norm. exact Hn.
  - rewrite inner_vdiv_r.
    assert (O : inner x v = 0).
    { destruct Hv as [-> | [-> | ->]]; apply inner_cross_l. }
    rewrite O. unfold Rdiv. ring.
Qed.

(** X6: for every non-zero [x] the generated vector is of unit length and
    orthogonal to [x]. *)
Theorem orthogonal_unit_vector_generated (x : vec3) :
  x <> vzero ->
  let v := generate_arbitrary_orthogonal_unit_vector x in
  unit_vector v /\ inner x v = 0.
Proof. intros Hx v. apply generated_vector. exact Hx. Qed.

Lemma orthogonal_unit_vector_generated_witness :
  ((3, 0, 4) = vzero -> False) /\
  unit_vector (generate_arbitrary_orthogonal_unit_vector (3, 0, 4)) /\
  inner (3, 0, 4) (generate_arbitrary_orthogonal_unit_vector (3, 0, 4)) = 0.
Proof.
  assert (H : (3, 0, 4) <> vzero).
  { unfold vzero. intro E. injection E as E1 _. lra. }
  split; [exact H |].
  exact (orthogonal_unit_vector_generated (3, 0, 4) H).
Defined.

Lemma arctan2_origin : arctan2 0 0 = 0.
Proof. unfold arctan2. repeat (destruct (Rlt_dec _ _); try lra). Qed.

(** What [gammas_to_spherical_coordinates] followed by
    [spherical_coordinates_to_gammas] makes of a unit vector [g1] and any
    [g2]: [g1] is kept, [g2] is replaced by the unit vector along its part
    orthogonal to [g1]. *)
Lemma second_axis (g1 g2 : vec3) :
  unit_vector g1 ->
  let r := rejection g2 g1 in
  let a := gammas_to_spherical_coordinates g1 g2 in
  let th := fst (fst a) in
  let ph := snd (fst a) in
  let ps := snd a in
  let g := spherical_coordinates_to_gammas th ph ps in
  fst (fst g) = g1 /\
  (norm r <> 0 -> snd (fst g) = vdiv r (norm r)) /\
  (r = vzero -> snd (fst g) = (- sin th, cos th * cos ph, cos th * sin ph)).
Proof.
  destruct g1 as [[a b] c], g2 as [[p q] s].
  intro U1. unfold unit_vector in U1. simpl in U1. intros r A th ph ps g.
  destruct (gamma1_angles a b c U1) as (Ha & Hb & Hc & _).
  assert (Eth : th = arccos a) by reflexivity.
  assert (Eph : ph = arctan2 c b) by reflexivity.
  rewrite <- Eth in Ha, Hb, Hc. rewrite <- Eph in Hb, Hc.
  set (u1 := - sin th * p + cos th * cos ph * q + cos th * sin ph * s).
  set (u2 := - sin ph * q + cos ph * s).
  assert (Eps : ps = arctan2 u2 u1).
  { unfold ps, A, gammas_to_spherical_coordinates, gamma1_to_spherical_coordinates.
    fold (arccos a). rewrite <- Eth, <- Eph.
    unfold create_matrix_Ht, create_matrix_H, MMul_col. simpl.
    f_equal; unfold u1, u2; ring. }
  destruct (arctan2_polar u1 u2) as [Pc Ps]. rewrite <- Eps in Pc, Ps.
  set (rho := sqrt (u1 * u1 + u2 * u2)) in *.
  assert (Hrho : 0 <= rho) by apply sqrt_pos.
  pose proof (angles_frame th ph ps) as F. fold g in F.
  assert (Eg : g = spherical_coordinates_to_gammas th ph ps) by reflexivity.
  rewrite gammas_closed_form in Eg.
  pose proof (sin2_cos2 th) as Tth. pose proof (sin2_cos2 ph) as Tph.
  unfold Rsqr in Tth, Tph.
  clearbody th ph ps rho. clear A Eth Eph.
  rewrite Eg in F |- *. cbn [fst snd]. destruct F as ((_ & U2 & _) & _).
  assert (Er : r = vscale rho
      (- sin th * cos ps, cos th * cos ph * cos ps - sin ph * sin ps,
       cos th * sin ph * cos ps + cos ph * sin ps)).
  { unfold r, rejection, vsub. simpl.
    replace (rho * (- sin th * cos ps)) with (- sin th * (rho * cos ps)) by ring.
    replace (rho * (cos th * cos ph * cos ps - sin ph * sin ps))
      with (cos th * cos ph * (rho * cos ps) - sin ph * (rho * sin ps)) by ring.
    replace (rho * (cos th * sin ph * cos ps + cos ph * sin ps))
      with (cos th * sin ph * (rho * cos ps) + cos ph * (rho * sin ps)) by ring.
    rewrite Pc, Ps. unfold u1, u2. rewrite <- Ha, <- Hb, <- Hc.
    clear - Tth Tph. abstract_trig.
    repeat apply (f_equal2 pair); nsatz. }
  split; [| split].
  - rewrite Ha, Hb, Hc. reflexivity.
  - intro Hn. rewrite Er in Hn |- *.
    rewrite (norm_vscale rho _ Hrho U2) in Hn |- *.
    now rewrite vdiv_vscale.
  - intro Hz.
    assert (Z1 : u1 = 0).
    { unfold r, rejection, vsub, vzero in Hz. simpl in Hz.
      injection Hz as Z0 Z1 Z2. unfold u1.
      rewrite <- Ha, <- Hb, <- Hc in Z0, Z1, Z2.
      clear - Z0 Z1 Z2 Tth Tph. abstract_trig. nsatz. }
    assert (Z2 : u2 = 0).
    { unfold r, rejection, vsub, vzero in Hz. simpl in Hz.
      injection Hz as Y0 Y1 Y2. unfold u2.
      rewrite <- Ha, <- Hb, <- Hc in Y0, Y1, Y2.
      clear - Y0 Y1 Y2 Tth Tph. abstract_trig. nsatz. }
    rewrite Z1, Z2, arctan2_origin in Eps. rewrite Eps, sin_0, cos_0.
    repeat apply (f_equal2 pair); ring.
Qed.

Lemma angles_of_first_axis (g1 g2 : vec3) :
  fst (gammas_to_spherical_coordinates g1 g2)
  = gamma1_to_spherical_coordinates g1.
Proof. destruct g1 as [[a b] c], g2 as [[p q] s]. reflexivity. Qed.

Lemma rejection_vdiv (B g : vec3) (c : R) :
  rejection (vdiv B c) g = vdiv (rejection B g) c.
Proof.
  destruct B as [[p q] s], g as [[x y] z]. unfold rejection, vsub. simpl.
  repeat apply (f_equal2 pair); unfold Rdiv; ring.
Qed.

Lemma norm_vdiv (v : vec3) (c : R) : 0 < c -> norm (vdiv v c) = norm v / c.
Proof.
  intro Hc. unfold norm. rewrite inner_vdiv_l, inner_vdiv_r.
  replace (inner v v / c / c) with (inner v v * (/ c * / c))
    by (field; lra).
  rewrite sqrt_mult_alt.
  - rewrite sqrt_square; [reflexivity |]. apply Rlt_le, Rinv_0_lt_compat, Hc.
  - destruct v as [[x y] z]. simpl. nra.
Qed.

(** Normalizing does not see a positive factor. *)
Lemma normalize_vdiv (v : vec3) (c : R) :
  0 < c -> norm v <> 0 ->
  vdiv (vdiv v c) (norm (vdiv v c)) = vdiv v (norm v).
Proof.
  intros Hc Hn. rewrite norm_vdiv by exact Hc.
  destruct v as [[x y] z]. simpl.
  repeat apply (f_equal2 pair); field; split; lra.
Qed.

Lemma rejection_orthogonal (B g : vec3) : inner B g = 0 -> rejection B g = B.
Proof.
  intro H. unfold rejection. rewrite H.
  destruct B as [[p q] s], g as [[x y] z]. unfold vsub. simpl.
  repeat apply (f_equal2 pair); ring.
Qed.

Lemma rejection_vzero (g : vec3) : rejection vzero g = vzero.
Proof.
  destruct g as [[x y] z]. unfold rejection, vsub, vzero. simpl.
  repeat apply (f_equal2 pair); ring.
Qed.

Lemma vdiv_vzero (c : R) : vdiv vzero c = vzero.
Proof.
  unfold vzero. simpl. repeat apply (f_equal2 pair); unfold Rdiv; ring.
Qed.

Lemma unit_vector_norm (v : vec3) : unit_vector v -> norm v = 1.
Proof. unfold unit_vector, norm. intros ->. apply sqrt_1. Qed.

Lemma vdiv_one (v : vec3) : vdiv v 1 = v.
Proof.
  destruct v as [[x y] z]. simpl. repeat apply (f_equal2 pair); field.
Qed.

(** [kent3] over the reals, on a non-zero [A] and any [B]: kappa = |A|,
    beta = |B|, an orthonormal, right-handed frame whose first axis is
    A/|A|, and as second axis the Gram-Schmidt companion of B: the unit
    vector along the part of B orthogonal to A when that part is not zero,
    the generated orthogonal vector when B is zero, and the second column of
    H at the angles of the first axis when B is a non-zero multiple of A.
    (The last two cases, and a first axis next to a pole, are where binary64
    does not follow the real value.) *)
Lemma kent3_gram_schmidt (A B : vec3) :
  norm A <> 0 ->
  let g1 := vdiv A (norm A) in
  let r := rejection B g1 in
  exists d,
    kent3 A B = Ok d /\ kappa d = norm A /\ beta d = norm B /\
    gamma1 d = g1 /\ orthonormal_frame d /\
    gamma3 d = cross (gamma1 d) (gamma2 d) /\
    (norm r <> 0 -> gamma2 d = vdiv r (norm r)) /\
    (inner A B = 0 -> norm B <> 0 -> gamma2 d = vdiv B (norm B)) /\
    (norm B = 0 -> gamma2 d = generate_arbitrary_orthogonal_unit_vector g1) /\
    (norm B <> 0 -> norm r = 0 ->
     gamma2 d = let '(th, ph) := gamma1_to_spherical_coordinates g1 in
                (- sin th, cos th * cos ph, cos th * sin ph)).
Proof.
  intros HA g1 r.
  pose proof (unit_vdiv_norm A HA) as U1. fold g1 in U1.
  unfold kent3. fold g1.
  set (g2 := if Req_dec_T (norm B) 0
             then generate_arbitrary_orthogonal_unit_vector g1
             else vdiv B (norm B)).
  pose proof (second_axis g1 g2 U1) as S2. cbv zeta in S2.
  pose proof (angles_of_first_axis g1 g2) as A1.
  destruct (gammas_to_spherical_coordinates g1 g2) as [[th ph] ps].
  cbn [fst snd] in S2, A1.
  pose proof (angles_frame th ph ps) as F.
  destruct (spherical_coordinates_to_gammas th ph ps) as [[g1' g2'] g3'].
  cbn [fst snd] in S2. destruct S2 as (E1 & S2 & S3).
  destruct F as (O12 & E3 & U3 & O23 & O31).
  destruct (init_Ok g1' g2' g3' (norm A) (norm B))
    as (d & Hd & G1 & G2 & G3 & K & Bt & _).
  exists d. rewrite G1, G2, G3.
  split; [exact Hd |]. split; [exact K |]. split; [exact Bt |].
  split; [exact E1 |].
  split; [unfold orthonormal_frame; rewrite G1, G2, G3; auto |].
  split; [exact E3 |].
  assert (Hb : norm B <> 0 -> 0 < norm B).
  { intro H. pose proof (norm_nonneg B). lra. }
  assert (Hr : norm B <> 0 -> rejection g2 g1 = vdiv r (norm B)).
  { intro H. unfold g2. destruct (Req_dec_T (norm B) 0); [contradiction |].
    apply rejection_vdiv. }
  assert (GS : norm r <> 0 -> g2' = vdiv r (norm r)).
  { intro Hn.
    assert (HB : norm B <> 0).
    { intro H0. apply Hn. unfold r.
      rewrite (norm_zero_vzero B H0), rejection_vzero. apply norm_vzero. }
    rewrite S2; rewrite (Hr HB).
    - apply normalize_vdiv; auto.
    - rewrite norm_vdiv by auto. intro E. apply Hn.
      apply Rmult_eq_reg_r with (/ norm B).
      + rewrite Rmult_0_l. exact E.
      + apply Rinv_neq_0_compat, HB. }
  split; [exact GS |]. split; [| split].
  - intros HAB HB.
    assert (Er : r = B).
    { unfold r. apply rejection_orthogonal. unfold g1.
      rewrite inner_vdiv_r, (inner_sym B A), HAB. unfold Rdiv. ring. }
    rewrite GS; rewrite Er; auto.
  - intro HB.
    assert (Eg : g2 = generate_arbitrary_orthogonal_unit_vector g1).
    { unfold g2. destruct (Req_dec_T (norm B) 0); [reflexivity | contradiction]. }
    assert (Hg1 : g1 <> vzero).
    { intro Z. rewrite Z in U1. unfold unit_vector, vzero in U1. simpl in U1. lra. }
    destruct (generated_vector g1 Hg1) as [Ug Og]. rewrite <- Eg in Ug, Og |- *.
    assert (Er : rejection g2 g1 = g2)
      by (apply rejection_orthogonal; rewrite inner_sym; exact Og).
    rewrite S2; rewrite Er, (unit_vector_norm g2 Ug).
    + apply vdiv_one.
    + lra.
  - intros HB Hn.
    rewrite <- A1. apply S3. rewrite (Hr HB).
    rewrite (norm_zero_vzero r Hn). apply vdiv_vzero.
Qed.

(** X7: [kent3] orthonormalises its arguments.  Let the length of [A] lie
    between 1E-100 and 1E100, the length of [B] be zero or in that range,
    and [A] lie on the polar axis or at least 0.01 off it.  Then [kent3]
    returns an object with kappa = |A|, beta = |B| and an orthonormal,
    right-handed frame whose first axis is A/|A|.  When B is orthogonal to
    A the second axis is B/|B|; more generally, when the part of B
    orthogonal to A has at least a hundredth of the length of B, the second
    axis is the unit vector along that part. *)
Theorem kent3_orthonormalises (A B : vec3) :
  working_range (norm A) ->
  norm B = 0 \/ working_range (norm B) ->
  clear_of_the_poles 0 (polar_sine A) ->
  let g1 := vdiv A (norm A) in
  let r := rejection B g1 in
  exists d,
    kent3 A B = Ok d /\ kappa d = norm A /\ beta d = norm B /\
    gamma1 d = g1 /\ orthonormal_frame d /\
    gamma3 d = cross (gamma1 d) (gamma2 d) /\
    (norm B <> 0 -> norm B / 100 <= norm r -> gamma2 d = vdiv r (norm r)) /\
    (norm B <> 0 -> inner A B = 0 -> gamma2 d = vdiv B (norm B)).
Proof.
  intros [HA _] _ _ g1 r.
  assert (HA0 : norm A <> 0) by lra.
  destruct (kent3_gram_schmidt A B HA0)
    as (d & Hd & K & Bt & G1 & Hf & G3 & GS & GO & _).
  exists d.
  split; [exact Hd |]. split; [exact K |]. split; [exact Bt |].
  split; [exact G1 |]. split; [exact Hf |]. split; [exact G3 |].
  split.
  - intros HB Hr. apply GS. fold g1. fold r.
    pose proof (norm_nonneg B). lra.
  - intros HB HAB. exact (GO HAB HB).
Qed.

Lemma kent3_orthonormalises_witness :
  working_range (norm (3, 0, 0)) /\
  (norm (1, 2, 0) = 0 \/ working_range (norm (1, 2, 0))) /\
  clear_of_the_poles 0 (polar_sine (3, 0, 0)) /\
  (norm (1, 2, 0) = 0 -> False) /\
  exists d,
    kent3 (3, 0, 0) (1, 2, 0) = Ok d /\ kappa d = 3 /\
    gamma1 d = (1, 0, 0) /\ gamma2 d = (0, 1, 0) /\ gamma3 d = (0, 0, 1).
Proof.
  assert (N : norm (3, 0, 0) = 3).
  { unfold norm. simpl. replace (3 * 3 + 0 * 0 + 0 * 0) with (3 * 3) by ring.
    apply sqrt_square. lra. }
  assert (NB : 2 <= norm (1, 2, 0) <= 3).
  { pose proof (norm_nonneg (1, 2, 0)) as P.
    pose proof (norm_sqr (1, 2, 0)) as Q. simpl in Q. split; nra. }
  assert (WA : working_range (norm (3, 0, 0)))
    by (rewrite N; unfold working_range; lra).
  assert (WB : norm (1, 2, 0) = 0 \/ working_range (norm (1, 2, 0)))
    by (right; unfold working_range; lra).
  assert (PA : clear_of_the_poles 0 (polar_sine (3, 0, 0))).
  { left. unfold polar_sine.
    replace (0 * 0 + 0 * 0) with 0 by ring.
    rewrite sqrt_0. unfold Rdiv. rewrite Rmult_0_l, Rabs_R0. lra. }
  assert (HB : norm (1, 2, 0) <> 0) by lra.
  split; [exact WA |]. split; [exact WB |]. split; [exact PA |].
  split; [exact HB |].
  destruct (kent3_orthonormalises (3, 0, 0) (1, 2, 0) WA WB PA)
    as (d & Hd & K & _ & G1 & _ & G3 & G2 & _).
  assert (E1 : vdiv (3, 0, 0) (norm (3, 0, 0)) = (1, 0, 0)).
  { rewrite N. simpl. repeat apply (f_equal2 pair); field. }
  rewrite E1 in G1, G2.
  assert (Er : rejection (1, 2, 0) (1, 0, 0) = (0, 2, 0)).
  { unfold rejection, vsub. simpl. repeat apply (f_equal2 pair); ring. }
  assert (N2 : norm (0, 2, 0) = 2).
  { unfold norm. simpl. replace (0 * 0 + 2 * 2 + 0 * 0) with (2 * 2) by ring.
    apply sqrt_square. lra. }
  rewrite Er, N2 in G2.
  assert (E2 : gamma2 d = (0, 1, 0)).
  { rewrite G2 by lra. simpl. repeat apply (f_equal2 pair); field. }
  exists d. rewrite N in K.
  split; [exact Hd |]. split; [exact K |]. split; [exact G1 |].
  split; [exact E2 |].
  rewrite G3, G1, E2. simpl. repeat apply (f_equal2 pair); ring.
Defined.

(* ------------------------------------------------------------------ *)
(** ** Further properties: the memo table and the errors at beta = 0 *)

Lemma Int_part_minus_half : Int_part (- 0.5) = (-1)%Z.
Proof. symmetry. apply Int_part_spec. simpl. lra. Qed.

Lemma py_pow_zero_base (y : R) : y < 0 -> py_pow 0 y = Raise ZeroDivisionError.
Proof.
  intro Hy. unfold py_pow.
  destruct (Req_dec_T y 0); [lra |].
  destruct (Rlt_dec 0 0); [lra |].
  destruct (Req_dec_T 0 0); [| lra].
  destruct (Rlt_dec y 0); [reflexivity | lra].
Qed.

Lemma py_pow_negative_base (x : R) :
  x < 0 -> py_pow x (- 0.5) = Raise ValueError.
Proof.
  intro Hx. unfold py_pow.
  destruct (Req_dec_T (- 0.5) 0); [lra |].
  destruct (Rlt_dec 0 x); [lra |].
  destruct (Req_dec_T x 0); [lra |].
  unfold is_integer, Reqb. rewrite Int_part_minus_half.
  destruct (Req_dec_T (IZR (-1)) (- 0.5)); [lra | reflexivity].
Qed.

Section FurtherNormalizer.

Variable G : R -> R.
Variable I : R -> R -> R.

Lemma normalize_stores (rni : bool) (d : KentDistribution) (fuel : nat)
    (c c1 : cache) (v : R) (o : option nat) :
  normalize G I rni d fuel c = (Ok (v, o), c1) ->
  cache_get c1 (kappa d) (beta d) = Some v.
Proof.
  unfold normalize.
  destruct (cache_get c (kappa d) (beta d)) as [w |] eqn:Eget.
  - destruct rni; intro H; [discriminate |].
    injection H as <- _ <-. exact Eget.
  - destruct (normalize_compute G I fuel (kappa d) (beta d)) as [[res j] | e |];
      intro H; try discriminate.
    injection H as <- _ <-. apply cache_get_set_same.
Qed.

Lemma normalize_hit_with_count (d : KentDistribution) (c : cache) (fuel : nat)
    (v : R) :
  cache_get c (kappa d) (beta d) = Some v ->
  normalize G I true d fuel c = (Raise UnboundLocalError, c).
Proof. intro H. unfold normalize. now rewrite H. Qed.

(** X8: the memo table.  After a call of [normalize] that returned [v],
    the table holds [v] under (kappa, beta); every later call, on this
    object or on any other with the same kappa and beta, returns [v]
    without computing anything (whatever fuel it is given) and leaves the
    table as it is; and a later call that asks for the number of iterations
    raises [UnboundLocalError], the counter being assigned only when the
    value is computed. *)
Theorem normalize_is_memoised (rni : bool) (d : KentDistribution)
    (fuel : nat) (c c1 : cache) (v : R) (o : option nat) :
  normalize G I rni d fuel c = (Ok (v, o), c1) ->
  cache_get c1 (kappa d) (beta d) = Some v /\
  forall d' fuel',
    kappa d' = kappa d -> beta d' = beta d ->
    normalize G I false d' fuel' c1 = (Ok (v, None), c1) /\
    normalize G I true d' fuel' c1 = (Raise UnboundLocalError, c1).
Proof.
  intro H. pose proof (normalize_stores _ _ _ _ _ _ _ H) as S.
  split; [exact S |].
  intros d' fuel' Ek Eb. rewrite <- Ek, <- Eb in S. split.
  - now apply normalize_hit.
  - now apply normalize_hit_with_count with v.
Qed.

(** At beta = 0 the value is computed by one power, which Python refuses
    for a zero or negative base. *)
Lemma normalize_compute_beta_zero_errors (k : R) (fuel : nat) :
  (k = 0 -> normalize_compute G I fuel k 0 = Raise ZeroDivisionError) /\
  (k < 0 -> normalize_compute G I fuel k 0 = Raise ValueError).
Proof.
  unfold normalize_compute.
  destruct (Req_dec_T 0 0) as [_ | N]; [| lra].
  replace (- 2 * INR 0 - 0.5) with (- 0.5) by (simpl; lra).
  split; intro Hk.
  - subst k. replace (0.5 * 0) with 0 by lra.
    rewrite py_pow_zero_base by lra. reflexivity.
  - rewrite py_pow_negative_base by lra. reflexivity.
Qed.

(** X9: an object with beta = 0 and kappa = 0 (the uniform distribution)
    or kappa < 0 has no normalizing constant: when the value is not in the
    memo table, [normalize] raises [ZeroDivisionError] at kappa = 0 and
    [ValueError] at kappa < 0, from the power (0.5 kappa)^(-0.5), before
    any special function is called; [log_normalize] does not catch these,
    so it and the normalized [log_pdf] and [pdf] raise the same error; the
    memo table is left as it was. *)
Theorem normalize_rejects_nonpositive_kappa_at_beta_zero
    (rni : bool) (d : KentDistribution) (fuel : nat) (c : cache)
    (n : nat) (xs : ndarray vec3 n) :
  beta d = 0 -> kappa d <= 0 ->
  cache_get c (kappa d) (beta d) = None ->
  let e := if Req_dec_T (kappa d) 0 then ZeroDivisionError else ValueError in
  normalize G I rni d fuel c = (Raise e, c) /\
  log_normalize G I d fuel c = (Raise e, c) /\
  log_pdf G I d n xs true fuel c = (Raise e, c) /\
  pdf G I d n xs true fuel c = (Raise e, c).
Proof.
  intros Hb Hk Hc e.
  destruct (normalize_compute_beta_zero_errors (kappa d) fuel) as [Z Ng].
  assert (Hcomp : normalize_compute G I fuel (kappa d) (beta d) = Raise e).
  { rewrite Hb. unfold e. destruct (Req_dec_T (kappa d) 0); [auto | apply Ng; lra]. }
  assert (Hn : forall r, normalize G I r d fuel c = (Raise e, c)).
  { intro r. rewrite normalize_miss by exact Hc. now rewrite Hcomp. }
  assert (He : caught e = false).
  { unfold e. destruct (Req_dec_T (kappa d) 0); reflexivity. }
  assert (Hl : log_normalize G I d fuel c = (Raise e, c)).
  { unfold log_normalize. rewrite Hn. simpl. now rewrite He. }
  split; [apply Hn |]. split; [exact Hl |].
  assert (Hp : log_pdf G I d n xs true fuel c = (Raise e, c)).
  { rewrite log_pdf_normalized, Hl. reflexivity. }
  split; [exact Hp |].
  unfold pdf. rewrite Hp. reflexivity.
Qed.

(** X10: the branch for beta = 0 agrees with the series: for kappa > 0 it
    returns the term j = 0 of the series at b = 0, every later term of the
    series vanishes at b = 0, so every partial sum of at least one term is
    that value. *)
Theorem beta_zero_branch_is_the_series (k : R) (fuel : nat) :
  0 < k -> G 1 <> 0 ->
  normalize_compute G I fuel k 0 = Ok (kent_series_term G I k 0 0, 0%nat) /\
  (forall j, kent_series_term G I k 0 (S j) = 0) /\
  (forall n, partial_sum (kent_series_term G I k 0) (S n)
             = kent_series_term G I k 0 0).
Proof.
  intros Hk HG.
  assert (T : forall j, kent_series_term G I k 0 (S j) = 0).
  { intro j. unfold kent_series_term.
    replace (2 * S j)%nat with (S (2 * j + 1)) by lia.
    simpl pow. ring. }
  split; [| split; [exact T |]].
  - rewrite normalize_compute_beta_zero by assumption.
    unfold kent_series_term. do 2 f_equal.
    replace (- 2 * INR 0 - 0.5) with (- 0.5) by (simpl; lra).
    replace (INR 0 + 0.5) with 0.5 by (simpl; lra).
    replace (INR 0 + 1) with 1 by (simpl; lra).
    replace (2 * INR 0 + 0.5) with 0.5 by (simpl; lra).
    simpl pow. field. exact HG.
  - induction n as [| n IH].
    + simpl. ring.
    + change (partial_sum (kent_series_term G I k 0) (S (S n)))
        with (partial_sum (kent_series_term G I k 0) (S n)
              + kent_series_term G I k 0 (S n)).
      rewrite IH, T. ring.
Qed.

End FurtherNormalizer.

Lemma normalize_is_memoised_witness :
  let d := standard_kent 2 0 in
  exists v c1,
    normalize unit_gamma cutoff_bessel true d 0 [] = (Ok (v, Some 0%nat), c1) /\
    cache_get c1 2 0 = Some v /\
    normalize unit_gamma cutoff_bessel false d 0 c1 = (Ok (v, None), c1) /\
    normalize unit_gamma cutoff_bessel true d 0 c1
    = (Raise UnboundLocalError, c1).
Proof.
  intro d. subst d. set (d := standard_kent 2 0).
  destruct (standard_kent_fields 2 0) as (Ek & Eb & _). fold d in Ek, Eb.
  assert (H : normalize unit_gamma cutoff_bessel true d 0 []
              = (Ok (2 * PI * (Rpower (2 / 2) (- 0.5) * cutoff_bessel 0.5 2
                               * unit_gamma 0.5 / unit_gamma 1), Some 0%nat),
                 cache_set [] (kappa d) (beta d)
                   (2 * PI * (Rpower (2 / 2) (- 0.5) * cutoff_bessel 0.5 2
                              * unit_gamma 0.5 / unit_gamma 1)))).
  { rewrite normalize_miss by reflexivity. rewrite Ek, Eb.
    rewrite normalize_compute_beta_zero; [reflexivity | lra |].
    unfold unit_gamma. lra. }
  destruct (normalize_is_memoised unit_gamma cutoff_bessel _ _ _ _ _ _ _ H)
    as [S L].
  destruct (L d 0%nat eq_refl eq_refl) as [L1 L2].
  rewrite Ek, Eb in S.
  eexists. eexists. split; [exact H |]. split; [exact S |].
  split; [exact L1 | exact L2].
Defined.

Lemma normalize_rejects_nonpositive_kappa_at_beta_zero_witness :
  let d := standard_kent 0 0 in
  beta d = 0 /\ kappa d <= 0 /\ cache_get [] (kappa d) (beta d) = None /\
  normalize unit_gamma cutoff_bessel false d 0 [] = (Raise ZeroDivisionError, []) /\
  log_normalize unit_gamma cutoff_bessel d 0 [] = (Raise ZeroDivisionError, []) /\
  pdf unit_gamma cutoff_bessel d 0 (1, 0, 0) true 0 []
  = (Raise ZeroDivisionError, []).
Proof.
  intro d.
  destruct (standard_kent_fields 0 0) as (Ek & Eb & _). fold d in Ek, Eb.
  assert (Hb : beta d = 0) by exact Eb.
  assert (Hk : kappa d <= 0) by (rewrite Ek; lra).
  assert (Hc : cache_get [] (kappa d) (beta d) = None) by reflexivity.
  destruct (normalize_rejects_nonpositive_kappa_at_beta_zero
              unit_gamma cutoff_bessel false d 0 [] 0 (1, 0, 0) Hb Hk Hc)
    as (N & L & _ & P).
  rewrite Ek in N, L, P.
  destruct (Req_dec_T 0 0) as [_ | F]; [| exfalso; apply F; reflexivity].
  split; [exact Hb |]. split; [exact Hk |]. split; [exact Hc |].
  split; [exact N |]. split; [exact L | exact P].
Defined.

Lemma beta_zero_branch_is_the_series_witness :
  0 < 3 /\ (half_integer_gamma 1 = 0 -> False) /\
  normalize_compute half_integer_gamma half_order_bessel 0 3 0
  = Ok (kent_series_term half_integer_gamma half_order_bessel 3 0 0, 0%nat) /\
  partial_sum (kent_series_term half_integer_gamma half_order_bessel 3 0) 7
  = kent_series_term half_integer_gamma half_order_bessel 3 0 0.
Proof.
  assert (Hk : 0 < 3) by lra.
  assert (HG : half_integer_gamma 1 <> 0).
  { unfold half_integer_gamma. destruct (Req_dec_T 1 1); lra. }
  destruct (beta_zero_branch_is_the_series half_integer_gamma half_order_bessel
              3 0 Hk HG) as (C & _ & P).
  split; [exact Hk |]. split; [exact HG |]. split; [exact C | exact (P 6%nat)].
Defined.

(* ------------------------------------------------------------------ *)
(** ** Further properties: the normalized density, its mode, the
       likelihood *)

(** The abscissa of the maximum along the first axis. *)
Lemma mode_abscissa_range (d : KentDistribution) :
  0 <= kappa d -> 0 <= beta d ->
  let x1 := if Req_dec_T (beta d) 0 then 1
            else Rmin (kappa d / (2 * beta d)) 1 in
  0 <= x1 <= 1.
Proof.
  intros Hk Hb x1. subst x1. destruct (Req_dec_T (beta d) 0); [lra |].
  split; [| apply Rmin_r].
  apply Rmin_glb; [| lra]. unfold Rdiv.
  apply Rmult_le_pos; [lra |]. apply Rlt_le, Rinv_0_lt_compat. lra.
Qed.


Lemma log_density_le_max (d : KentDistribution) (x : vec3) :
  orthonormal_frame d -> 0 <= kappa d -> 0 <= beta d -> unit_vector x ->
  let x1 := if Req_dec_T (beta d) 0 then 1
            else Rmin (kappa d / (2 * beta d)) 1 in
  log_density d x <= kappa d * x1 + beta d * (1 - x1 ^ 2).
Proof.
  intros (Ho & _) Hk Hb Ux x1.
  pose proof (bessel2 _ _ x Ho Ux) as Hbes.
  unfold log_density.
  pose proof (pow2_ge_0 (inner (gamma2 d) x)).
  pose proof (pow2_ge_0 (inner (gamma3 d) x)).
  pose proof (pow2_ge_0 (inner (gamma1 d) x)).
  apply Rle_trans with
    (kappa d * inner (gamma1 d) x + beta d * (1 - inner (gamma1 d) x ^ 2)).
  - apply Rplus_le_compat_l, Rmult_le_compat_l; [exact Hb | lra].
  - apply parabola_max; try assumption. lra.
Qed.

(** The point of [max] in the frame of the object. *)
Lemma max_point_in_frame (d : KentDistribution) :
  constructed d -> orthonormal_frame d -> 0 <= kappa d -> 0 <= beta d ->
  let x1 := if Req_dec_T (beta d) 0 then 1
            else Rmin (kappa d / (2 * beta d)) 1 in
  max_point d
  = vadd (vscale x1 (gamma1 d)) (vscale (sqrt (1 - x1 ^ 2)) (gamma2 d)) /\
  inner (gamma1 d) (max_point d) = x1 /\
  inner (gamma2 d) (max_point d) = sqrt (1 - x1 ^ 2) /\
  inner (gamma3 d) (max_point d) = 0 /\
  unit_vector (max_point d).
Proof.
  intros Hc (Ho & U3 & O23 & O31) Hk Hb x1.
  pose proof (max_point_value d) as Hpt. fold x1 in Hpt.
  pose proof (mode_abscissa_range d Hk Hb) as Hx1. fold x1 in Hx1.
  assert (Hsq : sqrt (1 - x1 ^ 2) * sqrt (1 - x1 ^ 2) = 1 - x1 ^ 2)
    by (apply sqrt_sqrt; nra).
  destruct (Gamma_columns d Hc Ho) as [C0 C1].
  destruct Ho as (U1 & U2 & O12). unfold unit_vector in U1, U2.
  assert (E : max_point d
              = vadd (vscale x1 (gamma1 d))
                     (vscale (sqrt (1 - x1 ^ 2)) (gamma2 d))).
  { rewrite Hpt, dot_columns, C0, C1.
    destruct (gamma1 d) as [[a1 a2] a3], (gamma2 d) as [[b1 b2] b3],
      (col2 (Gamma d)) as [[c1 c2] c3].
    simpl. repeat apply (f_equal2 pair); ring. }
  split; [exact E |].
  assert (I1 : inner (gamma1 d) (max_point d) = x1).
  { rewrite E, inner_vadd_r, !inner_vscale_r, U1, O12. ring. }
  assert (I2 : inner (gamma2 d) (max_point d) = sqrt (1 - x1 ^ 2)).
  { rewrite E, inner_vadd_r, !inner_vscale_r, U2, (inner_sym (gamma2 d)), O12.
    ring. }
  split; [exact I1 |]. split; [exact I2 |]. split.
  - rewrite E, inner_vadd_r, !inner_vscale_r, O31, (inner_sym (gamma3 d)), O23.
    ring.
  - unfold unit_vector. rewrite E at 1.
    rewrite (inner_sym _ (max_point d)), inner_vadd_r, !inner_vscale_r.
    rewrite !(inner_sym (max_point d)), I1, I2, Hsq. ring.
Qed.

Section FurtherDensity.

Variable G : R -> R.
Variable I : R -> R -> R.

Lemma log_pdf_max_normalized (d : KentDistribution) (fuel : nat) (c : cache) :
  let x1 := if Req_dec_T (beta d) 0 then 1
            else Rmin (kappa d / (2 * beta d)) 1 in
  log_pdf_max G I d true fuel c
  = (ln_ <- fst (log_normalize G I d fuel c) ;;
     Ok (kappa d * x1 + beta d * (1 - x1 ^ 2) - ln_),
     snd (log_normalize G I d fuel c)).
Proof.
  unfold log_pdf_max. destruct (log_normalize G I d fuel c) as [r c1].
  destruct (Req_dec_T (beta d) 0) as [E | N]; cbn [fst snd].
  - destruct (Rlt_dec 1 1); [lra | reflexivity].
  - rewrite clamp_is_Rmin.
    replace (kappa d * 1 / (2 * beta d)) with (kappa d / (2 * beta d))
      by (field; exact N).
    reflexivity.
Qed.

(** X11: the normalized density and its maximum.  On an object with an
    orthonormal frame, kappa >= 0 and beta >= 0 for which [log_normalize]
    returns ln Z: [pdf_max()] returns exp(fmax - ln Z); at every unit vector
    x, [pdf(x)] returns exp(f(x) - ln Z), which is positive and at most
    [pdf_max()]; and at the point of [max] the two coincide. *)
Theorem pdf_is_bounded_by_pdf_max (d : KentDistribution) (fuel : nat)
    (c c1 : cache) (lnZ : R) :
  constructed d -> orthonormal_frame d ->
  0 <= kappa d -> 0 <= beta d ->
  log_normalize G I d fuel c = (Ok lnZ, c1) ->
  exists pm,
    pdf_max G I d true fuel c = (Ok pm, c1) /\
    log_pdf_max G I d true fuel c = (Ok (ln pm), c1) /\
    (forall x : vec3, unit_vector x ->
       exists p,
         pdf G I d 0 x true fuel c = (Ok p, c1) /\
         p = exp (log_density d x - lnZ) /\ 0 < p <= pm) /\
    pdf G I d 0 (max_point d) true fuel c = (Ok pm, c1).
Proof.
  intros Hc Hf Hk Hb Hl.
  set (x1 := if Req_dec_T (beta d) 0 then 1
             else Rmin (kappa d / (2 * beta d)) 1).
  set (fmax := kappa d * x1 + beta d * (1 - x1 ^ 2)).
  assert (Hm : log_pdf_max G I d true fuel c = (Ok (fmax - lnZ), c1)).
  { pose proof (log_pdf_max_normalized d fuel c) as U.
    fold x1 in U. fold fmax in U. rewrite U, Hl. reflexivity. }
  assert (Hp : forall x, pdf G I d 0 x true fuel c
                         = (Ok (exp (log_density d x - lnZ)), c1)).
  { intro x. unfold pdf. rewrite log_pdf_normalized, Hl. reflexivity. }
  exists (exp (fmax - lnZ)).
  split; [unfold pdf_max; rewrite Hm; reflexivity |].
  split; [rewrite ln_exp; exact Hm |].
  split.
  - intros x Ux. exists (exp (log_density d x - lnZ)).
    split; [apply Hp |]. split; [reflexivity |].
    split; [apply exp_pos |].
    assert (L : log_density d x <= fmax)
      by apply (log_density_le_max d x Hf Hk Hb Ux).
    destruct (Rle_lt_or_eq_dec _ _ L) as [Lt | Eq].
    + apply Rlt_le, exp_increasing. lra.
    + rewrite Eq. apply Rle_refl.
  - rewrite Hp. do 3 f_equal.
    destruct (max_point_in_frame d Hc Hf Hk Hb) as (_ & I1 & I2 & I3 & _).
    fold x1 in I1, I2. unfold log_density. rewrite I1, I2, I3.
    unfold fmax.
    assert (Hx1 : 0 <= x1 <= 1) by apply (mode_abscissa_range d Hk Hb).
    assert (Hsq : sqrt (1 - x1 ^ 2) * sqrt (1 - x1 ^ 2) = 1 - x1 ^ 2)
      by (apply sqrt_sqrt; nra).
    replace (sqrt (1 - x1 ^ 2) ^ 2) with (1 - x1 ^ 2)
      by (rewrite <- Hsq at 1; ring).
    ring.
Qed.

(** X13: [log_likelihood] sums the normalized log-density over the last
    batch axis.  When [log_normalize] returns ln Z: on an array of shape
    (N, 3) the result is the sum of f(x) - ln Z over the N points, that is
    the sum of f minus N ln Z; it is additive over concatenation; and on an
    array of shape (N, M, 3), N rows of M points each, the result is not one
    number but the array of the N row sums. *)
Theorem log_likelihood_sums_the_last_axis (d : KentDistribution)
    (fuel : nat) (c c1 : cache) (lnZ : R) :
  log_normalize G I d fuel c = (Ok lnZ, c1) ->
  let ll := fun xs : list vec3 =>
    fold_right Rplus 0 (map (fun x => log_density d x - lnZ) xs) in
  (forall xs, log_likelihood G I d 0 xs fuel c = (Ok (ll xs), c1)) /\
  (forall xs, ll xs = sum_over (log_density d) xs - INR (length xs) * lnZ) /\
  (forall xs ys, ll (xs ++ ys) = ll xs + ll ys) /\
  (forall (m : nat) (xss : list (list vec3)),
     shape_N_M m xss ->
     log_likelihood G I d 1 xss fuel c = (Ok (map ll xss), c1)).
Proof.
  intros Hl ll. split; [| split; [| split]].
  - intro xs. apply log_likelihood_sum. exact Hl.
  - intro xs. unfold ll, sum_over.
    induction xs as [| x xs IH]; [simpl; ring |].
    change (length (x :: xs)) with (S (length xs)). rewrite S_INR.
    simpl fold_right. rewrite IH. ring.
  - intros xs ys. unfold ll. rewrite map_app.
    induction xs as [| x xs IH]; simpl; [ring | rewrite IH; ring].
  - intros m xss _. unfold log_likelihood.
    rewrite log_pdf_normalized, Hl. cbn [fst snd bind].
    do 2 f_equal. unfold ll. simpl. rewrite map_map. reflexivity.
Qed.

End FurtherDensity.


(** The normalizer of the standard object at kappa = 2, beta = 0 under the
    stand-in special functions. *)
Lemma standard_log_normalize (fuel : nat) :
  exists c1,
    log_normalize unit_gamma cutoff_bessel (standard_kent 2 0) fuel []
    = (Ok (ln (2 * PI)), c1).
Proof.
  set (d := standard_kent 2 0).
  destruct (standard_kent_fields 2 0) as (Ek & Eb & _). fold d in Ek, Eb.
  assert (V : Rpower (2 / 2) (- 0.5) * cutoff_bessel 0.5 2
              * unit_gamma 0.5 / unit_gamma 1 = 1).
  { replace (2 / 2) with 1 by field. rewrite Rpower_one.
    unfold cutoff_bessel, unit_gamma.
    destruct (Rlt_dec 0.5 10); [field | lra]. }
  assert (H : normalize unit_gamma cutoff_bessel false d fuel []
              = (Ok (2 * PI, None), cache_set [] (kappa d) (beta d) (2 * PI))).
  { rewrite normalize_miss by reflexivity. rewrite Ek, Eb.
    rewrite normalize_compute_beta_zero;
      [| lra | unfold unit_gamma; lra].
    rewrite V, Rmult_1_r. reflexivity. }
  eexists.
  apply (log_normalize_value _ _ _ _ _ _ _ _ H).
  pose proof PI_RGT_0. lra.
Qed.

Lemma pdf_is_bounded_by_pdf_max_witness :
  let d := standard_kent 2 0 in
  exists c1 pm,
    constructed d /\ orthonormal_frame d /\ 0 <= kappa d /\ 0 <= beta d /\
    log_normalize unit_gamma cutoff_bessel d 0 [] = (Ok (ln (2 * PI)), c1) /\
    pdf_max unit_gamma cutoff_bessel d true 0 [] = (Ok pm, c1) /\
    pdf unit_gamma cutoff_bessel d 0 (max_point d) true 0 [] = (Ok pm, c1).
Proof.
  intro d. subst d. set (d := standard_kent 2 0).
  destruct (standard_log_normalize 0) as [c1 Hl]. fold d in Hl.
  destruct (standard_kent_frame 2 0) as [Hc Hf]. fold d in Hc, Hf.
  destruct (standard_kent_fields 2 0) as (Ek & Eb & _). fold d in Ek, Eb.
  assert (Hk : 0 <= kappa d) by (rewrite Ek; lra).
  assert (Hb : 0 <= beta d) by (rewrite Eb; lra).
  destruct (pdf_is_bounded_by_pdf_max unit_gamma cutoff_bessel d 0 [] c1
              (ln (2 * PI)) Hc Hf Hk Hb Hl) as (pm & M & _ & _ & P).
  exists c1, pm. auto 10.
Defined.

Lemma log_likelihood_sums_the_last_axis_witness :
  let d := standard_kent 2 0 in
  let xss := [[(1, 0, 0); (0, 1, 0)]; [(0, 0, 1); (1, 0, 0)]] in
  exists c1,
    log_normalize unit_gamma cutoff_bessel d 0 [] = (Ok (ln (2 * PI)), c1) /\
    shape_N_M 2 xss /\
    log_likelihood unit_gamma cutoff_bessel d 1 xss 0 []
    = (Ok [2 - ln (2 * PI) + (0 - ln (2 * PI) + 0);
           0 - ln (2 * PI) + (2 - ln (2 * PI) + 0)], c1).
Proof.
  intros d xss. subst d. set (d := standard_kent 2 0).
  destruct (standard_log_normalize 0) as [c1 Hl]. fold d in Hl.
  destruct (log_likelihood_sums_the_last_axis unit_gamma cutoff_bessel d 0 []
              c1 (ln (2 * PI)) Hl) as (_ & _ & _ & L).
  assert (Hs : shape_N_M 2 xss) by (repeat constructor).
  exists c1. split; [exact Hl |]. split; [exact Hs |]. rewrite (L 2%nat xss Hs).
  do 2 f_equal. unfold log_density.
  destruct (standard_kent_fields 2 0) as (Ek & Eb & E1 & E2 & E3).
  fold d in Ek, Eb, E1, E2, E3. rewrite Ek, Eb, E1, E2, E3. simpl.
  repeat (f_equal; try ring).
Defined.


(* ------------------------------------------------------------------ *)
(** ** Further properties: the moment estimate and the refinement *)

Lemma estimator_third_axis (th ph : R) (M : mat2) (l0 l1 : R) (V : mat2) :
  eig_contract M ((l0, l1), V) ->
  unit_vector (col2 (MMul (create_matrix_H th ph) (embed_block V))).
Proof.
  destruct M as [[m00 m01] [m10 m11]], V as [[v00 v01] [v10 v11]]. simpl.
  intros (_ & _ & _ & _ & N0 & N1 & O).
  unfold unit_vector, MMul, col2. simpl.
  pose proof (sin2_cos2 th) as Tth. pose proof (sin2_cos2 ph) as Tph.
  unfold Rsqr in *.
  abstract_trig. nsatz.
Qed.

(** Bessel's inequality for two orthonormal directions. *)
Lemma bessel2_general (g1 g2 x : vec3) :
  orthonormal2 g1 g2 ->
  (inner g1 x) ^ 2 + (inner g2 x) ^ 2 <= inner x x.
Proof.
  destruct g1 as [[a0 a1] a2], g2 as [[b0 b1] b2], x as [[x0 x1] x2].
  unfold orthonormal2, unit_vector. simpl. intros (U1 & U2 & O).
  set (y1 := a0 * x0 + a1 * x1 + a2 * x2).
  set (y2 := b0 * x0 + b1 * x1 + b2 * x2).
  assert (E : (x0 - y1 * a0 - y2 * b0) ^ 2 + (x1 - y1 * a1 - y2 * b1) ^ 2
              + (x2 - y1 * a2 - y2 * b2) ^ 2
              = (x0 * x0 + x1 * x1 + x2 * x2) - 2 * y1 ^ 2 - 2 * y2 ^ 2
                + y1 ^ 2 * (a0 * a0 + a1 * a1 + a2 * a2)
                + y2 ^ 2 * (b0 * b0 + b1 * b1 + b2 * b2)
                + 2 * y1 * y2 * (a0 * b0 + a1 * b1 + a2 * b2)).
  { unfold y1, y2. ring. }
  rewrite U1, U2, O in E.
  pose proof (pow2_ge_0 (x0 - y1 * a0 - y2 * b0)).
  pose proof (pow2_ge_0 (x1 - y1 * a1 - y2 * b1)).
  pose proof (pow2_ge_0 (x2 - y1 * a2 - y2 * b2)).
  replace (y1 * (y1 * 1)) with (y1 ^ 2) by ring.
  replace (y2 * (y2 * 1)) with (y2 ^ 2) by ring.
  lra.
Qed.

Lemma sum_over_le_scaled {A : Type} (f : A -> R) (P : A -> Prop) (c : R)
    (xs : list A) :
  (forall x, P x -> f x <= c) -> Forall P xs ->
  sum_over f xs <= c * INR (length xs).
Proof.
  intros H F. unfold sum_over.
  induction F as [| x xs Hx F IH]; [simpl; lra |].
  cbn [map fold_right length]. rewrite S_INR. specialize (H x Hx). lra.
Qed.

(** The two estimates, from r1 in (0, 1) and r2, when the rows are within
    [e] of unit length and (1 - r1)^2 exceeds [e]: the floor on kappa is not
    reached and 2 beta stays away from kappa. *)
Lemma estimates_strictly_inside (e r1 r2 q0 : R) :
  0 <= e <= 1 -> 0 <= r2 -> r2 <= 1 + e - q0 -> r1 ^ 2 <= q0 ->
  0 < r1 < 1 -> e < (1 - r1) ^ 2 ->
  let k := py_max minimum_value_for_kappa
             (1 / (2 - 2 * r1 - r2) + 1 / (2 - 2 * r1 + r2)) in
  let b := 0.5 * (1 / (2 - 2 * r1 - r2) - 1 / (2 - 2 * r1 + r2)) in
  k = 1 / (2 - 2 * r1 - r2) + 1 / (2 - 2 * r1 + r2) /\
  0 <= b /\ 1 / 2 < k - 2 * b.
Proof.
  intros He H2 Hq Hr Hr1 Hgap k b.
  assert (Hm : 0 < 2 - 2 * r1 - r2) by nra.
  assert (Hp : 0 < 2 - 2 * r1 + r2) by lra.
  assert (Hp4 : 2 - 2 * r1 + r2 < 4) by nra.
  assert (Im : 0 < 1 / (2 - 2 * r1 - r2)) by (apply Rdiv_lt_0_compat; lra).
  assert (Ip : 1 / 4 < 1 / (2 - 2 * r1 + r2)).
  { unfold Rdiv. rewrite !Rmult_1_l. apply Rinv_lt_contravar; [nra | lra]. }
  assert (Hle : 1 / (2 - 2 * r1 + r2) <= 1 / (2 - 2 * r1 - r2)).
  { unfold Rdiv. rewrite !Rmult_1_l. apply Rinv_le_contravar; lra. }
  assert (Ek : k = 1 / (2 - 2 * r1 - r2) + 1 / (2 - 2 * r1 + r2)).
  { subst k. unfold py_max, minimum_value_for_kappa.
    destruct (Rlt_dec _ _); [reflexivity | lra]. }
  split; [exact Ek |]. rewrite Ek. subst b. split; lra.
Qed.

Lemma log_normalize_ext (G : R -> R) (I : R -> R -> R)
    (d d' : KentDistribution) (fuel : nat) (c : cache) :
  kappa d = kappa d' -> beta d = beta d' ->
  log_normalize G I d fuel c = log_normalize G I d' fuel c.
Proof.
  intros Ek Eb. unfold log_normalize, normalize. now rewrite Ek, Eb.
Qed.

Section FurtherEstimator.

Variable eig : mat2 -> (R * R) * mat2.
Hypothesis eig_symmetric :
  forall M, symmetric2 M -> eig_contract M (eig M).

(** What [kent_me] returns on rows within [e] of unit length whose mean
    resultant length r1 satisfies 0 < r1 < 1 and (1 - r1)^2 > e. *)
Lemma kent_me_result (e : R) (xs : list vec3) :
  xs <> [] -> Forall (nearly_unit e) xs -> e <= 1 ->
  0 < norm (average_vec xs) < 1 -> e < (1 - norm (average_vec xs)) ^ 2 ->
  exists d,
    kent_me eig xs = Ok d /\ constructed d /\ orthonormal_frame d /\
    gamma1 d = vdiv (average_vec xs) (norm (average_vec xs)) /\
    0 <= beta d /\ 1 / 2 < kappa d - 2 * beta d /\
    minimum_value_for_kappa < kappa d /\
    sum_over (fun x => inner (gamma3 d) x * inner (gamma3 d) x) xs
    <= sum_over (fun x => inner (gamma2 d) x * inner (gamma2 d) x) xs.
Proof.
  intros Hne Hunit He1 [Hr0' Hr1] Hgap.
  assert (Hr0 : norm (average_vec xs) <> 0) by lra.
  assert (He0 : 0 <= e).
  { destruct xs as [| x xs']; [contradiction |].
    inversion Hunit as [| ? ? Hx _]. unfold nearly_unit in Hx.
    pose proof (Rabs_pos (inner x x - 1)). lra. }
  unfold kent_me.
  set (xbar := average_vec xs) in *. set (r1 := norm xbar) in *.
  set (S := average_mat (map (fun x => outer x x) xs)).
  assert (HN : 0 < INR (length xs)).
  { destruct xs; [contradiction |]. apply lt_0_INR. simpl. lia. }
  assert (Hr1pos : 0 < r1) by exact Hr0'.
  pose proof (unit_vdiv_norm xbar Hr0) as Ug. fold r1 in Ug.
  assert (Hgx : inner (vdiv xbar r1) (vscale (INR (length xs)) xbar)
                = INR (length xs) * r1).
  { rewrite inner_vscale_r, inner_vdiv_l. unfold r1.
    rewrite <- norm_sqr. field. exact Hr0. }
  destruct (vdiv xbar r1) as [[a b] c] eqn:Eg.
  cbv beta iota delta [gamma1_to_spherical_coordinates].
  destruct (gamma1_angles a b c Ug) as (Ha & Hb & Hc & _).
  set (th := arccos a) in *. set (ph := arctan2 c b) in *.
  unfold create_matrix_Ht.
  set (H := create_matrix_H th ph).
  set (B := MMul (transpose H) (MMul S H)).
  assert (Bsym : symmetric2 (lower_block B)).
  { rewrite lower_block_entries. unfold symmetric2, B.
    rewrite <- !bilinear_change_of_basis. apply second_moment_symmetric. }
  pose proof (eig_symmetric _ Bsym) as C.
  destruct (descending_contract _ _ C) as (l0 & l1 & V & Esw & C' & Hl).
  destruct (eig (lower_block B)) as [eigvals eigvects].
  cbn [fst snd] in Esw. rewrite Esw. clear Esw C.
  set (G := MMul H (embed_block V)).
  rewrite (congruence_entries S G). cbv beta iota.
  destruct (estimator_frame th ph _ l0 l1 V C')
    as (E0 & (U0 & U1 & O01) & O12 & O20).
  pose proof (estimator_third_axis th ph _ l0 l1 V C') as U2.
  fold H G in E0, U0, U1, O01, O12, O20, U2.
  rewrite Ha, Hb, Hc in E0.
  destruct (col_MMul H (embed_block V)) as (_ & K1 & K2). fold G in K1, K2.
  destruct (eigen_forms B l0 l1 V C') as [F1 F2].
  unfold B in F1, F2. rewrite <- !bilinear_change_of_basis in F1, F2.
  rewrite <- K1 in F1. rewrite <- K2 in F2.
  rewrite F1, F2.
  set (q0 := inner (col0 G) (dot S (col0 G))).
  assert (Q0 : q0 = sum_over (fun x => inner (col0 G) x * inner (col0 G) x) xs
                    / INR (length xs))
    by apply bilinear_second_moment.
  assert (Q1 : l0 = sum_over (fun x => inner (col1 G) x * inner (col1 G) x) xs
                    / INR (length xs))
    by (rewrite <- F1; apply bilinear_second_moment).
  assert (Q2 : l1 = sum_over (fun x => inner (col2 G) x * inner (col2 G) x) xs
                    / INR (length xs))
    by (rewrite <- F2; apply bilinear_second_moment).
  assert (Hq2 : 0 <= l1).
  { rewrite Q2. apply Rmult_le_pos.
    - apply sum_over_nonneg. intro x. nra.
    - apply Rlt_le, Rinv_0_lt_compat, HN. }
  assert (Hq01 : q0 + l0 <= 1 + e).
  { rewrite Q0, Q1. unfold Rdiv. rewrite <- Rmult_plus_distr_r, <- sum_over_plus.
    apply Rmult_le_reg_r with (INR (length xs)); [exact HN |].
    rewrite Rmult_assoc, Rinv_l, Rmult_1_r by lra.
    apply (sum_over_le_scaled _ (nearly_unit e)); [| exact Hunit].
    intros x Ux. unfold nearly_unit in Ux.
    pose proof (bessel2_general _ _ x (conj U0 (conj U1 O01))).
    pose proof (Rle_abs (inner x x - 1)). lra. }
  assert (Hq0 : r1 ^ 2 <= q0).
  { pose proof (sum_over_square_le (inner (col0 G)) xs Hne) as CS.
    rewrite <- inner_sum, (average_vec_sum xs Hne) in CS. fold xbar in CS.
    rewrite E0, Hgx in CS. rewrite E0 in Q0. fold q0. rewrite Q0.
    apply Rle_trans with ((INR (length xs) * r1) ^ 2 / INR (length xs)
                          / INR (length xs)).
    - right. field. lra.
    - unfold Rdiv at 1 3. apply Rmult_le_compat_r; [| exact CS].
      apply Rlt_le, Rinv_0_lt_compat, HN. }
  destruct (estimates_strictly_inside e r1 (l0 - l1) q0) as (D1 & D2 & D3);
    try lra.
  assert (D4 : minimum_value_for_kappa
               < py_max minimum_value_for_kappa
                   (1 / (2 - 2 * r1 - (l0 - l1)) + 1 / (2 - 2 * r1 + (l0 - l1)))).
  { unfold minimum_value_for_kappa in *. lra. }
  unfold kent4.
  rewrite kent2_orthogonal by assumption.
  match goal with
  | |- exists d, init ?g1 ?g2 ?g3 ?k ?b = _ /\ _ =>
      destruct (init_Ok g1 g2 g3 k b)
        as (d & Hd & G1 & G2 & G3 & Ek & Eb & _);
      exists d; split; [exact Hd |];
      split; [now exists g1, g2, g3, k, b |]
  end.
  rewrite G1, G2, G3, Ek, Eb.
  split.
  { unfold orthonormal_frame, orthonormal2. rewrite G1, G2, G3.
    repeat split; assumption. }
  split; [exact E0 |]. split; [exact D2 |]. split; [exact D3 |].
  split; [exact D4 |].
  apply Rmult_le_reg_r with (/ INR (length xs));
    [apply Rinv_0_lt_compat, HN |].
  fold (sum_over (fun x => inner (col2 G) x * inner (col2 G) x) xs
        / INR (length xs)).
  fold (sum_over (fun x => inner (col1 G) x * inner (col1 G) x) xs
        / INR (length xs)).
  rewrite <- Q1, <- Q2. exact Hl.
Qed.

(** X14: the moment estimate on a well-conditioned sample.  The rows are
    unit vectors up to rounding (within 1E-12), and their mean has a length
    r1 between 0.001 and 1 - 1E-5, which keeps the sample away from both a
    vanishing mean and the concentration at which 2 - 2 r1 - r2 cancels.
    Then [kent_me] returns an object with an orthonormal frame; its
    estimates lie strictly inside the domain: beta >= 0,
    kappa - 2 beta > 1/2, and kappa is above the floor [1E-6], which
    therefore is not the value returned; the second axis carries at least
    the spread of the third (the sum of the squared projections of the
    sample is at least as large); and when the mean lies on the polar axis
    or at least 0.01 off it, the first axis is the normalized mean. *)
Theorem kent_me_returns_a_frame (xs : list vec3) :
  xs <> [] -> Forall (nearly_unit 1e-12) xs ->
  / 1000 <= norm (average_vec xs) <= 1 - / 100000 ->
  exists d,
    kent_me eig xs = Ok d /\ constructed d /\ orthonormal_frame d /\
    0 <= beta d /\ 2 * beta d <= kappa d /\
    1 / 2 < kappa d - 2 * beta d /\
    minimum_value_for_kappa < kappa d /\
    sum_over (fun x => inner (gamma3 d) x * inner (gamma3 d) x) xs
    <= sum_over (fun x => inner (gamma2 d) x * inner (gamma2 d) x) xs /\
    (clear_of_the_poles 0 (polar_sine (average_vec xs)) ->
     gamma1 d = vdiv (average_vec xs) (norm (average_vec xs))).
Proof.
  intros Hne Hunit [Hlo Hhi].
  destruct (kent_me_result 1e-12 xs Hne Hunit)
    as (d & Hd & Hc & Hf & G1 & Hb & Hk & Hm & Hs); [lra | lra | nra |].
  exists d.
  split; [exact Hd |]. split; [exact Hc |]. split; [exact Hf |].
  split; [exact Hb |]. split; [lra |]. split; [exact Hk |].
  split; [exact Hm |]. split; [exact Hs |]. intros _. exact G1.
Qed.

Section FurtherMLE.

Variable G : R -> R.
Variable I : R -> R -> R.
Variable minimize : minimize_call -> cache -> OptimizeResult * cache.

(** The candidate at the start point of the search. *)
Lemma start_point_candidate (k_me : KentDistribution) (xs : list vec3)
    (fuel : nat) :
  constructed k_me -> orthonormal_frame k_me ->
  0 <= beta k_me -> minimum_value_for_kappa <= kappa k_me ->
  exists d0,
    generate_k (call_x0 (mle_call G I xs fuel k_me)) = Ok d0 /\
    kappa d0 = kappa k_me /\ beta d0 = beta k_me /\
    gamma1 d0 = gamma1 k_me /\ gamma2 d0 = gamma2 k_me /\
    gamma3 d0 = cross (gamma1 k_me) (gamma2 k_me).
Proof.
  intros Hc (O12 & _) Hb Hk.
  unfold mle_call, call_x0, generate_k.
  rewrite (Rabs_pos_eq (beta k_me)) by exact Hb.
  rewrite Rabs_pos_eq by lra.
  replace (minimum_value_for_kappa + (kappa k_me - minimum_value_for_kappa))
    with (kappa k_me) by ring.
  destruct (kent_Ok (theta k_me) (phi k_me) (psi k_me) (kappa k_me) (beta k_me))
    as (d0 & Hd0 & Ek & Eb & Eg).
  exists d0. split; [exact Hd0 |]. split; [exact Ek |]. split; [exact Eb |].
  pose proof (roundtrip (gamma1 k_me) (gamma2 k_me) O12) as RT.
  rewrite <- (constructed_angles k_me Hc) in RT.
  rewrite RT in Eg. injection Eg as E1 E2 E3. auto.
Qed.

Lemma log_density_third_axis (d d' : KentDistribution) (x : vec3) :
  orthonormal_frame d ->
  kappa d' = kappa d -> beta d' = beta d ->
  gamma1 d' = gamma1 d -> gamma2 d' = gamma2 d ->
  gamma3 d' = cross (gamma1 d) (gamma2 d) ->
  log_density d' x = log_density d x.
Proof.
  intros (O12 & U3 & O23 & O31) Ek Eb E1 E2 E3.
  unfold log_density. rewrite Ek, Eb, E1, E2, E3.
  destruct (third_axis_sign _ _ _ O12 U3 O23 O31) as [-> | ->].
  - reflexivity.
  - destruct (cross (gamma1 d) (gamma2 d)) as [[n1 n2] n3], x as [[x1 x2] x3].
    simpl. ring.
Qed.

(** X15: the search of [kent_mle] starts at the moment estimate.  On a
    well-conditioned sample as in X14 whose mean lies on the polar axis or at
    least 0.01 off it, the start point handed to the solver satisfies the
    three constraints, and the candidate distribution built from it has the
    kappa, beta, first and second axis of the moment estimate, the same
    density at every point, and so the same objective value. *)
Theorem kent_mle_starts_at_the_moment_estimate (xs : list vec3)
    (fuel : nat) (c : cache) :
  xs <> [] -> Forall (nearly_unit 1e-12) xs ->
  / 1000 <= norm (average_vec xs) <= 1 - / 100000 ->
  clear_of_the_poles 0 (polar_sine (average_vec xs)) ->
  exists k_me d0,
    kent_me eig xs = Ok k_me /\
    let call := mle_call G I xs fuel k_me in
    feasible (call_constraints call) (call_x0 call) /\
    generate_k (call_x0 call) = Ok d0 /\
    kappa d0 = kappa k_me /\ beta d0 = beta k_me /\
    gamma1 d0 = gamma1 k_me /\ gamma2 d0 = gamma2 k_me /\
    (forall x, log_density d0 x = log_density k_me x) /\
    call_fun call (call_x0 call) c
    = (l <- fst (log_likelihood G I k_me 0 xs fuel c) ;;
       Ok (- l / INR (length xs)),
       snd (log_likelihood G I k_me 0 xs fuel c)).
Proof.
  intros Hne Hunit [Hlo Hhi] _.
  destruct (kent_me_result 1e-12 xs Hne Hunit)
    as (k_me & Hd & Hc & Hf & _ & Hb & Hk & Hm & _); [lra | lra | nra |].
  assert (Hkm : minimum_value_for_kappa <= kappa k_me) by lra.
  destruct (start_point_candidate k_me xs fuel Hc Hf Hb Hkm)
    as (d0 & Hd0 & Ek & Eb & E1 & E2 & E3).
  exists k_me, d0. split; [exact Hd |]. intro call.
  assert (Hdens : forall x, log_density d0 x = log_density k_me x).
  { intro x. now apply log_density_third_axis. }
  split; [| split; [exact Hd0 |]].
  - apply feasible_cons. unfold call, mle_call, call_x0.
    unfold minimum_value_for_kappa in *.
    rewrite (Rabs_pos_eq (beta k_me)) by exact Hb.
    rewrite Rabs_pos_eq by lra. lra.
  - repeat (split; [assumption |]).
    change (call_fun call (call_x0 call) c)
      with (minus_log_likelihood G I xs fuel
              (call_x0 (mle_call G I xs fuel k_me)) c).
    unfold minus_log_likelihood. rewrite Hd0.
    assert (EL : log_likelihood G I d0 0 xs fuel c
                 = log_likelihood G I k_me 0 xs fuel c).
    { unfold log_likelihood. rewrite !log_pdf_normalized.
      rewrite (log_normalize_ext G I d0 k_me fuel c Ek Eb).
      destruct (log_normalize G I k_me fuel c) as [[lnZ | e |] c1];
        cbn [fst snd bind]; try reflexivity.
      do 3 f_equal. apply (nd_map_ext _ _ 1). intro x. now rewrite Hdens. }
    rewrite EL.
    destruct (log_likelihood G I k_me 0 xs fuel c) as [r c1]. reflexivity.
Qed.

(** X16: whatever the solver returns, also a point that violates the
    constraints or a reported failure, [kent_mle] returns an object when
    [kent_me] did: its kappa is at least the floor [1E-6], its beta is not
    negative, its frame is orthonormal and right-handed, and the memo table
    is the one the solver left; when the returned point satisfies the
    constraints, 2 beta <= kappa - 1E-6.  When [kent_me] raises, [kent_mle]
    raises the same error without calling the solver. *)
Theorem kent_mle_result_is_valid (xs : list vec3) (fuel : nat) (c : cache) :
  (forall k_me, kent_me eig xs = Ok k_me ->
     let call := mle_call G I xs fuel k_me in
     exists d,
       kent_mle G I eig minimize xs fuel c = (Ok d, snd (minimize call c)) /\
       minimum_value_for_kappa <= kappa d /\ 0 <= beta d /\
       constructed d /\ orthonormal_frame d /\
       gamma3 d = cross (gamma1 d) (gamma2 d) /\
       (feasible (call_constraints call) (res_x (fst (minimize call c))) ->
        2 * beta d <= kappa d - minimum_value_for_kappa)) /\
  (forall e, kent_me eig xs = Raise e ->
     kent_mle G I eig minimize xs fuel c = (Raise e, c)).
Proof.
  split.
  - intros k_me Hme call. unfold kent_mle. rewrite Hme. fold call.
    destruct (minimize call c) as [res c1]. cbn [fst snd].
    destruct (res_x res) as [[[[ft fp] fs] fk] fb] eqn:Ex.
    unfold generate_k.
    destruct (kent_Ok ft fp fs (minimum_value_for_kappa + Rabs fk) (Rabs fb))
      as (d & Hd & Ek & Eb & Eg).
    exists d. split; [now rewrite Hd |].
    pose proof (Rabs_pos fk). pose proof (Rabs_pos fb).
    split; [rewrite Ek; lra |]. split; [rewrite Eb; lra |].
    destruct (kent_orthonormal_frame _ _ _ _ _ _ Hd) as [Hc Hf].
    split; [exact Hc |]. split; [exact Hf |].
    split.
    + pose proof (angles_frame ft fp fs) as F. rewrite <- Eg in F. apply F.
    + intro Hfe. apply feasible_cons in Hfe. rewrite Ek, Eb. lra.
  - intros e He. unfold kent_mle. now rewrite He.
Qed.

End FurtherMLE.

End FurtherEstimator.

Lemma unit_nearly_unit (e : R) (xs : list vec3) :
  0 <= e -> Forall unit_vector xs -> Forall (nearly_unit e) xs.
Proof.
  intros He H. apply Forall_forall. intros x Hx.
  rewrite Forall_forall in H. specialize (H x Hx).
  unfold nearly_unit, unit_vector in *.
  rewrite H, Rminus_diag, Rabs_R0. exact He.
Qed.

Lemma sample_pair_conditions :
  sample_pair <> [] /\ Forall unit_vector sample_pair /\
  norm (average_vec sample_pair) = 3 / 5 /\
  clear_of_the_poles 0 (polar_sine (average_vec sample_pair)).
Proof.
  assert (Hsq : norm (average_vec sample_pair) * norm (average_vec sample_pair)
                = 9 / 25).
  { rewrite norm_sqr. unfold average_vec, sample_pair. simpl. field. }
  split; [discriminate |]. split; [| split].
  - repeat constructor; unfold unit_vector; simpl; field.
  - pose proof (norm_nonneg (average_vec sample_pair)). nra.
  - left. unfold polar_sine, average_vec, sample_pair. simpl.
    match goal with
    | |- context [sqrt ?t] => replace t with 0 by field
    end.
    rewrite sqrt_0. unfold Rdiv. rewrite Rmult_0_l, Rabs_R0. lra.
Qed.

Lemma kent_me_returns_a_frame_witness :
  (forall M, symmetric2 M -> eig_contract M (eig_closed_form M)) /\
  (sample_pair = [] -> False) /\ Forall (nearly_unit 1e-12) sample_pair /\
  / 1000 <= norm (average_vec sample_pair) <= 1 - / 100000 /\
  clear_of_the_poles 0 (polar_sine (average_vec sample_pair)) /\
  exists d,
    kent_me eig_closed_form sample_pair = Ok d /\ orthonormal_frame d /\
    gamma1 d = vdiv (average_vec sample_pair) (norm (average_vec sample_pair)) /\
    0 <= beta d /\ 2 * beta d <= kappa d /\
    minimum_value_for_kappa < kappa d.
Proof.
  destruct sample_pair_conditions as (Hne & Hu & Hn & Hp).
  assert (Hu' : Forall (nearly_unit 1e-12) sample_pair)
    by (apply unit_nearly_unit; [lra | exact Hu]).
  assert (Hr : / 1000 <= norm (average_vec sample_pair) <= 1 - / 100000)
    by (rewrite Hn; lra).
  split; [exact eig_closed_form_contract |].
  split; [exact Hne |]. split; [exact Hu' |].
  split; [exact Hr |]. split; [exact Hp |].
  destruct (kent_me_returns_a_frame eig_closed_form eig_closed_form_contract
              sample_pair Hne Hu' Hr)
    as (d & Hd & _ & Hf & Hb & H2 & _ & Hk & _ & G1).
  exists d. split; [exact Hd |]. split; [exact Hf |].
  split; [exact (G1 Hp) |]. auto.
Defined.

Lemma kent_mle_starts_at_the_moment_estimate_witness :
  (forall M, symmetric2 M -> eig_contract M (eig_closed_form M)) /\
  (sample_pair = [] -> False) /\ Forall (nearly_unit 1e-12) sample_pair /\
  / 1000 <= norm (average_vec sample_pair) <= 1 - / 100000 /\
  clear_of_the_poles 0 (polar_sine (average_vec sample_pair)) /\
  exists k_me d0,
    kent_me eig_closed_form sample_pair = Ok k_me /\
    feasible cons (call_x0 (mle_call unit_gamma cutoff_bessel sample_pair 0 k_me)) /\
    generate_k (call_x0 (mle_call unit_gamma cutoff_bessel sample_pair 0 k_me))
    = Ok d0 /\
    kappa d0 = kappa k_me /\ beta d0 = beta k_me.
Proof.
  destruct sample_pair_conditions as (Hne & Hu & Hn & Hp).
  assert (Hu' : Forall (nearly_unit 1e-12) sample_pair)
    by (apply unit_nearly_unit; [lra | exact Hu]).
  assert (Hr : / 1000 <= norm (average_vec sample_pair) <= 1 - / 100000)
    by (rewrite Hn; lra).
  split; [exact eig_closed_form_contract |].
  split; [exact Hne |]. split; [exact Hu' |].
  split; [exact Hr |]. split; [exact Hp |].
  destruct (kent_mle_starts_at_the_moment_estimate eig_closed_form
              eig_closed_form_contract unit_gamma cutoff_bessel
              sample_pair 0 [] Hne Hu' Hr Hp)
    as (k_me & d0 & Hd & Hfe & Hg & Ek & Eb & _).
  exists k_me, d0. auto.
Defined.

Lemma kent_mle_result_is_valid_witness :
  exists k_me d,
    kent_me eig_closed_form sample_pair = Ok k_me /\
    kent_mle unit_gamma cutoff_bessel eig_closed_form idle_solver
      sample_pair 0 []
    = (Ok d, []) /\
    minimum_value_for_kappa <= kappa d /\ 0 <= beta d /\ orthonormal_frame d.
Proof.
  destruct sample_pair_conditions as (Hne & Hu & Hn & _).
  assert (Hu' : Forall (nearly_unit 0) sample_pair)
    by (apply unit_nearly_unit; [lra | exact Hu]).
  destruct (kent_me_result eig_closed_form eig_closed_form_contract
              0 sample_pair Hne Hu') as (k_me & Hd & _);
    [lra | rewrite Hn; lra | rewrite Hn; lra |].
  destruct (kent_mle_result_is_valid eig_closed_form unit_gamma cutoff_bessel
              idle_solver sample_pair 0 []) as [V _].
  destruct (V k_me Hd) as (d & Hm & Hk & Hb & _ & Hf & _).
  exists k_me, d. auto.
Defined.

(* ------------------------------------------------------------------ *)
(** ** Further properties: the rejection sampler *)

Lemma slice_conservation {A : Type} (l : list A) (i : Z) :
  slice_to l i ++ slice_from l i = l.
Proof. apply firstn_skipn. Qed.

Lemma slice_to_length {A : Type} (l : list A) (i : Z) :
  (0 <= i <= Z.of_nat (length l))%Z -> length (slice_to l i) = Z.to_nat i.
Proof.
  intros [H0 H1]. unfold slice_to, slice_index.
  destruct (Z.ltb_spec i 0); [lia |].
  rewrite length_firstn. lia.
Qed.

Lemma slice_to_negative {A : Type} (l : list A) (i : Z) :
  (i < 0)%Z -> slice_to l i = firstn (length l - Z.to_nat (- i)) l.
Proof.
  intro H. unfold slice_to, slice_index.
  destruct (Z.ltb_spec i 0); [| lia]. f_equal. lia.
Qed.

(** The mask of the sampler selects the rows whose uniform draw is below
    the exponential of the shifted log-density. *)
Lemma mask_filter (h : vec3 -> R) (m : R) (xs : list vec3) :
  forall us : list R,
    map fst (filter snd
      (combine xs (map (fun p => Rltb (fst p) (exp (snd p)))
                       (combine us (map (fun v => v - m) (map h xs))))))
    = map fst (filter (fun p => Rltb (snd p) (exp (h (fst p) - m)))
                      (combine xs us)).
Proof.
  induction xs as [| x xs IH]; intros [| u us]; try reflexivity.
  simpl. destruct (Rltb u (exp (h x - m))); simpl; now rewrite IH.
Qed.

Section FurtherSampling.

Variable G : R -> R.
Variable I : R -> R -> R.
Variable rng : Type.
Variable gauss_rvs : rng -> nat -> list vec3 * rng.
Variable uniform_rvs : rng -> nat -> list R * rng.

Local Abbreviation helper := (_rvs_helper G I rng gauss_rvs uniform_rvs).
Local Abbreviation loop := (rvs_loop G I rng gauss_rvs uniform_rvs).
Local Abbreviation sampler := (rvs G I rng gauss_rvs uniform_rvs).
Local Abbreviation batch := (candidates rng gauss_rvs uniform_rvs).
Local Abbreviation after_batch := (state_after_batch rng gauss_rvs uniform_rvs).

Lemma rvs_helper_value (d : KentDistribution) (s : rng) :
  helper d s = (Ok (map fst (filter (accepts d) (batch s))), after_batch s).
Proof.
  unfold _rvs_helper, candidates, state_after_batch.
  destruct (gauss_rvs s (Z.to_nat 10000)) as [xs s1].
  rewrite log_pdf_unnormalized. cbn [fst].
  pose proof (log_pdf_max_unnormalized G I d 0 []) as M. cbv zeta in M.
  rewrite M. cbn [fst].
  destruct (uniform_rvs s1 (Z.to_nat 10000)) as [us s2]. cbn [snd].
  f_equal. f_equal.
  change (nd_map (log_density d) 1 (map (fun x => vdiv x (norm x)) xs))
    with (map (log_density d) (map normalized xs)).
  apply (mask_filter (log_density d)).
Qed.

Lemma batch_rows (s : rng) :
  draws_n_rows rng gauss_rvs uniform_rvs ->
  length (batch s) = Z.to_nat 10000.
Proof.
  intros [Hg Hu]. unfold candidates.
  pose proof (Hg s (Z.to_nat 10000)) as Lg.
  destruct (gauss_rvs s (Z.to_nat 10000)) as [xs s1]. cbn [fst] in Lg.
  pose proof (Hu s1 (Z.to_nat 10000)) as Lu.
  destruct (uniform_rvs s1 (Z.to_nat 10000)) as [us s2]. cbn [fst] in Lu.
  rewrite length_combine, length_map, Lg, Lu. apply Nat.min_id.
Qed.

Lemma batch_unit (s : rng) :
  draws_nonzero_rows rng gauss_rvs ->
  Forall (fun p => unit_vector (fst p)) (batch s).
Proof.
  intro Hz. unfold candidates.
  pose proof (Hz s (Z.to_nat 10000)) as Z.
  destruct (gauss_rvs s (Z.to_nat 10000)) as [xs s1]. cbn [fst] in Z.
  destruct (uniform_rvs s1 (Z.to_nat 10000)) as [us s2].
  apply Forall_forall. intros [x u] Hin. cbn [fst].
  apply in_combine_l in Hin. apply in_map_iff in Hin.
  destruct Hin as (g & <- & Hg).
  rewrite Forall_forall in Z. apply unit_vdiv_norm, Z, Hg.
Qed.

Lemma accepted_unit (d : KentDistribution) (s : rng) :
  draws_nonzero_rows rng gauss_rvs ->
  Forall unit_vector (map fst (filter (accepts d) (batch s))).
Proof.
  intro Hz. pose proof (batch_unit s Hz) as U.
  rewrite Forall_forall in U. apply Forall_forall. intros x Hin.
  apply in_map_iff in Hin. destruct Hin as (p & <- & Hp).
  apply filter_In in Hp. apply U, Hp.
Qed.

(** X17: one batch of the sampler is a rejection step.  [_rvs_helper] never
    raises; it draws 10000 Gaussian rows, then 10000 uniform numbers, and
    returns, in their order, the normalized rows x whose uniform number u
    satisfies u < exp(f(x) - fmax).  When no Gaussian row is zero every
    candidate and every returned row is a unit vector, and on an object with
    an orthonormal frame, kappa >= 0 and beta >= 0 the acceptance threshold
    exp(f(x) - fmax) of every candidate lies in (0, 1]. *)
Theorem rvs_helper_is_a_rejection_step (d : KentDistribution) (s : rng) :
  draws_n_rows rng gauss_rvs uniform_rvs ->
  draws_nonzero_rows rng gauss_rvs ->
  helper d s = (Ok (map fst (filter (accepts d) (batch s))), after_batch s) /\
  length (batch s) = Z.to_nat 10000 /\
  (forall p, In p (batch s) ->
     unit_vector (fst p) /\
     (accepts d p = true <->
      snd p < exp (log_density d (fst p) - mode_value d)) /\
     (orthonormal_frame d -> 0 <= kappa d -> 0 <= beta d ->
      0 < exp (log_density d (fst p) - mode_value d) <= 1)) /\
  Forall unit_vector (map fst (filter (accepts d) (batch s))).
Proof.
  intros Hn Hz.
  split; [apply rvs_helper_value |].
  split; [apply batch_rows, Hn |].
  split; [| apply accepted_unit, Hz].
  intros p Hp.
  pose proof (batch_unit s Hz) as U. rewrite Forall_forall in U.
  specialize (U p Hp).
  split; [exact U |]. split; [apply Rltb_spec |].
  intros Hf Hk Hb. split; [apply exp_pos |].
  assert (L : log_density d (fst p) <= mode_value d)
    by apply (log_density_le_max d (fst p) Hf Hk Hb U).
  rewrite <- exp_0.
  destruct (Rle_lt_or_eq_dec _ _ L) as [Lt | Eq].
  - apply Rlt_le, exp_increasing. lra.
  - right. f_equal. lra.
Qed.

Lemma rvs_loop_done (fuel : nat) (d : KentDistribution) (n : Z)
    (rows : list vec3) (s : rng) :
  (n <= Z.of_nat (length rows))%Z -> loop fuel d n rows s = (Ok rows, s).
Proof.
  intro H. destruct fuel; simpl;
    (destruct (Z.ltb_spec (Z.of_nat (length rows)) n); [lia | reflexivity]).
Qed.

Lemma rvs_loop_draws (d : KentDistribution) (n : Z) (Q : vec3 -> Prop) :
  (forall s, batch_accepts G I rng gauss_rvs uniform_rvs d s) ->
  (forall s out s', helper d s = (Ok out, s') -> Forall Q out) ->
  forall fuel rows s,
    (Z.to_nat n - length rows <= fuel)%nat ->
    exists drawn s',
      loop fuel d n rows s = (Ok (rows ++ drawn), s') /\
      (n <= Z.of_nat (length (rows ++ drawn)))%Z /\ Forall Q drawn.
Proof.
  intros Hacc HQ. induction fuel as [| fuel IH]; intros rows s Hf.
  - exists [], s. rewrite app_nil_r.
    assert (Hn : (n <= Z.of_nat (length rows))%Z) by lia.
    split; [apply rvs_loop_done, Hn | split; [exact Hn | constructor]].
  - destruct (Z.ltb_spec (Z.of_nat (length rows)) n) as [Lt | Ge].
    + destruct (Hacc s) as (x & out & s1 & Hh).
      pose proof (HQ _ _ _ Hh) as Qo.
      destruct (IH (rows ++ x :: out) s1) as (drawn & s' & Hl & Hlen & Qd).
      { rewrite length_app. simpl. lia. }
      exists ((x :: out) ++ drawn), s'.
      rewrite app_assoc. split; [| split; [exact Hlen |]].
      * simpl. destruct (Z.ltb_spec (Z.of_nat (length rows)) n); [| lia].
        rewrite Hh. exact Hl.
      * apply Forall_app. split; assumption.
    + exists [], s. rewrite app_nil_r.
      split; [apply rvs_loop_done, Ge | split; [exact Ge | constructor]].
Qed.

(** X18: [rvs] serves from the cache.  When the object holds at least
    [n_samples] unused rows, [rvs(n_samples)] draws nothing (the random
    state is unchanged, and no fuel is needed): it returns the first
    [n_samples] cached rows and keeps the rest, so returned and kept rows
    together are the old cache.  A negative [n_samples] is not refused: the
    call returns all cached rows but the last [-n_samples] and keeps
    those.  With [n_samples=None] and a non-empty cache the first cached row
    is returned and the others are kept. *)
Theorem rvs_serves_from_the_cache (d : KentDistribution) (n : Z)
    (fuel : nat) (s : rng) :
  (n <= Z.of_nat (length (cached_rvs d)))%Z ->
  let rows := slice_to (cached_rvs d) n in
  let kept := slice_from (cached_rvs d) n in
  sampler (Some n) d fuel s = (Ok (rows, set_cached_rvs d kept), s) /\
  rows ++ kept = cached_rvs d /\
  ((0 <= n)%Z -> length rows = Z.to_nat n) /\
  ((n < 0)%Z ->
   rows = firstn (length (cached_rvs d) - Z.to_nat (- n)) (cached_rvs d)) /\
  (forall x rest, cached_rvs d = x :: rest ->
     sampler None d fuel s = (Ok (x, set_cached_rvs d rest), s)).
Proof.
  intros Hn rows kept.
  split; [| split; [apply slice_conservation | split; [| split]]].
  - unfold rvs. rewrite rvs_loop_done by exact Hn. reflexivity.
  - intro H0. apply slice_to_length. lia.
  - apply slice_to_negative.
  - intros x rest E. unfold rvs. rewrite rvs_loop_done.
    + rewrite E. reflexivity.
    + rewrite E. simpl length. lia.
Qed.

Lemma drawn_rows_unit (d : KentDistribution) (k : nat) :
  draws_nonzero_rows rng gauss_rvs ->
  forall s, Forall unit_vector (drawn_rows rng gauss_rvs uniform_rvs d k s).
Proof.
  intro Hz. induction k as [| k IH]; intro s; simpl; [constructor |].
  apply Forall_app. split; [apply accepted_unit, Hz | apply IH].
Qed.

(** The loop of [rvs] runs the least number of batches that fills the
    request, and appends what they keep. *)
Lemma rvs_loop_batches (d : KentDistribution) (n : Z) :
  (forall s, batch_accepts G I rng gauss_rvs uniform_rvs d s) ->
  forall fuel rows s,
    (Z.to_nat n - length rows <= fuel)%nat ->
    exists k,
      (k <= fuel)%nat /\
      loop fuel d n rows s
      = (Ok (rows ++ drawn_rows rng gauss_rvs uniform_rvs d k s),
         state_after_batches rng gauss_rvs uniform_rvs k s) /\
      (n <= Z.of_nat
              (length (rows ++ drawn_rows rng gauss_rvs uniform_rvs d k s)))%Z /\
      (forall j, (j < k)%nat ->
         (Z.of_nat
            (length (rows ++ drawn_rows rng gauss_rvs uniform_rvs d j s))
          < n)%Z).
Proof.
  intro Hacc. induction fuel as [| fuel IH]; intros rows s Hf.
  - exists 0%nat. cbn [drawn_rows state_after_batches]. rewrite app_nil_r.
    assert (Hn : (n <= Z.of_nat (length rows))%Z) by lia.
    split; [lia |]. split; [apply rvs_loop_done, Hn |].
    split; [exact Hn | intros j Hj; lia].
  - destruct (Z.ltb_spec (Z.of_nat (length rows)) n) as [Lt | Ge].
    + destruct (Hacc s) as (x & out & s1 & Hh).
      pose proof Hh as Hv. rewrite rvs_helper_value in Hv.
      injection Hv as Eout Es.
      destruct (IH (rows ++ x :: out) s1) as (k & Hk & Hl & Hlen & Hmin).
      { rewrite length_app. simpl. lia. }
      exists (S k). cbn [drawn_rows state_after_batches].
      rewrite Eout, Es, app_assoc.
      split; [lia |]. split; [| split; [exact Hlen |]].
      * simpl. destruct (Z.ltb_spec (Z.of_nat (length rows)) n); [| lia].
        rewrite Hh. exact Hl.
      * intros [| j] Hj.
        -- cbn [drawn_rows]. rewrite app_nil_r. exact Lt.
        -- cbn [drawn_rows]. rewrite Eout, Es, app_assoc. apply Hmin. lia.
    + exists 0%nat. cbn [drawn_rows state_after_batches]. rewrite app_nil_r.
      split; [lia |]. split; [apply rvs_loop_done, Ge |].
      split; [exact Ge | intros j Hj; lia].
Qed.

(** X19: [rvs(n)] returns n unit vectors, taken from the cache and then from
    the batches in the order drawn.  When each draw has as many rows as
    asked, no Gaussian row is zero, every batch keeps at least one row and
    the cached rows are unit vectors, then for n >= 0 and fuel for n batches
    [rvs(n)] runs k batches of [_rvs_helper], k being the least number for
    which the cache together with the rows kept from the first k batches
    holds n rows; the random state is left as those k batches leave it; the
    call returns the first n rows of the cache followed by the kept rows of
    these batches, all of them unit vectors, and stores the remaining rows,
    unit vectors too, as the new cache; nothing else of the object
    changes. *)
Theorem rvs_returns_n_unit_vectors (d : KentDistribution) (n : Z)
    (fuel : nat) (s : rng) :
  draws_n_rows rng gauss_rvs uniform_rvs ->
  draws_nonzero_rows rng gauss_rvs ->
  (forall s, batch_accepts G I rng gauss_rvs uniform_rvs d s) ->
  Forall unit_vector (cached_rvs d) ->
  (0 <= n)%Z -> (Z.to_nat n <= fuel)%nat ->
  exists k : nat,
    let pool := cached_rvs d ++ drawn_rows rng gauss_rvs uniform_rvs d k s in
    (k <= fuel)%nat /\
    sampler (Some n) d fuel s
    = (Ok (slice_to pool n, set_cached_rvs d (slice_from pool n)),
       state_after_batches rng gauss_rvs uniform_rvs k s) /\
    (n <= Z.of_nat (length pool))%Z /\
    (forall j, (j < k)%nat ->
       (Z.of_nat (length (cached_rvs d
                          ++ drawn_rows rng gauss_rvs uniform_rvs d j s))
        < n)%Z) /\
    length (slice_to pool n) = Z.to_nat n /\
    Forall unit_vector (slice_to pool n) /\
    Forall unit_vector (slice_from pool n).
Proof.
  intros _ Hz Hacc Hc H0 Hf.
  destruct (rvs_loop_batches d n Hacc fuel (cached_rvs d) s)
    as (k & Hk & Hl & Hlen & Hmin); [lia |].
  exists k. intro pool. fold pool in Hl, Hlen.
  assert (Ua : Forall unit_vector pool).
  { apply Forall_app. split; [exact Hc | apply drawn_rows_unit, Hz]. }
  split; [exact Hk |].
  split; [unfold rvs; rewrite Hl; reflexivity |].
  split; [exact Hlen |]. split; [exact Hmin |].
  split; [apply slice_to_length; lia |].
  pose proof (slice_conservation pool n) as Cv.
  rewrite <- Cv in Ua. apply Forall_app in Ua. exact Ua.
Qed.

End FurtherSampling.

Lemma repeat_S {A : Type} (x : A) (n : nat) : repeat x (S n) = x :: repeat x n.
Proof. reflexivity. Qed.

Lemma batch_size_S : Z.to_nat 10000 = S (Z.to_nat 9999).
Proof. lia. Qed.

Lemma constant_draws (x : vec3) (u : R) :
  norm x <> 0 ->
  draws_n_rows nat (constant_gauss x) (constant_uniform u) /\
  draws_nonzero_rows nat (constant_gauss x).
Proof.
  intro Hx. split; [split |]; intros s n; simpl.
  - apply repeat_length.
  - apply repeat_length.
  - apply Forall_forall. intros y Hy. apply repeat_spec in Hy. now subst.
Qed.

(** A uniform draw of 0 is below every threshold. *)
Lemma constant_batch_accepts (G : R -> R) (I : R -> R -> R) (x : vec3)
    (d : KentDistribution) (s : nat) :
  batch_accepts G I nat (constant_gauss x) (constant_uniform 0) d s.
Proof.
  unfold batch_accepts. rewrite rvs_helper_value.
  unfold candidates, constant_gauss, constant_uniform.
  rewrite batch_size_S, !repeat_S. cbn [map combine filter].
  assert (A : accepts d (normalized x, 0) = true).
  { unfold accepts. cbn [fst snd]. apply Rltb_true, exp_pos. }
  rewrite A. cbn [map fst]. eauto.
Qed.

Lemma norm_e1 : norm (1, 0, 0) = 1.
Proof. apply unit_vector_norm. unfold unit_vector. simpl. ring. Qed.

Lemma rvs_helper_is_a_rejection_step_witness :
  let d := standard_kent 2 0 in
  draws_n_rows nat (constant_gauss (1, 0, 0)) (constant_uniform 0) /\
  draws_nonzero_rows nat (constant_gauss (1, 0, 0)) /\
  exists out,
    _rvs_helper unit_gamma cutoff_bessel nat (constant_gauss (1, 0, 0))
      (constant_uniform 0) d 0%nat = (Ok out, 2%nat) /\
    Forall unit_vector out.
Proof.
  intro d.
  assert (N : norm (1, 0, 0) <> 0) by (rewrite norm_e1; lra).
  destruct (constant_draws (1, 0, 0) 0 N) as [Hn Hz].
  split; [exact Hn |]. split; [exact Hz |].
  destruct (rvs_helper_is_a_rejection_step unit_gamma cutoff_bessel nat
              (constant_gauss (1, 0, 0)) (constant_uniform 0) d 0%nat Hn Hz)
    as (Hh & _ & _ & U).
  eexists. split; [exact Hh | exact U].
Defined.

Lemma rvs_serves_from_the_cache_witness :
  let d := set_cached_rvs (standard_kent 2 0) [(1, 0, 0); (0, 1, 0); (0, 0, 1)] in
  (2 <= Z.of_nat (length (cached_rvs d)))%Z /\
  rvs unit_gamma cutoff_bessel nat (constant_gauss (1, 0, 0))
    (constant_uniform 0) (Some 2%Z) d 0 0%nat
  = (Ok ([(1, 0, 0); (0, 1, 0)], set_cached_rvs d [(0, 0, 1)]), 0%nat).
Proof.
  intro d.
  assert (H : (2 <= Z.of_nat (length (cached_rvs d)))%Z) by (simpl; lia).
  split; [exact H |].
  exact (proj1 (rvs_serves_from_the_cache unit_gamma cutoff_bessel nat
                  (constant_gauss (1, 0, 0)) (constant_uniform 0)
                  d 2%Z 0 0%nat H)).
Defined.

Lemma rvs_returns_n_unit_vectors_witness :
  let d := standard_kent 2 0 in
  draws_n_rows nat (constant_gauss (1, 0, 0)) (constant_uniform 0) /\
  draws_nonzero_rows nat (constant_gauss (1, 0, 0)) /\
  (forall s, batch_accepts unit_gamma cutoff_bessel nat
               (constant_gauss (1, 0, 0)) (constant_uniform 0) d s) /\
  Forall unit_vector (cached_rvs d) /\
  (0 <= 3)%Z /\ (Z.to_nat 3 <= 3)%nat /\
  exists k rows kept,
    (k <= 3)%nat /\
    rvs unit_gamma cutoff_bessel nat (constant_gauss (1, 0, 0))
      (constant_uniform 0) (Some 3%Z) d 3 0%nat
    = (Ok (rows, set_cached_rvs d kept),
       state_after_batches nat (constant_gauss (1, 0, 0))
         (constant_uniform 0) k 0%nat) /\
    rows ++ kept
    = drawn_rows nat (constant_gauss (1, 0, 0)) (constant_uniform 0) d k 0%nat /\
    length rows = 3%nat /\ Forall unit_vector rows.
Proof.
  intro d.
  assert (N : norm (1, 0, 0) <> 0) by (rewrite norm_e1; lra).
  destruct (constant_draws (1, 0, 0) 0 N) as [Hn Hz].
  assert (Ha : forall s, batch_accepts unit_gamma cutoff_bessel nat
                 (constant_gauss (1, 0, 0)) (constant_uniform 0) d s)
    by (intro s; apply constant_batch_accepts).
  assert (Hc : Forall unit_vector (cached_rvs d)) by constructor.
  assert (H0 : (0 <= 3)%Z) by lia.
  assert (Hf : (Z.to_nat 3 <= 3)%nat) by (simpl; lia).
  split; [exact Hn |]. split; [exact Hz |]. split; [exact Ha |].
  split; [exact Hc |]. split; [exact H0 |]. split; [exact Hf |].
  destruct (rvs_returns_n_unit_vectors unit_gamma cutoff_bessel nat
              (constant_gauss (1, 0, 0)) (constant_uniform 0)
              d 3%Z 3 0%nat Hn Hz Ha Hc H0 Hf)
    as (k & Hk & Hr & _ & _ & Hl & Hu & _).
  exists k. eexists. eexists.
  split; [exact Hk |]. split; [exact Hr |].
  split; [apply (slice_conservation
                   (drawn_rows nat (constant_gauss (1, 0, 0))
                      (constant_uniform 0) d k 0%nat) 3) |].
  split; [exact Hl | exact Hu].
Defined.

(* ------------------------------------------------------------------ *)
(** ** Further properties: the levels of the density *)

Lemma Rleb_true (x y : R) : x <= y -> Rleb x y = true.
Proof. unfold Rleb. intro. destruct (Rle_dec x y); [reflexivity | contradiction]. Qed.

Lemma percentile_test (p : R) :
  Rleb 0 p && Rltb p 100 = true <-> 0 <= p < 100.
Proof.
  unfold Rleb, Rltb.
  destruct (Rle_dec 0 p), (Rlt_dec p 100); simpl; split; intro H;
    try discriminate; try reflexivity; lra.
Qed.

Lemma py_int_floor (x : R) :
  0 <= x -> (0 <= py_int x)%Z /\ IZR (py_int x) <= x < IZR (py_int x) + 1.
Proof.
  intro Hx. unfold py_int. destruct (Rle_dec 0 x); [| contradiction].
  destruct (base_Int_part x) as [H1 H2].
  split; [| lra].
  apply Z.lt_succ_r, lt_IZR. rewrite succ_IZR. lra.
Qed.

Lemma py_int_small_negative (x : R) : -1 < x <= 0 -> py_int x = 0%Z.
Proof.
  intros [H1 H2]. unfold py_int. destruct (Rle_dec 0 x).
  - symmetry. apply Int_part_spec. simpl. lra.
  - replace (Int_part (- x)) with 0%Z; [reflexivity |].
    apply Int_part_spec. simpl. lra.
Qed.

Lemma py_int_monotone (x y : R) : 0 <= x -> x <= y -> (py_int x <= py_int y)%Z.
Proof.
  intros Hx Hxy.
  destruct (py_int_floor x Hx) as (_ & X1 & _).
  destruct (py_int_floor y) as (_ & _ & Y2); [lra |].
  apply Z.lt_succ_r, lt_IZR. rewrite succ_IZR. lra.
Qed.

Lemma np_getitem_in_range (a : list R) (i : Z) :
  (0 <= i < Z.of_nat (length a))%Z ->
  np_getitem a i = nth_error a (Z.to_nat i) /\
  exists v, nth_error a (Z.to_nat i) = Some v.
Proof.
  intros [H0 H1]. unfold np_getitem.
  destruct (Z.leb_spec 0 i); [| lia].
  destruct (Z.ltb_spec i (Z.of_nat (length a))); [| lia].
  split; [reflexivity |].
  destruct (nth_error a (Z.to_nat i)) eqn:E; [eauto |].
  apply nth_error_None in E. lia.
Qed.

Lemma np_getitem_past_the_end (a : list R) (i : Z) :
  (Z.of_nat (length a) <= i)%Z -> np_getitem a i = None.
Proof.
  intro H. unfold np_getitem.
  destruct (Z.leb_spec 0 i), (Z.ltb_spec i (Z.of_nat (length a)));
    try lia; simpl.
  destruct (Z.leb_spec (- Z.of_nat (length a)) i), (Z.ltb_spec i 0);
    try lia; reflexivity.
Qed.

Lemma np_getitem_nil (i : Z) : np_getitem [] i = None.
Proof.
  unfold np_getitem.
  destruct ((0 <=? i) && (i <? Z.of_nat (length (@nil R))))%Z.
  - now destruct (Z.to_nat i).
  - destruct ((- Z.of_nat (length (@nil R)) <=? i) && (i <? 0))%Z;
      [now destruct (Z.to_nat _) | reflexivity].
Qed.

(** The place of a percentile in a table of at least two entries. *)
Lemma level_place (len : nat) (p : R) :
  (2 <= len)%nat -> 0 <= p < 100 ->
  let loc := (INR len - 1) * p / 100 in
  0 <= loc /\ (0 <= py_int loc)%Z /\ (py_int loc + 1 < Z.of_nat len)%Z /\
  0 <= loc - IZR (py_int loc) < 1.
Proof.
  intros Hlen [Hp0 Hp1] loc.
  assert (HL : 1 <= INR len - 1).
  { apply le_INR in Hlen. simpl in Hlen. lra. }
  assert (H0 : 0 <= loc) by (unfold loc; nra).
  assert (H1 : loc < INR len - 1) by (unfold loc; nra).
  destruct (py_int_floor loc H0) as (I0 & I1 & I2).
  split; [exact H0 |]. split; [exact I0 |]. split; [| lra].
  apply lt_IZR. rewrite plus_IZR, <- INR_IZR_INZ. simpl. lra.
Qed.

Lemma ascending_cons (x : R) (l : list R) :
  ascending (x :: l) <-> (forall y, In y l -> x <= y) /\ ascending l.
Proof.
  split.
  - intro A. split.
    + intros y Hy. apply In_nth_error in Hy. destruct Hy as [j Hj].
      apply (A 0%nat (S j) x y); [lia | reflexivity | exact Hj].
    + intros i j a b Hij Hi Hj.
      apply (A (S i) (S j) a b); [lia | exact Hi | exact Hj].
  - intros [Hx A] i j a b Hij Hi Hj.
    destruct i as [| i], j as [| j]; simpl in Hi, Hj.
    + injection Hi as <-. injection Hj as <-. apply Rle_refl.
    + injection Hi as <-. apply Hx. eapply nth_error_In, Hj.
    + lia.
    + apply (A i j a b); [lia | exact Hi | exact Hj].
Qed.

Lemma insert_sorted_In (x y : R) (l : list R) :
  In y (insert_sorted x l) <-> y = x \/ In y l.
Proof.
  induction l as [| z l IH]; simpl.
  - intuition.
  - destruct (Rle_dec x z); simpl; [intuition |].
    rewrite IH. intuition.
Qed.

Lemma insert_sorted_length (x : R) (l : list R) :
  length (insert_sorted x l) = S (length l).
Proof.
  induction l as [| z l IH]; simpl; [reflexivity |].
  destruct (Rle_dec x z); simpl; [reflexivity | now rewrite IH].
Qed.

Lemma insert_sorted_ascending (x : R) (l : list R) :
  ascending l -> ascending (insert_sorted x l).
Proof.
  induction l as [| z l IH]; intro A; simpl.
  - apply ascending_cons. split; [intros y [] | exact A].
  - apply ascending_cons in A. destruct A as [Hz A].
    destruct (Rle_dec x z) as [Le | Gt].
    + apply ascending_cons. split.
      * intros y [<- | Hy]; [exact Le |].
        apply Rle_trans with z; [exact Le | apply Hz, Hy].
      * apply ascending_cons. split; assumption.
    + apply ascending_cons. split; [| apply IH, A].
      intros y Hy. apply insert_sorted_In in Hy.
      destruct Hy as [-> | Hy]; [lra | apply Hz, Hy].
Qed.

Lemma np_sort_sorted (l : list R) :
  ascending (np_sort l) /\ length (np_sort l) = length l /\
  forall v, In v (np_sort l) <-> In v l.
Proof.
  induction l as [| x l (A & L & M)]; simpl.
  - split; [| split; [reflexivity | tauto]].
    intros i j a b _ Hi. destruct i; discriminate.
  - split; [apply insert_sorted_ascending, A |].
    split; [rewrite insert_sorted_length, L; reflexivity |].
    intro v. rewrite insert_sorted_In, M. intuition.
Qed.

Section FurtherLevel.

Variable G : R -> R.
Variable I : R -> R -> R.
Variable rng : Type.
Variable gauss_rvs : rng -> nat -> list vec3 * rng.
Variable uniform_rvs : rng -> nat -> list R * rng.

Local Abbreviation sampler := (rvs G I rng gauss_rvs uniform_rvs).
Local Abbreviation level_of := (level G I rng gauss_rvs uniform_rvs).

(** The value read off a table at a percentile. *)
Lemma level_reads_the_table (p : R) (n : Z) (d : KentDistribution)
    (fuel : nat) (c : cache) (s : rng) :
  0 <= p < 100 ->
  (n <= Z.of_nat (length (level_log_pdf d)))%Z ->
  let table := level_log_pdf d in
  let loc := (INR (length table) - 1) * p / 100 in
  level_of p n d fuel c s
  = (match np_getitem table (py_int loc),
           np_getitem table (py_int loc + 1) with
     | Some a, Some b =>
         LevelValue (a + (loc - IZR (py_int loc)) * (b - a))
     | _, _ => LevelIndexError
     end, d, c, s).
Proof.
  intros Hp Hn table loc. unfold level.
  rewrite (proj2 (percentile_test p) Hp).
  destruct (Z.ltb_spec (Z.of_nat (length (level_log_pdf d))) n); [lia |].
  fold table. fold loc.
  destruct (np_getitem table (py_int loc)) as [a |];
    [destruct (np_getitem table (py_int loc + 1)) as [b |] |]; reflexivity.
Qed.

Lemma level_out_of_bounds (p : R) (n : Z) (d : KentDistribution)
    (fuel : nat) (c : cache) (s : rng) :
  p < 0 \/ 100 <= p -> level_of p n d fuel c s = (LevelNan, d, c, s).
Proof.
  intro H. unfold level.
  destruct (Rleb 0 p && Rltb p 100) eqn:E; [| reflexivity].
  apply percentile_test in E. lra.
Qed.

(** X20: the edges of [level].  A percentile outside [0, 100), 100
    included, gives [nan] and changes nothing.  With a percentile inside,
    a table of at most one entry and no more samples asked for than the
    table holds (so on a fresh object with [n_samples <= 0]) the call raises
    [IndexError] and changes nothing. *)
Theorem level_edge_cases (p : R) (n : Z) (d : KentDistribution)
    (fuel : nat) (c : cache) (s : rng) :
  ((p < 0 \/ 100 <= p) -> level_of p n d fuel c s = (LevelNan, d, c, s)) /\
  (0 <= p < 100 ->
   (n <= Z.of_nat (length (level_log_pdf d)))%Z ->
   (length (level_log_pdf d) <= 1)%nat ->
   level_of p n d fuel c s = (LevelIndexError, d, c, s)).
Proof.
  split.
  - apply level_out_of_bounds.
  - intros Hp Hn Hl. rewrite level_reads_the_table by assumption.
    cbv zeta.
    destruct (level_log_pdf d) as [| a [| b l]] eqn:E; simpl length in *;
      [| | lia].
    + now rewrite np_getitem_nil.
    + replace ((INR 1 - 1) * p / 100) with 0 by (simpl; field).
      rewrite (py_int_small_negative 0) by lra.
      rewrite (np_getitem_past_the_end [a] (0 + 1)) by (simpl; lia).
      destruct (np_getitem [a] 0); reflexivity.
Qed.

(** The interpolated value lies between its two neighbours. *)
Lemma level_value_exists (table : list R) (p : R) :
  (2 <= length table)%nat -> ascending table -> 0 <= p < 100 ->
  let loc := (INR (length table) - 1) * p / 100 in
  let i := Z.to_nat (py_int loc) in
  exists a b,
    np_getitem table (py_int loc) = Some a /\
    np_getitem table (py_int loc + 1) = Some b /\
    nth_error table i = Some a /\ nth_error table (S i) = Some b /\
    a <= b /\
    a <= a + (loc - IZR (py_int loc)) * (b - a) <= b.
Proof.
  intros Hlen Asc Hp loc i.
  destruct (level_place (length table) p Hlen Hp) as (L0 & I0 & I1 & F).
  fold loc in L0, I0, I1, F.
  destruct (np_getitem_in_range table (py_int loc)) as (Ga & a & Na); [lia |].
  destruct (np_getitem_in_range table (py_int loc + 1)) as (Gb & b & Nb);
    [lia |].
  replace (Z.to_nat (py_int loc + 1)) with (S i) in Gb, Nb by (unfold i; lia).
  fold i in Ga, Na.
  assert (Hab : a <= b) by (apply (Asc i (S i) a b); [lia | easy | easy]).
  exists a, b. rewrite Ga, Gb.
  repeat (split; [assumption |]). nra.
Qed.

(** X21: [level] on a table it already holds.  When the table has at least
    two entries, in ascending order, and no more samples are asked for than
    it holds, [level(p)] for p in [0, 100) returns a number, draws nothing
    and leaves the object and the memo table unchanged; the number lies
    between the smallest and the largest entry, [level(0)] is the smallest
    entry, and the level does not decrease when the percentile grows. *)
Theorem level_interpolates_its_table (p q : R) (n : Z)
    (d : KentDistribution) (fuel : nat) (c : cache) (s : rng) :
  (2 <= length (level_log_pdf d))%nat -> ascending (level_log_pdf d) ->
  (n <= Z.of_nat (length (level_log_pdf d)))%Z ->
  0 <= p -> p <= q -> q < 100 ->
  exists v w lo hi,
    level_of p n d fuel c s = (LevelValue v, d, c, s) /\
    level_of q n d fuel c s = (LevelValue w, d, c, s) /\
    nth_error (level_log_pdf d) 0 = Some lo /\
    nth_error (level_log_pdf d) (length (level_log_pdf d) - 1) = Some hi /\
    lo <= v /\ v <= w /\ w <= hi /\
    (p = 0 -> v = lo).
Proof.
  intros Hlen Asc Hn Hp0 Hpq Hq.
  set (table := level_log_pdf d) in *.
  assert (Hp : 0 <= p < 100) by lra.
  assert (Hq' : 0 <= q < 100) by lra.
  destruct (level_value_exists table p Hlen Asc Hp)
    as (a & b & Ga & Gb & Na & Nb & Hab & Va).
  destruct (level_value_exists table q Hlen Asc Hq')
    as (a' & b' & Ga' & Gb' & Na' & Nb' & Hab' & Va').
  destruct (level_place (length table) p Hlen Hp) as (L0 & I0 & I1 & F).
  destruct (level_place (length table) q Hlen Hq') as (L0' & I0' & I1' & F').
  set (lp := (INR (length table) - 1) * p / 100) in *.
  set (lq := (INR (length table) - 1) * q / 100) in *.
  assert (HL : 1 <= INR (length table) - 1).
  { apply le_INR in Hlen. simpl in Hlen. lra. }
  assert (Hloc : lp <= lq) by (unfold lp, lq; nra).
  pose proof (py_int_monotone lp lq L0 Hloc) as Mi.
  destruct (nth_error table 0) as [lo |] eqn:Nlo;
    [| apply nth_error_None in Nlo; lia].
  destruct (nth_error table (length table - 1)) as [hi |] eqn:Nhi;
    [| apply nth_error_None in Nhi; lia].
  exists (a + (lp - IZR (py_int lp)) * (b - a)),
         (a' + (lq - IZR (py_int lq)) * (b' - a')), lo, hi.
  split.
  { unfold table. rewrite level_reads_the_table by assumption. cbv zeta.
    fold table. fold lp. now rewrite Ga, Gb. }
  split.
  { unfold table. rewrite level_reads_the_table by assumption. cbv zeta.
    fold table. fold lq. now rewrite Ga', Gb'. }
  split; [reflexivity |]. split; [reflexivity |].
  assert (Hlo : lo <= a)
    by (apply (Asc 0%nat (Z.to_nat (py_int lp)) lo a); [lia | easy | easy]).
  assert (Hhi : b' <= hi).
  { apply (Asc (S (Z.to_nat (py_int lq))) (length table - 1)%nat b' hi);
      [lia | easy | easy]. }
  split; [lra |]. split; [| split; [lra |]].
  - destruct (Z.eq_dec (py_int lp) (py_int lq)) as [E | NE].
    + rewrite <- E in Na', Nb', Va' |- *.
      rewrite Na in Na'. injection Na' as <-.
      rewrite Nb in Nb'. injection Nb' as <-.
      nra.
    + assert (Hba : b <= a').
      { apply (Asc (S (Z.to_nat (py_int lp))) (Z.to_nat (py_int lq)) b a');
          [lia | easy | easy]. }
      lra.
  - intros ->.
    assert (Z0 : lp = 0) by (unfold lp; field).
    rewrite Z0 in Na |- *. rewrite (py_int_small_negative 0) in Na |- * by lra.
    change (Z.to_nat 0) with 0%nat in Na.
    rewrite Nlo in Na. injection Na as <-. ring.
Qed.

Lemma rvs_object (n : Z) (d d1 : KentDistribution) (fuel : nat) (s s1 : rng)
    (rows : list vec3) :
  sampler (Some n) d fuel s = (Ok (rows, d1), s1) ->
  exists kept, d1 = set_cached_rvs d kept.
Proof.
  unfold rvs.
  destruct (rvs_loop G I rng gauss_rvs uniform_rvs fuel d n (cached_rvs d) s)
    as [[all | e |] s'] eqn:El; intro H; try discriminate.
  injection H as _ <- _. eauto.
Qed.

(** X22: [level] fills its table.  When the table holds fewer than
    [n_samples] entries, the sampler returns rows and [log_normalize]
    returns ln Z, then [level] stores the values ln Z - f(x) of the rows
    drawn, in ascending order and as many as the rows, keeps the sampler's
    new cache, and leaves the memo table and the random state as the
    normalizer and the sampler left them; it returns a number when at
    least two rows were drawn and raises [IndexError] otherwise.  Every
    later call that asks for no more samples than the table holds leaves the
    object, the memo table and the random state unchanged, so that levels
    of different percentiles are read off the same sample. *)
Theorem level_fills_a_sorted_table (p : R) (n : Z) (d d1 : KentDistribution)
    (fuel : nat) (c c1 : cache) (s s1 : rng) (rows : list vec3) (lnZ : R) :
  0 <= p < 100 ->
  (Z.of_nat (length (level_log_pdf d)) < n)%Z ->
  sampler (Some n) d fuel s = (Ok (rows, d1), s1) ->
  log_normalize G I d fuel c = (Ok lnZ, c1) ->
  let values := map (fun x => - (log_density d x - lnZ)) rows in
  let d2 := set_level_log_pdf d1 (np_sort values) in
  ascending (level_log_pdf d2) /\
  length (level_log_pdf d2) = length rows /\
  (forall v, In v (level_log_pdf d2) <-> In v values) /\
  cached_rvs d2 = cached_rvs d1 /\
  (exists out,
     level_of p n d fuel c s = (out, d2, c1, s1) /\
     ((2 <= length rows)%nat -> exists v, out = LevelValue v) /\
     ((length rows < 2)%nat -> out = LevelIndexError)) /\
  (forall q n' fuel' c' s',
     (n' <= Z.of_nat (length rows))%Z ->
     exists out, level_of q n' d2 fuel' c' s' = (out, d2, c', s')).
Proof.
  intros Hp Hn Hr Hl values d2.
  destruct (np_sort_sorted values) as (Asc & Len & Mem).
  assert (Len' : length (level_log_pdf d2) = length rows).
  { unfold d2. simpl. rewrite Len. unfold values. apply length_map. }
  split; [exact Asc |]. split; [exact Len' |]. split; [exact Mem |].
  split; [reflexivity |].
  destruct (rvs_object n d d1 fuel s s1 rows Hr) as [kept Ed1].
  assert (Hlp : log_pdf G I d1 1 rows true fuel c
                = (Ok (map (fun x => log_density d x - lnZ) rows), c1)).
  { rewrite log_pdf_normalized.
    rewrite (log_normalize_ext G I d1 d fuel c) by (subst d1; reflexivity).
    rewrite Hl. cbn [fst snd bind]. subst d1. reflexivity. }
  assert (Hlev : level_of p n d fuel c s
                 = (match np_getitem (np_sort values)
                            (py_int ((INR (length (np_sort values)) - 1)
                                     * p / 100)),
                          np_getitem (np_sort values)
                            (py_int ((INR (length (np_sort values)) - 1)
                                     * p / 100) + 1) with
                    | Some a, Some b =>
                        LevelValue
                          (a + ((INR (length (np_sort values)) - 1) * p / 100
                                - IZR (py_int ((INR (length (np_sort values))
                                                - 1) * p / 100)))
                               * (b - a))
                    | _, _ => LevelIndexError
                    end, d2, c1, s1)).
  { unfold level. rewrite (proj2 (percentile_test p) Hp).
    destruct (Z.ltb_spec (Z.of_nat (length (level_log_pdf d))) n); [| lia].
    rewrite Hr, Hlp. rewrite map_map. fold values. fold d2.
    cbn [level_log_pdf d2 set_level_log_pdf].
    change (level_log_pdf d2) with (np_sort values).
    destruct (np_getitem (np_sort values) _) as [a |];
      [destruct (np_getitem (np_sort values) _) as [b |] |]; reflexivity. }
  split.
  - eexists. split; [exact Hlev |]. split.
    + intro H2.
      assert (H2' : (2 <= length (np_sort values))%nat)
        by (change (np_sort values) with (level_log_pdf d2); lia).
      destruct (level_value_exists (np_sort values) p H2' Asc Hp)
        as (a & b & Ga & Gb & _).
      cbv zeta in Ga, Gb. rewrite Ga, Gb. eauto.
    + intro H1.
      assert (Hlen : (length (np_sort values) <= 1)%nat)
        by (change (np_sort values) with (level_log_pdf d2); lia).
      destruct (np_sort values) as [| a [| b l]]; simpl length in *; [| | lia].
      * now rewrite np_getitem_nil.
      * replace ((INR 1 - 1) * p / 100) with 0 by (simpl; field).
        rewrite (py_int_small_negative 0) by lra.
        rewrite (np_getitem_past_the_end [a] (0 + 1)) by (simpl; lia).
        destruct (np_getitem [a] 0); reflexivity.
  - intros q n' fuel' c' s' Hn'.
    destruct (Rle_dec 0 q) as [Q0 | Q0]; [destruct (Rlt_dec q 100) as [Q1 | Q1] |].
    + eexists. apply level_reads_the_table; [lra | lia].
    + exists LevelNan. apply level_out_of_bounds. right. lra.
    + exists LevelNan. apply level_out_of_bounds. left. lra.
Qed.

End FurtherLevel.

Lemma level_edge_cases_witness :
  let d := standard_kent 2 0 in
  level unit_gamma cutoff_bessel nat (constant_gauss (1, 0, 0))
    (constant_uniform 0) 100 10000 d 0 [] 0%nat
  = (LevelNan, d, [], 0%nat) /\
  level unit_gamma cutoff_bessel nat (constant_gauss (1, 0, 0))
    (constant_uniform 0) 50 0 d 0 [] 0%nat
  = (LevelIndexError, d, [], 0%nat).
Proof.
  intro d.
  destruct (level_edge_cases unit_gamma cutoff_bessel nat
              (constant_gauss (1, 0, 0)) (constant_uniform 0)
              100 10000 d 0 [] 0%nat) as [N _].
  destruct (level_edge_cases unit_gamma cutoff_bessel nat
              (constant_gauss (1, 0, 0)) (constant_uniform 0)
              50 0 d 0 [] 0%nat) as [_ E].
  split.
  - apply N. right. lra.
  - apply E; [lra | simpl; lia | simpl; lia].
Defined.

Lemma ascending_pair : ascending [1; 3].
Proof.
  apply ascending_cons. split.
  - intros y [<- | []]. lra.
  - apply ascending_cons. split; [intros y [] |].
    intros i j a b _ Hi. destruct i; discriminate.
Qed.

Lemma level_interpolates_its_table_witness :
  let d := set_level_log_pdf (standard_kent 2 0) [1; 3] in
  (2 <= length (level_log_pdf d))%nat /\ ascending (level_log_pdf d) /\
  (2 <= Z.of_nat (length (level_log_pdf d)))%Z /\
  0 <= 0 /\ 0 <= 50 /\ 50 < 100 /\
  exists w,
    level unit_gamma cutoff_bessel nat (constant_gauss (1, 0, 0))
      (constant_uniform 0) 0 2 d 0 [] 0%nat
    = (LevelValue 1, d, [], 0%nat) /\
    level unit_gamma cutoff_bessel nat (constant_gauss (1, 0, 0))
      (constant_uniform 0) 50 2 d 0 [] 0%nat
    = (LevelValue w, d, [], 0%nat) /\
    1 <= w <= 3.
Proof.
  intro d.
  assert (H2 : (2 <= length (level_log_pdf d))%nat) by (simpl; lia).
  assert (Ha : ascending (level_log_pdf d)) by exact ascending_pair.
  assert (Hn : (2 <= Z.of_nat (length (level_log_pdf d)))%Z) by (simpl; lia).
  assert (P0 : 0 <= 0) by lra.
  assert (P1 : 0 <= 50) by lra.
  assert (P2 : 50 < 100) by lra.
  split; [exact H2 |]. split; [exact Ha |]. split; [exact Hn |].
  split; [exact P0 |]. split; [exact P1 |]. split; [exact P2 |].
  destruct (level_interpolates_its_table unit_gamma cutoff_bessel nat
              (constant_gauss (1, 0, 0)) (constant_uniform 0)
              0 50 2 d 0 [] 0%nat H2 Ha Hn P0 P1 P2)
    as (v & w & lo & hi & Lv & Lw & Nlo & Nhi & B1 & B2 & B3 & Z0).
  simpl in Nlo, Nhi. injection Nlo as <-. injection Nhi as <-.
  rewrite (Z0 eq_refl) in Lv, B2.
  exists w. split; [exact Lv |]. split; [exact Lw | lra].
Defined.

Lemma level_fills_a_sorted_table_witness :
  let d := standard_kent 2 0 in
  0 <= 50 < 100 /\
  (Z.of_nat (length (level_log_pdf d)) < 2)%Z /\
  exists rows d1 s1 c1 v,
    rvs unit_gamma cutoff_bessel nat (constant_gauss (1, 0, 0))
      (constant_uniform 0) (Some 2%Z) d 2 0%nat = (Ok (rows, d1), s1) /\
    log_normalize unit_gamma cutoff_bessel d 2 [] = (Ok (ln (2 * PI)), c1) /\
    let d2 :=
      set_level_log_pdf d1
        (np_sort (map (fun x => - (log_density d x - ln (2 * PI))) rows)) in
    level unit_gamma cutoff_bessel nat (constant_gauss (1, 0, 0))
      (constant_uniform 0) 50 2 d 2 [] 0%nat
    = (LevelValue v, d2, c1, s1) /\
    ascending (level_log_pdf d2) /\ length (level_log_pdf d2) = 2%nat.
Proof.
  intro d.
  assert (Hp : 0 <= 50 < 100) by lra.
  assert (Hn : (Z.of_nat (length (level_log_pdf d)) < 2)%Z) by (simpl; lia).
  split; [exact Hp |]. split; [exact Hn |].
  destruct (rvs_loop_draws unit_gamma cutoff_bessel nat
              (constant_gauss (1, 0, 0)) (constant_uniform 0) d 2
              (fun _ => True)
              (fun s => constant_batch_accepts unit_gamma cutoff_bessel
                          (1, 0, 0) d s)) with (fuel := 2%nat)
              (rows := cached_rvs d) (s := 0%nat)
    as (drawn & s1 & Hl & Hlen & _).
  { intros s out s' _. apply Forall_forall. trivial. }
  { simpl. lia. }
  set (all := cached_rvs d ++ drawn) in *.
  assert (Hr : rvs unit_gamma cutoff_bessel nat (constant_gauss (1, 0, 0))
                 (constant_uniform 0) (Some 2%Z) d 2 0%nat
               = (Ok (slice_to all 2, set_cached_rvs d (slice_from all 2)), s1)).
  { unfold rvs. rewrite Hl. reflexivity. }
  assert (Lr : length (slice_to all 2) = 2%nat)
    by (rewrite slice_to_length; [reflexivity | lia]).
  destruct (standard_log_normalize 2) as [c1 Hz]. fold d in Hz.
  destruct (level_fills_a_sorted_table unit_gamma cutoff_bessel nat
              (constant_gauss (1, 0, 0)) (constant_uniform 0)
              50 2 d _ 2 [] c1 0%nat s1 _ (ln (2 * PI)) Hp Hn Hr Hz)
    as (Asc & Len & _ & _ & (out & Lv & V & _) & _).
  destruct V as [v ->]; [lia |].
  exists (slice_to all 2), (set_cached_rvs d (slice_from all 2)), s1, c1, v.
  split; [exact Hr |]. split; [exact Hz |].
  intro d2. split; [exact Lv |]. split; [exact Asc |].
  rewrite <- Lr. exact Len.
Defined.
